(** * Vacation request lifecycle of [vacation.py]: a shallow embedding

    The bot keeps its state in module-level dictionaries
    ([vacation_requests], [vacation_data], [vacation_stats],
    [vacation_config]) and mutates request dictionaries in place.  The
    embedding keeps that shape:

    - request dictionaries are objects of a heap, and the two stores map a
      request id to a reference, so that the aliasing between
      [vacation_requests] and [vacation_data] is the one of the program;
    - every coroutine is a computation of a state-and-exception monad over
      the record [World] (in-memory stores, the Discord guilds, the wall
      clock);
    - [try: ... except Exception:] blocks are [try_except];
    - strings are strings: request ids and ledger keys are built with the
      decimal printer, the eligibility messages are the literal texts.

    What is left out: the rendering of embeds, direct messages and
    ephemeral replies (their failures are swallowed by the program and they
    never touch the stores), the JSON files (the model is the state of one
    running process), and the fields [user_name], [guild_id], [message_id],
    [thread_id], [log_message_id] of a request, which no decision reads. *)

From stdpp Require Import base option list gmap strings pretty.
From Stdlib Require Import ZArith Lia Ascii.

Local Open Scope Z_scope.

(** ** Python's [datetime] (the arithmetic of [Lib/_pydatetime.py]) *)

Module PyDatetime.

Record date := mk_date { year : Z; month : Z; day : Z }.

(** An aware datetime in the fixed zone [MSK = timezone(timedelta(hours=3))].
    Every datetime of the program is built in that zone. *)
Record datetime := mk_datetime {
  date_of : date;            (* [.date()] *)
  hour : Z;
  minute : Z;
  second : Z;
  microsecond : Z
}.

Definition utcoffset_seconds : Z := 3 * 3600.

Definition _is_leap (y : Z) : bool :=
  (y mod 4 =? 0) && (negb (y mod 100 =? 0) || (y mod 400 =? 0)).

Definition _days_before_year (y : Z) : Z :=
  let y := y - 1 in
  y * 365 + y / 4 - y / 100 + y / 400.

Definition _DAYS_IN_MONTH : list Z :=
  [-1; 31; 28; 31; 30; 31; 30; 31; 31; 30; 31; 30; 31].

Definition _DAYS_BEFORE_MONTH : list Z :=
  [-1; 0; 31; 59; 90; 120; 151; 181; 212; 243; 273; 304; 334].

Definition index (l : list Z) (i : Z) : Z := nth (Z.to_nat i) l 0.

Definition _days_before_month (y m : Z) : Z :=
  index _DAYS_BEFORE_MONTH m + (if (2 <? m) && _is_leap y then 1 else 0).

Definition _ymd2ord (y m d : Z) : Z :=
  _days_before_year y + _days_before_month y m + d.

Definition _DI400Y : Z := _days_before_year 401.
Definition _DI100Y : Z := _days_before_year 101.
Definition _DI4Y : Z := _days_before_year 5.

Definition _ord2ymd (n : Z) : date :=
  let n := n - 1 in
  let n400 := n / _DI400Y in
  let n := n mod _DI400Y in
  let y := n400 * 400 + 1 in
  let n100 := n / _DI100Y in
  let n := n mod _DI100Y in
  let n4 := n / _DI4Y in
  let n := n mod _DI4Y in
  let n1 := n / 365 in
  let n := n mod 365 in
  let y := y + n100 * 100 + n4 * 4 + n1 in
  if (n1 =? 4) || (n100 =? 4) then mk_date (y - 1) 12 31
  else
    let leapyear := (n1 =? 3) && (negb (n4 =? 24) || (n100 =? 3)) in
    let m := Z.shiftr (n + 50) 5 in
    let preceding :=
      index _DAYS_BEFORE_MONTH m + (if (2 <? m) && leapyear then 1 else 0) in
    if n <? preceding then
      let m := m - 1 in
      let preceding :=
        preceding
        - (index _DAYS_IN_MONTH m + (if (m =? 2) && leapyear then 1 else 0)) in
      mk_date y m (n - preceding + 1)
    else mk_date y m (n - preceding + 1).

Definition toordinal (d : date) : Z := _ymd2ord (year d) (month d) (day d).
Definition fromordinal (n : Z) : date := _ord2ymd n.

(** [_cmp] on the tuples of fields. *)
Fixpoint _cmp (x y : list Z) : comparison :=
  match x, y with
  | [], [] => Eq
  | [], _ :: _ => Lt
  | _ :: _, [] => Gt
  | a :: x', b :: y' =>
      match a ?= b with
      | Eq => _cmp x' y'
      | c => c
      end
  end.

Definition date_fields (d : date) : list Z := [year d; month d; day d].

Definition date_eqb (a b : date) : bool :=
  match _cmp (date_fields a) (date_fields b) with Eq => true | _ => false end.
Definition date_ltb (a b : date) : bool :=
  match _cmp (date_fields a) (date_fields b) with Lt => true | _ => false end.
Definition date_leb (a b : date) : bool :=
  match _cmp (date_fields a) (date_fields b) with Gt => false | _ => true end.

(** [(a - b).days] for two dates. *)
Definition date_sub_days (a b : date) : Z := toordinal a - toordinal b.

Definition datetime_fields (t : datetime) : list Z :=
  date_fields (date_of t) ++ [hour t; minute t; second t; microsecond t].

(** [a >= b] and [a > b] for two datetimes carrying the same [tzinfo]. *)
Definition datetime_geb (a b : datetime) : bool :=
  match _cmp (datetime_fields a) (datetime_fields b) with Lt => false | _ => true end.
Definition datetime_gtb (a b : datetime) : bool :=
  match _cmp (datetime_fields a) (datetime_fields b) with Gt => true | _ => false end.

(** A [timedelta], in microseconds. *)
Definition timedelta_days (n : Z) : Z := n * 86400 * 1000000.
Definition timedelta_hours (n : Z) : Z := n * 3600 * 1000000.

Definition local_microseconds (t : datetime) : Z :=
  ((toordinal (date_of t) * 86400
    + hour t * 3600 + minute t * 60 + second t) * 1000000)
  + microsecond t.

(** [t + delta]; the [OverflowError] outside years 1..9999 is not
    modelled. *)
Definition datetime_add (t : datetime) (delta : Z) : datetime :=
  let total := local_microseconds t + delta in
  let days := total / (86400 * 1000000) in
  let rest := total mod (86400 * 1000000) in
  let seconds := rest / 1000000 in
  let us := rest mod 1000000 in
  let h := seconds / 3600 in
  let rem := seconds mod 3600 in
  mk_datetime (fromordinal days) h (rem / 60) (rem mod 60) us.

(** [int(t.timestamp())]: seconds since 1970-01-01T00:00:00+00:00,
    truncated towards zero. *)
Definition timestamp_int (t : datetime) : Z :=
  Z.quot (local_microseconds t
          - (719163 * 86400 + utcoffset_seconds) * 1000000) 1000000.

(** Zero padding of [strftime]'s numeric fields. *)
Fixpoint zeros (n : nat) : string :=
  match n with O => "" | S n' => String "0"%char (zeros n') end.

Definition zfill (width : nat) (s : string) : string :=
  zeros (width - String.length s)%nat +:+ s.

(** [t.strftime("%Y-%m")] *)
Definition strftime_Ym (t : datetime) : string :=
  zfill 4 (pretty (year (date_of t))) +:+ "-"
  +:+ zfill 2 (pretty (month (date_of t))).

(** [_days_in_month(year, month)] *)
Definition _days_in_month (y m : Z) : Z :=
  if (m =? 2) && _is_leap y then 29 else index _DAYS_IN_MONTH m.

Definition MINYEAR : Z := 1.
Definition MAXYEAR : Z := 9999.

(** What [_check_date_fields] lets through: the dates that exist. *)
Definition valid_date (d : date) : Prop :=
  MINYEAR ≤ year d ≤ MAXYEAR ∧ 1 ≤ month d ≤ 12
  ∧ 1 ≤ day d ≤ _days_in_month (year d) (month d).

(** What [_check_time_fields] lets through. *)
Definition valid_time (t : datetime) : Prop :=
  0 ≤ hour t ≤ 23 ∧ 0 ≤ minute t ≤ 59 ∧ 0 ≤ second t ≤ 59
  ∧ 0 ≤ microsecond t ≤ 999999.

(** [_MAXORDINAL], the ordinal of 31 December 9999. *)
Definition _MAXORDINAL : Z := 3652059.

(** [d + timedelta(days=n)] for a date; the [OverflowError] outside
    [1 .. _MAXORDINAL] is not modelled. *)
Definition date_add_days (d : date) (n : Z) : date :=
  fromordinal (toordinal d + n).

End PyDatetime.

Import PyDatetime.


(** ** Python dictionaries that are iterated: insertion-ordered *)

Definition dict (V : Type) : Type := list (string * V).

Section dict.
Context {V : Type}.

(** [d.get(k)] *)
Fixpoint dict_get (k : string) (d : dict V) : option V :=
  match d with
  | [] => None
  | (k', v) :: d' => if decide (k = k') then Some v else dict_get k d'
  end.

(** [k in d] *)
Definition dict_mem (k : string) (d : dict V) : bool :=
  match dict_get k d with Some _ => true | None => false end.

(** [d[k] = v]: an existing key keeps its place, a new key goes last. *)
Fixpoint dict_set (k : string) (v : V) (d : dict V) : dict V :=
  match d with
  | [] => [(k, v)]
  | (k', v') :: d' =>
      if decide (k = k') then (k, v) :: d' else (k', v') :: dict_set k v d'
  end.

(** [del d[k]] (the caller checks [k in d]). *)
Fixpoint dict_del (k : string) (d : dict V) : dict V :=
  match d with
  | [] => []
  | (k', v') :: d' =>
      if decide (k = k') then d' else (k', v') :: dict_del k d'
  end.

Definition dict_keys (d : dict V) : list string := map fst d.
End dict.

(** ** Data model *)

(** The values of the key ["status"]. *)
Inductive Status :=
| pending | approved | denied | early_return | completed | cancelled.

Global Instance Status_eq_dec : EqDecision Status.
Proof. solve_decision. Defined.

(** Values stored under the keys a request receives after its creation
    (["reminder_sent"], ["early_return_at"], ["early_return_by"],
    ["auto_closed"], ["auto_closed_at"], ["force_recalled"],
    ["force_recalled_by"], ["force_recalled_at"]). *)
Inductive Value :=
| VBool (b : bool)
| VInt (z : Z)
| VTime (t : datetime).

(** Truth value of [data.get(key)]. *)
Definition truthy (v : option Value) : bool :=
  match v with
  | None => false
  | Some (VBool b) => b
  | Some (VInt z) => negb (z =? 0)
  | Some (VTime _) => true
  end.

(** The request dictionary built by [VacationReasonModal.callback]; dates
    are kept as datetimes ([fromisoformat] undoes [isoformat]). *)
Record Request := mk_request {
  request_id : string;
  user_id : Z;
  start_date : datetime;
  end_date : datetime;
  duration_days : Z;
  reason : string;
  contact : string;
  status : Status;
  created_at : datetime;
  reviewed_by : option Z;
  reviewed_at : option datetime;
  review_comment : option string;
  deny_reason : option string;
  auto_close_at : datetime;
  saved_roles : list Z;
  extra : dict Value
}.

(** [data["status"] = v] *)
Definition set_status (v : Status) (d : Request) : Request :=
  {| request_id := request_id d; user_id := user_id d;
     start_date := start_date d; end_date := end_date d;
     duration_days := duration_days d; reason := reason d;
     contact := contact d; status := v; created_at := created_at d;
     reviewed_by := reviewed_by d; reviewed_at := reviewed_at d;
     review_comment := review_comment d; deny_reason := deny_reason d;
     auto_close_at := auto_close_at d; saved_roles := saved_roles d;
     extra := extra d |}.

(** [data["reviewed_by"] = v] *)
Definition set_reviewed_by (v : option Z) (d : Request) : Request :=
  {| request_id := request_id d; user_id := user_id d;
     start_date := start_date d; end_date := end_date d;
     duration_days := duration_days d; reason := reason d;
     contact := contact d; status := status d; created_at := created_at d;
     reviewed_by := v; reviewed_at := reviewed_at d;
     review_comment := review_comment d; deny_reason := deny_reason d;
     auto_close_at := auto_close_at d; saved_roles := saved_roles d;
     extra := extra d |}.

(** [data["reviewed_at"] = v] *)
Definition set_reviewed_at (v : option datetime) (d : Request) : Request :=
  {| request_id := request_id d; user_id := user_id d;
     start_date := start_date d; end_date := end_date d;
     duration_days := duration_days d; reason := reason d;
     contact := contact d; status := status d; created_at := created_at d;
     reviewed_by := reviewed_by d; reviewed_at := v;
     review_comment := review_comment d; deny_reason := deny_reason d;
     auto_close_at := auto_close_at d; saved_roles := saved_roles d;
     extra := extra d |}.

(** [data["review_comment"] = v] *)
Definition set_review_comment (v : option string) (d : Request) : Request :=
  {| request_id := request_id d; user_id := user_id d;
     start_date := start_date d; end_date := end_date d;
     duration_days := duration_days d; reason := reason d;
     contact := contact d; status := status d; created_at := created_at d;
     reviewed_by := reviewed_by d; reviewed_at := reviewed_at d;
     review_comment := v; deny_reason := deny_reason d;
     auto_close_at := auto_close_at d; saved_roles := saved_roles d;
     extra := extra d |}.

(** [data["deny_reason"] = v] *)
Definition set_deny_reason (v : option string) (d : Request) : Request :=
  {| request_id := request_id d; user_id := user_id d;
     start_date := start_date d; end_date := end_date d;
     duration_days := duration_days d; reason := reason d;
     contact := contact d; status := status d; created_at := created_at d;
     reviewed_by := reviewed_by d; reviewed_at := reviewed_at d;
     review_comment := review_comment d; deny_reason := v;
     auto_close_at := auto_close_at d; saved_roles := saved_roles d;
     extra := extra d |}.

(** [data["saved_roles"] = v] *)
Definition set_saved_roles (v : list Z) (d : Request) : Request :=
  {| request_id := request_id d; user_id := user_id d;
     start_date := start_date d; end_date := end_date d;
     duration_days := duration_days d; reason := reason d;
     contact := contact d; status := status d; created_at := created_at d;
     reviewed_by := reviewed_by d; reviewed_at := reviewed_at d;
     review_comment := review_comment d; deny_reason := deny_reason d;
     auto_close_at := auto_close_at d; saved_roles := v; extra := extra d |}.

Definition set_extra (v : dict Value) (d : Request) : Request :=
  {| request_id := request_id d; user_id := user_id d;
     start_date := start_date d; end_date := end_date d;
     duration_days := duration_days d; reason := reason d;
     contact := contact d; status := status d; created_at := created_at d;
     reviewed_by := reviewed_by d; reviewed_at := reviewed_at d;
     review_comment := review_comment d; deny_reason := deny_reason d;
     auto_close_at := auto_close_at d; saved_roles := saved_roles d;
     extra := v |}.

(** A server configuration, a copy of [vacation_config["default"]]. *)
Record Config := mk_config {
  vacation_role_id : option Z;
  review_channel_id : option Z;
  list_channel_id : option Z;
  log_channel_id : option Z;
  allowed_roles : list Z;
  banned_roles : list Z;
  min_rank_roles : list Z;
  max_vacations_per_month : Z;
  auto_close_hours : Z
}.

(** The literal default of the module. *)
Definition default_config : Config :=
  {| vacation_role_id := None; review_channel_id := None;
     list_channel_id := None; log_channel_id := None;
     allowed_roles := []; banned_roles := []; min_rank_roles := [];
     max_vacations_per_month := 1; auto_close_hours := 24 |}.

(** Truth value of an optional id ([None] and [0] are false). *)
Definition truthy_id (o : option Z) : bool :=
  match o with Some z => negb (z =? 0) | None => false end.

(** [int(x)] for an id that passed [truthy_id]. *)
Definition int_of_id (o : option Z) : Z := default 0 o.

(** One month bucket of the usage ledger [vacation_stats]. *)
Record MonthStats := mk_stats {
  count : Z;
  total_days : Z;
  last_vacation : option datetime
}.

(** *** Discord *)

Record Role := mk_role { role_id : Z; managed : bool }.

Record Member := mk_member { member_id : Z; roles : list Role }.

Record Guild := mk_guild {
  guild_id : Z;
  guild_roles : list Role;
  members : list Member;
  text_channels : list Z
}.

(** A role change that went through, with the [reason] given to the API. *)
Record AuditEntry := mk_audit {
  audit_reason : string;
  audit_guild : Z;
  audit_member : Z;
  audit_added : list Z;
  audit_removed : list Z
}.

(** The part of the state owned by Discord: the guilds of the bot, the
    outcome of the coming API calls ([true]: the call raises) and the audit
    log. *)
Record Discord := mk_discord {
  guilds : list Guild;
  api_failures : list bool;
  audit_log : list AuditEntry
}.

Record Interaction := mk_inter {
  author : Member;
  inter_guild_id : Z
}.

(** A reference to a request dictionary. *)
Abbreviation loc := nat (only parsing).

(** [VacationSelectView]: the pairs [(req_id, data)] it was built with. *)
Record VacationSelectView := mk_view {
  vacations : list (string * loc);
  action : string
}.

(** The state of the running process and of its surroundings. *)
Record World := mk_world {
  clock : datetime;                       (* what [datetime.now(MSK)] reads *)
  heap : list Request;                    (* the request dictionaries *)
  vacation_requests : dict loc;
  vacation_data : dict loc;
  vacation_stats : gmap string (gmap string MonthStats);
  vacation_config : gmap string Config;   (* the entries of the servers *)
  vacation_config_default : Config;       (* the entry ["default"] *)
  views : list VacationSelectView;
  discord : Discord
}.

Definition set_guilds (v : list Guild) (x : Discord) : Discord :=
  {| guilds := v; api_failures := api_failures x; audit_log := audit_log x |}.

Definition set_api_failures (v : list bool) (x : Discord) : Discord :=
  {| guilds := guilds x; api_failures := v; audit_log := audit_log x |}.

Definition set_audit_log (v : list AuditEntry) (x : Discord) : Discord :=
  {| guilds := guilds x; api_failures := api_failures x; audit_log := v |}.
Definition set_clock (v : datetime) (w : World) : World :=
  {| clock := v; heap := heap w; vacation_requests := vacation_requests w;
     vacation_data := vacation_data w; vacation_stats := vacation_stats w;
     vacation_config := vacation_config w;
     vacation_config_default := vacation_config_default w;
     views := views w; discord := discord w |}.

Definition set_heap (v : list Request) (w : World) : World :=
  {| clock := clock w; heap := v;
     vacation_requests := vacation_requests w;
     vacation_data := vacation_data w; vacation_stats := vacation_stats w;
     vacation_config := vacation_config w;
     vacation_config_default := vacation_config_default w;
     views := views w; discord := discord w |}.

Definition set_vacation_requests (v : dict loc) (w : World) : World :=
  {| clock := clock w; heap := heap w; vacation_requests := v;
     vacation_data := vacation_data w; vacation_stats := vacation_stats w;
     vacation_config := vacation_config w;
     vacation_config_default := vacation_config_default w;
     views := views w; discord := discord w |}.

Definition set_vacation_data (v : dict loc) (w : World) : World :=
  {| clock := clock w; heap := heap w;
     vacation_requests := vacation_requests w; vacation_data := v;
     vacation_stats := vacation_stats w;
     vacation_config := vacation_config w;
     vacation_config_default := vacation_config_default w;
     views := views w; discord := discord w |}.

Definition set_vacation_stats (v : gmap string (gmap string MonthStats)) (w : World) : World :=
  {| clock := clock w; heap := heap w;
     vacation_requests := vacation_requests w;
     vacation_data := vacation_data w; vacation_stats := v;
     vacation_config := vacation_config w;
     vacation_config_default := vacation_config_default w;
     views := views w; discord := discord w |}.

Definition set_vacation_config (v : gmap string Config) (w : World) : World :=
  {| clock := clock w; heap := heap w;
     vacation_requests := vacation_requests w;
     vacation_data := vacation_data w; vacation_stats := vacation_stats w;
     vacation_config := v;
     vacation_config_default := vacation_config_default w;
     views := views w; discord := discord w |}.

Definition set_views (v : list VacationSelectView) (w : World) : World :=
  {| clock := clock w; heap := heap w;
     vacation_requests := vacation_requests w;
     vacation_data := vacation_data w; vacation_stats := vacation_stats w;
     vacation_config := vacation_config w;
     vacation_config_default := vacation_config_default w; views := v;
     discord := discord w |}.

Definition set_discord (v : Discord) (w : World) : World :=
  {| clock := clock w; heap := heap w;
     vacation_requests := vacation_requests w;
     vacation_data := vacation_data w; vacation_stats := vacation_stats w;
     vacation_config := vacation_config w;
     vacation_config_default := vacation_config_default w;
     views := views w; discord := v |}.

(** ** The monad of the coroutines: state and exceptions *)

Inductive Exn :=
| HTTPException     (* a Discord API call failed *)
| TypeError         (* [None[:100]] *)
| AttributeError.   (* [inter.guild] is [None] *)

Inductive Outcome (A : Type) :=
| Ok (a : A)
| Raise (e : Exn).
Arguments Ok {A} a.
Arguments Raise {A} e.

Definition M (A : Type) : Type := World → Outcome A * World.

Definition ret {A} (a : A) : M A := λ w, (Ok a, w).

Definition bind {A B} (m : M A) (k : A → M B) : M B :=
  λ w, match m w with
       | (Ok a, w') => k a w'
       | (Raise e, w') => (Raise e, w')
       end.

Definition raise {A} (e : Exn) : M A := λ w, (Raise e, w).

(** [try: m  except Exception: handler] *)
Definition try_except {A} (m : M A) (handler : M A) : M A :=
  λ w, match m w with
       | (Ok a, w') => (Ok a, w')
       | (Raise _, w') => handler w'
       end.

Definition gets {A} (f : World → A) : M A := λ w, (Ok (f w), w).
Definition modify (f : World → World) : M unit := λ w, (Ok tt, f w).

Global Instance M_ret : MRet M := @ret.
Global Instance M_bind : MBind M := λ A B k m, bind m k.

(** [for x in l: body(x)]; an exception leaves the loop. *)
Fixpoint for_each {A} (l : list A) (body : A → M unit) : M unit :=
  match l with
  | [] => ret tt
  | x :: l' => body x;; for_each l' body
  end.

(** The world an operation leaves behind, whether it returned or raised. *)
Definition exec {A} (m : M A) (w : World) : World := snd (m w).
Definition result {A} (m : M A) (w : World) : Outcome A := fst (m w).

(** *** Request objects *)

(** What a reference outside the heap would read; the program holds no
    such reference (see [store_inv] below). *)
Definition null_request : Request :=
  let epoch := mk_datetime (mk_date 1 1 1) 0 0 0 0 in
  {| request_id := ""; user_id := 0; start_date := epoch; end_date := epoch;
     duration_days := 0; reason := ""; contact := ""; status := pending;
     created_at := epoch; reviewed_by := None; reviewed_at := None;
     review_comment := None; deny_reason := None; auto_close_at := epoch;
     saved_roles := []; extra := [] |}.

Definition deref (w : World) (data : loc) : Request :=
  default null_request (heap w !! data).

(** Reading the dictionary behind [data]. *)
Definition read (data : loc) : M Request := gets (λ w, deref w data).

(** In-place update of the dictionary behind [data]. *)
Definition update (data : loc) (f : Request → Request) : M unit :=
  modify (λ w, set_heap (alter f data (heap w)) w).

(** A new dictionary. *)
Definition alloc (d : Request) : M loc :=
  λ w, (Ok (length (heap w)), set_heap (heap w ++ [d]) w).

(** [data[key] = v] for a key outside the creation literal. *)
Definition set_key (key : string) (v : Value) (d : Request) : Request :=
  set_extra (dict_set key v (extra d)) d.

(** ** Utility functions *)

(** [get_month_key(date=None)] *)
Definition get_month_key (date : option datetime) : M string :=
  match date with
  | None => now ← gets clock; mret (strftime_Ym now)
  | Some d => mret (strftime_Ym d)
  end.

(** [get_config(guild_id)] *)
Definition get_config (guild_id : Z) : M Config :=
  let guild_id_str := pretty guild_id in
  cfgs ← gets vacation_config;
  match cfgs !! guild_id_str with
  | Some config => mret config
  | None =>
      dflt ← gets vacation_config_default;
      modify (set_vacation_config (<[guild_id_str := dflt]> cfgs));;
      mret dflt
  end.

(** [update_config(guild_id, kwargs)] *)
Definition update_config (guild_id : Z) (kwargs : Config → Config) : M unit :=
  config ← get_config guild_id;
  cfgs ← gets vacation_config;
  modify (set_vacation_config (<[pretty guild_id := kwargs config]> cfgs)).

(** [any(role.id in ids for role in member.roles)] *)
Definition any_role_in (ids : list Z) (member : Member) : bool :=
  existsb (λ role, bool_decide (role_id role ∈ ids)) (roles member).

(** [can_vote(member, guild_id)] *)
Definition can_vote (member : Member) (guild_id : Z) : M bool :=
  config ← get_config guild_id;
  mret (any_role_in (allowed_roles config) member).

Definition MSG_BANNED : string :=
  "**`!` Ваша должность не позволяет брать отпуск.**".
Definition MSG_RANK : string :=
  "**`!` Недостаточно высокий ранг для отпуска.**".
Definition MSG_LIMIT (max_per_month : Z) : string :=
  "**`!` Лимит отпусков на этот месяц исчерпан (" +:+ pretty max_per_month
  +:+ ").**".

(** [vacation_stats.get(user_id, {}).get(month_key, {}).get("count", 0)] *)
Definition month_count (w : World) (user_id_str month_key : string) : Z :=
  let user_stats := default ∅ (vacation_stats w !! user_id_str) in
  from_option count 0 (user_stats !! month_key).

(** [can_take_vacation(member, guild_id)] *)
Definition can_take_vacation (member : Member) (guild_id : Z)
  : M (bool * string) :=
  config ← get_config guild_id;
  if any_role_in (banned_roles config) member then mret (false, MSG_BANNED)
  else
    let min_rank := min_rank_roles config in
    if negb (bool_decide (min_rank = [])) && negb (any_role_in min_rank member)
    then mret (false, MSG_RANK)
    else
      let user_id := pretty (member_id member) in
      month_key ← get_month_key None;
      vacations_taken ← gets (λ w, month_count w user_id month_key);
      let max_per_month := max_vacations_per_month config in
      if max_per_month <=? vacations_taken
      then mret (false, MSG_LIMIT max_per_month)
      else mret (true, "").

(** [update_vacation_stats(user_id, duration_days, action)] *)
Definition update_vacation_stats (user_id : Z) (duration_days : Z)
    (action : string) : M unit :=
  let user_id_str := pretty user_id in
  month_key ← get_month_key None;
  now ← gets clock;
  stats ← gets vacation_stats;
  let user_stats := default ∅ (stats !! user_id_str) in
  let month_stats :=
    default {| count := 0; total_days := 0; last_vacation := None |}
            (user_stats !! month_key) in
  let month_stats' :=
    if decide (action = "taken") then
      {| count := count month_stats + 1;
         total_days := total_days month_stats + duration_days;
         last_vacation := Some now |}
    else if decide (action = "cancelled") then
      {| count := if 0 <? count month_stats
                  then count month_stats - 1 else count month_stats;
         total_days := if duration_days <=? total_days month_stats
                       then total_days month_stats - duration_days
                       else total_days month_stats;
         last_vacation := last_vacation month_stats |}
    else month_stats in
  modify (set_vacation_stats
            (<[user_id_str := <[month_key := month_stats']> user_stats]> stats)).

(** ** Discord: guilds, members, role edits *)

Definition find_guild (w : World) (gid : Z) : option Guild :=
  find (λ g, guild_id g =? gid) (guilds (discord w)).

(** The guild object of an interaction or of [bot.guilds]; [inter.guild] is
    [None] outside the guilds of the bot and its attributes then raise. *)
Definition the_guild (gid : Z) : M Guild :=
  g ← gets (λ w, find_guild w gid);
  match g with
  | Some g => mret g
  | None => raise AttributeError
  end.

(** [guild.get_member(user_id)] *)
Definition get_member (g : Guild) (uid : Z) : option Member :=
  find (λ m, member_id m =? uid) (members g).

(** [guild.get_role(role_id)] *)
Definition get_role (g : Guild) (rid : Z) : option Role :=
  find (λ r, role_id r =? rid) (guild_roles g).

(** [role in member.roles] *)
Definition has_role (role : Role) (m : Member) : bool :=
  existsb (λ r, role_id r =? role_id role) (roles m).

(** One awaited API call: it consumes the next announced outcome. *)
Definition api_call : M unit :=
  λ w, match api_failures (discord w) with
       | [] => (Ok tt, w)
       | fails :: rest =>
           let w' := set_discord (set_api_failures rest (discord w)) w in
           if fails : bool then (Raise HTTPException, w') else (Ok tt, w')
       end.

(** The member [uid] of the guild [gid] gets the roles [f roles]. *)
Definition edit_guild (gid uid : Z) (f : list Role → list Role) (g : Guild)
  : Guild :=
  if guild_id g =? gid
  then {| guild_id := guild_id g; guild_roles := guild_roles g;
          members :=
            map (λ m, if member_id m =? uid
                      then {| member_id := member_id m; roles := f (roles m) |}
                      else m) (members g);
          text_channels := text_channels g |}
  else g.

Definition edit_roles (gid uid : Z) (f : list Role → list Role)
    (x : Discord) : Discord :=
  set_guilds (map (edit_guild gid uid f) (guilds x)) x.

Definition log_audit (e : AuditEntry) (x : Discord) : Discord :=
  set_audit_log (audit_log x ++ [e]) x.

(** [await user.add_roles] with the given roles and [reason]; the member
    object shows the change at once. *)
Definition add_roles (gid uid : Z) (new_roles : list Role) (reason : string)
  : M unit :=
  api_call;;
  modify (λ w,
    set_discord
      (log_audit (mk_audit reason gid uid (map role_id new_roles) [])
         (edit_roles gid uid
            (λ rs, rs ++ List.filter
                           (λ r, negb (existsb (λ r', role_id r' =? role_id r) rs))
                           new_roles)
            (discord w))) w).

(** [await user.remove_roles(role, reason=reason)] *)
Definition remove_roles (gid uid : Z) (role : Role) (reason : string)
  : M unit :=
  api_call;;
  modify (λ w,
    set_discord
      (log_audit (mk_audit reason gid uid [] [role_id role])
         (edit_roles gid uid
            (List.filter (λ r, negb (role_id r =? role_id role)))
            (discord w))) w).

(** [update_vacation_lists(guild)]: it reads the configuration; the rest is
    rendering inside [try]. *)
Definition update_vacation_lists (gid : Z) : M unit :=
  g ← the_guild gid;
  _ ← get_config (guild_id g);
  mret tt.

(** [send_vacation_log(guild, action, user, moderator, data)].  The embed
    is built outside any [try]: with a log channel that is a text channel,
    [data['deny_reason'][:100]] is evaluated, the key being present in every
    request. *)
Definition send_vacation_log (gid : Z) (action : string) (data : Request)
  : M unit :=
  g ← the_guild gid;
  config ← get_config (guild_id g);
  if negb (truthy_id (log_channel_id config)) then mret tt
  else if negb (bool_decide (int_of_id (log_channel_id config) ∈ text_channels g))
  then mret tt
  else match deny_reason data with
       | None => raise TypeError
       | Some _ => mret tt
       end.

Definition REASON_START : string := "Начало отпуска".
Definition REASON_END : string := "Окончание отпуска".
Definition REASON_EARLY : string := "Досрочный выход из отпуска".
Definition REASON_RESTORE : string := "Восстановление ролей после отпуска".

(** "Снимаем роль отпуска" (lines 1297-1303 and 1550-1556). *)
Definition remove_vacation_role (gid : Z) (vacation_role_id : option Z)
    (uid : Z) (reason : string) : M unit :=
  g ← the_guild gid;
  match get_member g uid with
  | Some user =>
      if truthy_id vacation_role_id then
        try_except
          (match get_role g (int_of_id vacation_role_id) with
           | Some vacation_role =>
               if has_role vacation_role user
               then remove_roles gid uid vacation_role reason
               else mret tt
           | None => mret tt
           end)
          (mret tt)
      else mret tt
  | None => mret tt
  end.

(** "Восстанавливаем сохраненные роли" (lines 1306-1318 and 1559-1571). *)
Definition restore_saved_roles (gid : Z) (data : loc) (uid : Z) : M unit :=
  d ← read data;
  g ← the_guild gid;
  match get_member g uid with
  | Some user =>
      if negb (bool_decide (saved_roles d = [])) then
        let roles_to_add :=
          List.filter (λ role, negb (has_role role user))
                      (omap (get_role g) (saved_roles d)) in
        if negb (bool_decide (roles_to_add = [])) then
          try_except (add_roles gid uid roles_to_add REASON_RESTORE) (mret tt)
        else mret tt
      else mret tt
  | None => mret tt
  end.

(** ** The lifecycle operations

    An operation returns the ephemeral messages it sent (for the
    confirmations, their first line). *)

Definition store_request (request_id : string) (data : loc) : M unit :=
  modify (λ w, set_vacation_requests
                 (dict_set request_id data (vacation_requests w)) w).

Definition store_vacation (request_id : string) (data : loc) : M unit :=
  modify (λ w, set_vacation_data
                 (dict_set request_id data (vacation_data w)) w).

(** [if request_id in vacation_data: del vacation_data[request_id]] *)
Definition drop_vacation (request_id : string) : M unit :=
  modify (λ w, set_vacation_data
                 (if dict_mem request_id (vacation_data w)
                  then dict_del request_id (vacation_data w)
                  else vacation_data w) w).

(** *** Submission *)

Record VacationReasonModal := mk_modal {
  modal_start_date : datetime;
  modal_duration : Z;
  modal_end_date : datetime
}.

(** [VacationStartDateModal.select_duration] *)
Definition select_duration (start_date : datetime) (duration : Z)
  : VacationReasonModal :=
  {| modal_start_date := start_date; modal_duration := duration;
     modal_end_date := datetime_add start_date (timedelta_days duration) |}.

(** What [VacationStartDateModal.callback] answers with: one of its two
    error messages, or the three duration buttons, each with the modal
    [select_duration] opens for it. *)
Inductive StartDateReply :=
| BadFormat                       (* "Неверный формат даты" *)
| TooEarly (tomorrow : date)      (* "не раньше завтра (tomorrow)" *)
| AskDuration (start_date : datetime) (buttons : list VacationReasonModal).

(** The [durations] of the callback. *)
Definition durations : list Z := [3; 7; 14].

(** [VacationStartDateModal.callback]; [parsed] is what [parse_date] made
    of the text of the form, a midnight of the zone [MSK] or [None]. *)
Definition VacationStartDateModal_callback (parsed : option datetime)
  : M StartDateReply :=
  match parsed with
  | None => mret BadFormat
  | Some start_date =>
      now ← gets clock;
      let tomorrow := date_add_days (date_of now) 1 in
      if date_ltb (date_of start_date) tomorrow then mret (TooEarly tomorrow)
      else mret (AskDuration start_date
                   (map (select_duration start_date) durations))
  end.

(** [f"{inter.author.id}_{int(datetime.now(MSK).timestamp())}"] *)
Definition make_request_id (author_id : Z) (now : datetime) : string :=
  pretty author_id +:+ "_" +:+ pretty (timestamp_int now).

(** What happened to the message of the request in the review thread,
    which the model does not compute. *)
Inductive Delivery := NoMenu | NoThread | SendFailed | Sent.

(** [VacationReasonModal.callback] *)
Definition VacationReasonModal_callback (self : VacationReasonModal)
    (inter : Interaction) (reason contact : string) (delivery : Delivery)
  : M (list string) :=
  now ← gets clock;
  let request_id := make_request_id (member_id (author inter)) now in
  config ← get_config (inter_guild_id inter);
  let request_data :=
    {| request_id := request_id;
       user_id := member_id (author inter);
       start_date := modal_start_date self;
       end_date := modal_end_date self;
       duration_days := modal_duration self;
       reason := reason;
       contact := contact;
       status := pending;
       created_at := now;
       reviewed_by := None;
       reviewed_at := None;
       review_comment := None;
       deny_reason := None;
       auto_close_at := datetime_add now (timedelta_hours (auto_close_hours config));
       saved_roles := [];
       extra := [] |} in
  data ← alloc request_data;
  store_request request_id data;;
  g ← the_guild (inter_guild_id inter);
  _ ← get_config (guild_id g);
  match delivery with
  | NoMenu =>
      mret ["**❌ Меню отпусков не настроено. Обратитесь к администратору.**"]
  | NoThread => mret ["**❌ Не удалось найти ветку для заявок.**"]
  | SendFailed => mret ["**❌ Ошибка отправки заявки. Попробуйте позже.**"]
  | Sent =>
      store_request request_id data;;
      d ← read data;
      send_vacation_log (inter_guild_id inter) "apply" d;;
      mret ["**✅ Заявка на отпуск подана!**"]
  end.

(** [VacationMainMenu.apply_vacation]: the reply when the member is turned
    away, nothing when the date form is shown. *)
Definition apply_vacation (inter : Interaction) : M (list string) :=
  '(can_take, reason) ← can_take_vacation (author inter) (inter_guild_id inter);
  if can_take : bool then mret [] else mret [reason].

(** *** Review *)

Definition MSG_NOT_FOUND : string := "**❌ Заявка не найдена.**".
Definition MSG_ALREADY_REVIEWED : string := "**❌ Заявка уже рассмотрена.**".

(** [approve_vacation(inter, request_id, comment)] *)
Definition approve_vacation (inter : Interaction) (request_id : string)
    (comment : string) : M (list string) :=
  reqs ← gets vacation_requests;
  match dict_get request_id reqs with
  | None => mret [MSG_NOT_FOUND]
  | Some data =>
      d ← read data;
      if negb (bool_decide (status d = pending)) then mret [MSG_ALREADY_REVIEWED]
      else
        now ← gets clock;
        update data (set_status approved);;
        update data (set_reviewed_by (Some (member_id (author inter))));;
        update data (set_reviewed_at (Some now));;
        update data (set_review_comment (Some comment));;
        d ← read data;
        update_vacation_stats (user_id d) (duration_days d) "taken";;
        store_vacation request_id data;;
        _ ← the_guild (inter_guild_id inter);
        update_vacation_lists (inter_guild_id inter);;
        d ← read data;
        send_vacation_log (inter_guild_id inter) "approve" d;;
        mret ["**✅ Отпуск одобрен!**"]
  end.

(** [deny_vacation(inter, request_id, reason)] *)
Definition deny_vacation (inter : Interaction) (request_id : string)
    (reason : string) : M (list string) :=
  reqs ← gets vacation_requests;
  match dict_get request_id reqs with
  | None => mret [MSG_NOT_FOUND]
  | Some data =>
      d ← read data;
      if negb (bool_decide (status d = pending)) then mret [MSG_ALREADY_REVIEWED]
      else
        now ← gets clock;
        update data (set_status denied);;
        update data (set_reviewed_by (Some (member_id (author inter))));;
        update data (set_reviewed_at (Some now));;
        update data (set_deny_reason (Some reason));;
        _ ← the_guild (inter_guild_id inter);
        d ← read data;
        send_vacation_log (inter_guild_id inter) "deny"
                          (set_deny_reason (Some reason) d);;
        mret ["**❌ Отпуск отклонен!**"]
  end.

(** *** Early return *)

(** [early_return_vacation(inter, request_id, data)] *)
Definition early_return_vacation (inter : Interaction) (request_id : string)
    (data : loc) : M (list string) :=
  let gid := inter_guild_id inter in
  d ← read data;
  _ ← the_guild gid;
  config ← get_config gid;
  remove_vacation_role gid (vacation_role_id config) (user_id d) REASON_EARLY;;
  restore_saved_roles gid data (user_id d);;
  now ← gets clock;
  update data (set_status early_return);;
  update data (set_key "early_return_at" (VTime now));;
  update data (set_key "early_return_by" (VInt (member_id (author inter))));;
  let days_used := date_sub_days (date_of now) (date_of (start_date d)) in
  (if 0 <? days_used
   then update_vacation_stats (user_id d) (duration_days d - days_used)
                              "cancelled"
   else mret tt);;
  drop_vacation request_id;;
  store_request request_id data;;
  update_vacation_lists gid;;
  d' ← read data;
  send_vacation_log gid "early_return" d';;
  mret ["**✅ Отпуск досрочно завершен!**"].

(** The requests [return_from_vacation] offers to [uid]. *)
Definition user_vacations (w : World) (uid : Z) : list (string * loc) :=
  List.filter
    (λ '(req_id, data),
       (user_id (deref w data) =? uid)
       && bool_decide (status (deref w data) = approved))
    (vacation_data w).

(** [VacationMainMenu.return_from_vacation] *)
Definition return_from_vacation (inter : Interaction) : M (list string) :=
  found ← gets (λ w, user_vacations w (member_id (author inter)));
  match found with
  | [] => mret ["**❌ У вас нет активного отпуска.**"]
  | [(request_id, data)] => early_return_vacation inter request_id data
  | _ =>
      modify (λ w, set_views (views w ++ [mk_view found "return"]) w);;
      mret ["**⚠️ Выберите отпуск для досрочного завершения:**"]
  end.

(** [VacationSelectView.select_callback], [value] being
    [inter.data["values"][0]]. *)
Definition select_callback (self : VacationSelectView) (inter : Interaction)
    (value : string) : M (list string) :=
  match find (λ '(req_id, _), bool_decide (req_id = value)) (vacations self) with
  | None => mret ["❌ Отпуск не найден."]
  | Some (_, vacation) =>
      if decide (action self = "return")
      then early_return_vacation inter value vacation
      else mret []
  end.

Definition mention (m : Member) : string := "<@" +:+ pretty (member_id m) +:+ ">".

(** The first approved request of [uid] in [vacation_data]: the loop with
    [break] at the head of [vacation_force]. *)
Definition active_vacation (w : World) (uid : Z) : option (string * loc) :=
  find (λ '(req_id, data),
          (user_id (deref w data) =? uid)
          && bool_decide (status (deref w data) = approved))
       (vacation_data w).

(** [VacationAdmin.vacation_force] *)
Definition vacation_force (inter : Interaction) (действие : string)
    (пользователь : Member) : M (list string) :=
  found ← gets (λ w, active_vacation w (member_id пользователь));
  match found with
  | None =>
      mret ["**❌ У " +:+ mention пользователь +:+ " нет активного отпуска.**"]
  | Some (request_id, data) =>
      if decide (действие = "завершить") then
        sent ← early_return_vacation inter request_id data;
        mret (sent ++ ["**✅ Отпуск " +:+ mention пользователь
                       +:+ " принудительно завершен.**"])
      else if decide (действие = "отозвать") then
        d ← read data;
        now ← gets clock;
        if date_leb (date_of (start_date d)) (date_of now) then
          mret ["**❌ Нельзя отозвать начавшийся отпуск. Используйте 'завершить'.**"]
        else
          update data (set_status denied);;
          update data (set_key "force_recalled" (VBool true));;
          update data (set_key "force_recalled_by"
                               (VInt (member_id (author inter))));;
          update data (set_key "force_recalled_at" (VTime now));;
          store_request request_id data;;
          drop_vacation request_id;;
          update_vacation_stats (user_id d) (duration_days d) "cancelled";;
          update_vacation_lists (inter_guild_id inter);;
          d' ← read data;
          send_vacation_log (inter_guild_id inter) "force_recall" d';;
          mret ["**✅ Отпуск " +:+ mention пользователь +:+ " успешно отозван.**"]
      else mret []
  end.

(** ** The scheduler ([VacationTasks]) *)

(** "Начало отпуска (сегодня)": lines 1495-1543. *)
Definition check_vacations_start (gid : Z) (vacation_role_id : option Z)
    (request_id : string) (data : loc) : M unit :=
  d ← read data;
  g ← the_guild gid;
  match get_member g (user_id d) with
  | Some user =>
      if truthy_id vacation_role_id then
        try_except
          (match get_role g (int_of_id vacation_role_id) with
           | Some vacation_role =>
               if negb (has_role vacation_role user) then
                 let saved :=
                   map role_id
                       (List.filter
                          (λ role, negb (role_id role =? int_of_id vacation_role_id)
                                   && negb (managed role))
                          (roles user)) in
                 update data (set_saved_roles saved);;
                 add_roles gid (member_id user) [vacation_role] REASON_START;;
                 d' ← read data;
                 send_vacation_log gid "start" d';;
                 store_vacation request_id data
               else mret tt
           | None => mret tt
           end)
          (mret tt)
      else mret tt
  | None => mret tt
  end.

(** "Окончание отпуска (сегодня или в прошлом)": lines 1546-1609. *)
Definition check_vacations_end (gid : Z) (vacation_role_id : option Z)
    (request_id : string) (data : loc) : M unit :=
  d ← read data;
  remove_vacation_role gid vacation_role_id (user_id d) REASON_END;;
  restore_saved_roles gid data (user_id d);;
  update data (set_status completed);;
  drop_vacation request_id;;
  store_request request_id data;;
  d' ← read data;
  send_vacation_log gid "end" d'.

(** The body of the loop over [list(vacation_data.items())]. *)
Definition check_vacations_request (gid : Z) (config : Config)
    (now : datetime) (item : string * loc) : M unit :=
  let '(request_id, data) := item in
  d ← read data;
  if negb (bool_decide (status d = approved)) then mret tt
  else
    if date_eqb (date_of (start_date d)) (date_of now) then
      check_vacations_start gid (vacation_role_id config) request_id data
    else if date_leb (date_of (end_date d)) (date_of now) then
      check_vacations_end gid (vacation_role_id config) request_id data
    else mret tt.

(** The body of the loop over [self.bot.guilds]. *)
Definition check_vacations_guild (gid : Z) : M unit :=
  config ← get_config gid;
  now ← gets clock;
  items ← gets vacation_data;
  for_each items (check_vacations_request gid config now);;
  update_vacation_lists gid.

(** [VacationTasks.check_vacations] *)
Definition check_vacations : M unit :=
  gs ← gets (λ w, guilds (discord w));
  for_each (map guild_id gs) check_vacations_guild.

(** The body of the inner loop of [check_reminders]; [user.send] is the
    call whose failure leaves ["reminder_sent"] unset. *)
Definition check_reminders_request (gid : Z) (now : datetime)
    (item : string * loc) : M unit :=
  let '(request_id, data) := item in
  d ← read data;
  if negb (bool_decide (status d = approved)) then mret tt
  else
    let days_left := date_sub_days (date_of (end_date d)) (date_of now) in
    if (days_left =? 1) && negb (truthy (dict_get "reminder_sent" (extra d)))
    then
      g ← the_guild gid;
      match get_member g (user_id d) with
      | Some user =>
          try_except
            (api_call;;
             update data (set_key "reminder_sent" (VBool true));;
             store_vacation request_id data;;
             d' ← read data;
             send_vacation_log gid "reminder" d')
            (mret tt)
      | None => mret tt
      end
    else mret tt.

(** [VacationTasks.check_reminders] *)
Definition check_reminders : M unit :=
  now ← gets clock;
  gs ← gets (λ w, guilds (discord w));
  for_each (map guild_id gs)
    (λ gid, items ← gets vacation_data;
            for_each items (check_reminders_request gid now)).

(** The body of the inner loop of [check_auto_close]. *)
Definition check_auto_close_request (gid : Z) (auto_close_hours : Z)
    (now : datetime) (item : string * loc) : M unit :=
  let '(request_id, data) := item in
  d ← read data;
  if negb (bool_decide (status d = pending)) then mret tt
  else
    let auto_close_at :=
      datetime_add (created_at d) (timedelta_hours auto_close_hours) in
    if datetime_geb now auto_close_at then
      update data (set_status cancelled);;
      update data (set_key "auto_closed" (VBool true));;
      update data (set_key "auto_closed_at" (VTime now));;
      store_request request_id data;;
      d' ← read data;
      send_vacation_log gid "auto_close" d'
    else mret tt.

(** [VacationTasks.check_auto_close] *)
Definition check_auto_close : M unit :=
  now ← gets clock;
  gs ← gets (λ w, guilds (discord w));
  for_each (map guild_id gs)
    (λ gid, config ← get_config gid;
            items ← gets vacation_requests;
            for_each items
              (check_auto_close_request gid (auto_close_hours config) now)).

(** ** Reports, formatting and the review buttons *)

(** [format_duration(days)] *)
Definition format_duration (days : Z) : string :=
  if (days mod 10 =? 1) && negb (days mod 100 =? 11)
  then pretty days +:+ " день"
  else if (2 <=? days mod 10) && (days mod 10 <=? 4)
          && ((days mod 100 <? 10) || (20 <=? days mod 100))
  then pretty days +:+ " дня"
  else pretty days +:+ " дней".

(** The dictionary [get_user_stats] returns: ["total_vacations"],
    ["total_days"] and, under ["current_month"], ["count"] and ["days"]. *)
Record UserStats := mk_user_stats {
  stats_total_vacations : Z;
  stats_total_days : Z;
  stats_month_count : Z;
  stats_month_days : Z
}.

(** [sum(month.get(key, 0) for month in user_data.values())] *)
Definition sum_months (f : MonthStats → Z) (user_data : gmap string MonthStats)
  : Z :=
  map_fold (λ _ month acc, acc + f month) 0 user_data.

(** [get_user_stats(user_id)] *)
Definition get_user_stats (user_id : Z) : M UserStats :=
  let user_id_str := pretty user_id in
  stats ← gets vacation_stats;
  match stats !! user_id_str with
  | None =>
      mret {| stats_total_vacations := 0; stats_total_days := 0;
              stats_month_count := 0; stats_month_days := 0 |}
  | Some user_data =>
      let total_vacations := sum_months count user_data in
      let total_days_ := sum_months total_days user_data in
      month_key ← get_month_key None;
      let current_month := user_data !! month_key in
      mret {| stats_total_vacations := total_vacations;
              stats_total_days := total_days_;
              stats_month_count := from_option count 0 current_month;
              stats_month_days := from_option total_days 0 current_month |}
  end.

(** [VacationMainMenu.show_user_stats], and [vacation_stats_cmd] for one
    user: the figures of the embed, that is the statistics, [remaining] and
    [max_per_month]. *)
Definition show_user_stats (inter : Interaction) : M (UserStats * Z * Z) :=
  stats ← get_user_stats (member_id (author inter));
  g ← the_guild (inter_guild_id inter);
  config ← get_config (guild_id g);
  let max_per_month := max_vacations_per_month config in
  let remaining := max_per_month - stats_month_count stats in
  mret (stats, remaining, max_per_month).

(** What a button of [VacationReviewView] answers with: an ephemeral
    message, or the modal of the request. *)
Inductive ButtonReply :=
| Refused (message : string)
| ShowModal (request_id : string).

Definition MSG_NO_RIGHTS : string := "**❌ Недостаточно прав.**".

(** [VacationReviewView.approve_button] *)
Definition approve_button (self_request_id : string) (inter : Interaction)
  : M ButtonReply :=
  g ← the_guild (inter_guild_id inter);
  allowed ← can_vote (author inter) (guild_id g);
  if negb allowed then mret (Refused MSG_NO_RIGHTS)
  else mret (ShowModal self_request_id).

(** [VacationReviewView.deny_button] *)
Definition deny_button (self_request_id : string) (inter : Interaction)
  : M ButtonReply :=
  g ← the_guild (inter_guild_id inter);
  allowed ← can_vote (author inter) (guild_id g);
  if negb allowed then mret (Refused MSG_NO_RIGHTS)
  else mret (ShowModal self_request_id).

(** ** Runs of the process *)

Inductive Event :=
| Submit (inter : Interaction) (start_date : datetime) (duration : Z)
         (reason contact : string) (delivery : Delivery)
| Approve (inter : Interaction) (request_id comment : string)
| Deny (inter : Interaction) (request_id reason : string)
| Return (inter : Interaction)
| Select (view : nat) (inter : Interaction) (value : string)
| Force (inter : Interaction) (действие : string) (пользователь : Member)
| Configure (guild_id : Z) (kwargs : Config → Config)
| CheckVacations
| CheckReminders
| CheckAutoClose
| Surroundings (now : datetime) (x : Discord).   (* time passes, Discord changes *)

Definition discard {A} (m : M A) : M unit := _ ← m; mret tt.

Definition run_event (e : Event) : M unit :=
  match e with
  | Submit inter start_date duration reason contact delivery =>
      discard (VacationReasonModal_callback (select_duration start_date duration)
                 inter reason contact delivery)
  | Approve inter request_id comment =>
      discard (approve_vacation inter request_id comment)
  | Deny inter request_id reason =>
      discard (deny_vacation inter request_id reason)
  | Return inter => discard (return_from_vacation inter)
  | Select i inter value =>
      vs ← gets views;
      match vs !! i with
      | Some view => discard (select_callback view inter value)
      | None => mret tt
      end
  | Force inter действие пользователь =>
      discard (vacation_force inter действие пользователь)
  | Configure guild_id kwargs => update_config guild_id kwargs
  | CheckVacations => check_vacations
  | CheckReminders => check_reminders
  | CheckAutoClose => check_auto_close
  | Surroundings now x => modify (λ w, set_discord x (set_clock now w))
  end.

(** The world after a sequence of events; an event that raises leaves the
    world as it was when the exception left the coroutine. *)
Definition run (events : list Event) (w : World) : World :=
  foldl (λ w e, exec (run_event e) w) w events.

(** A process started on empty files. *)
Definition fresh_world (now : datetime) (x : Discord) : World :=
  {| clock := now; heap := []; vacation_requests := []; vacation_data := [];
     vacation_stats := ∅; vacation_config := ∅;
     vacation_config_default := default_config; views := []; discord := x |}.

(** ** Vocabulary of the statements *)

(** The bucket of the usage ledger kept for a user and a month key. *)
Definition ledger (w : World) (user_id_str month_key : string)
  : option MonthStats :=
  vacation_stats w !! user_id_str ≫= (.!! month_key).

(** Its counters, an absent bucket counting for zero. *)
Definition ledger_count (w : World) (uid : Z) (month_key : string) : Z :=
  from_option count 0 (ledger w (pretty uid) month_key).
Definition ledger_days (w : World) (uid : Z) (month_key : string) : Z :=
  from_option total_days 0 (ledger w (pretty uid) month_key).

(** The configuration [get_config] answers with. *)
Definition config_of (w : World) (gid : Z) : Config :=
  default (vacation_config_default w) (vacation_config w !! pretty gid).

(** The three grounds on which [can_take_vacation] turns a member away. *)
Definition holds_banned_role (member : Member) (config : Config) : Prop :=
  ∃ role, role ∈ roles member ∧ role_id role ∈ banned_roles config.

Definition below_minimum_rank (member : Member) (config : Config) : Prop :=
  min_rank_roles config ≠ []
  ∧ ¬ ∃ role, role ∈ roles member ∧ role_id role ∈ min_rank_roles config.

Definition quota_exhausted (w : World) (member : Member) (config : Config)
  : Prop :=
  max_vacations_per_month config
  ≤ ledger_count w (member_id member) (strftime_Ym (clock w)).

(** The review record of a request is absent. *)
Definition review_absent (d : Request) : Prop :=
  reviewed_by d = None ∧ reviewed_at d = None
  ∧ review_comment d = None ∧ deny_reason d = None.

(** A request that went through a review: it carries the reviewer, the
    time of the decision, and the comment of an approval or the reason of a
    refusal. *)
Definition decided (d : Request) : Prop :=
  is_Some (reviewed_by d) ∧ is_Some (reviewed_at d)
  ∧ status d ≠ pending ∧ status d ≠ cancelled
  ∧ (is_Some (review_comment d) ∨ is_Some (deny_reason d)).

(** Status and review record of one request agree. *)
Definition review_consistent (d : Request) : Prop :=
  (review_absent d ∧ (status d = pending ∨ status d = cancelled)) ∨ decided d.

(** The invariant of the stores: every request dictionary is consistent,
    the stores and the open select views hold references into the heap, and
    what [vacation_data] and the views refer to went through a review. *)
Record stores_ok (h : list Request) (requests data : dict loc)
    (vs : list VacationSelectView) : Prop := {
  inv_heap : Forall review_consistent h;
  inv_requests : ∀ rid l, (rid, l) ∈ requests → is_Some (h !! l);
  inv_data : ∀ rid l, (rid, l) ∈ data → ∃ d, h !! l = Some d ∧ decided d;
  inv_views :
    ∀ v rid l, v ∈ vs → (rid, l) ∈ vacations v →
      ∃ d, h !! l = Some d ∧ decided d
}.

Definition store_inv (w : World) : Prop :=
  stores_ok (heap w) (vacation_requests w) (vacation_data w) (views w).

(** Role grants of a vacation start, role removals of a vacation end. *)
Definition is_start_grant (e : AuditEntry) : bool :=
  bool_decide (audit_reason e = REASON_START).
Definition is_end_removal (e : AuditEntry) : bool :=
  bool_decide (audit_reason e = REASON_END).

(** The member [uid] of guild [gid] holds the role [rid]. *)
Definition holds_role (w : World) (gid uid rid : Z) : Prop :=
  ∃ g m, find_guild w gid = Some g ∧ get_member g uid = Some m
         ∧ existsb (λ r, role_id r =? rid) (roles m) = true.

(** Two worlds that differ at most in what Discord owns and in copies of the
    default entry added to the configuration table, the bot being in the
    same guilds. *)
Record same_stores (w w' : World) : Prop := {
  same_clock : clock w' = clock w;
  same_heap : heap w' = heap w;
  same_requests : vacation_requests w' = vacation_requests w;
  same_data : vacation_data w' = vacation_data w;
  same_stats : vacation_stats w' = vacation_stats w;
  same_views : views w' = views w;
  same_default : vacation_config_default w' = vacation_config_default w;
  same_config_of : ∀ gid, config_of w' gid = config_of w gid;
  same_guild_ids :
    map guild_id (guilds (discord w')) = map guild_id (guilds (discord w))
}.

(** The role changes logged between [w] and [w'] carry one of [reasons]. *)
Definition audit_only (reasons : list string) (w w' : World) : Prop :=
  ∃ es, audit_log (discord w') = audit_log (discord w) ++ es
        ∧ Forall (λ e, audit_reason e ∈ reasons) es.

Definition evolves (reasons : list string) (w w' : World) : Prop :=
  same_stores w w' ∧ audit_only reasons w w'.

(** Weakest precondition of a computation. *)
Definition wp {A} (m : M A) (Q : Outcome A → World → Prop) (w : World) : Prop :=
  Q (result m w) (exec m w).

(** ** A small server, for the concrete cases *)

Module Scenario.
Definition VACATION : Role := mk_role 900 false.
Definition STAFF : Role := mk_role 901 false.
Definition BOOSTER : Role := mk_role 902 true.
Definition TRAINEE : Role := mk_role 903 false.

Definition alice : Member := mk_member 100 [STAFF; BOOSTER].
Definition bob : Member := mk_member 200 [STAFF].
Definition carol : Member := mk_member 300 [TRAINEE].

Definition guild1 : Guild :=
  mk_guild 1 [VACATION; STAFF; BOOSTER; TRAINEE] [alice; bob; carol] [50].

(** Discord answers every call. *)
Definition discord_up : Discord := mk_discord [guild1] [] [].

(** What the commands of the administrators leave in the configuration:
    staff reviews, trainees are banned, one vacation a month. *)
Definition settings (_ : Config) : Config :=
  {| vacation_role_id := Some 900; review_channel_id := Some 51;
     list_channel_id := Some 52; log_channel_id := None;
     allowed_roles := [901]; banned_roles := [903]; min_rank_roles := [];
     max_vacations_per_month := 1; auto_close_hours := 24 |}.

Definition at_ (y m d h mi : Z) : datetime :=
  mk_datetime (mk_date y m d) h mi 0 0.

Definition as_alice : Interaction := mk_inter alice 1.
Definition as_bob : Interaction := mk_inter bob 1.
Definition as_carol : Interaction := mk_inter carol 1.

(** Alice asks on 10 January for seven days from 12 January. *)
Definition submitted : World :=
  run [Configure 1 settings;
       Submit as_alice (at_ 2024 1 12 0 0) 7 "family" "@alice" Sent]
      (fresh_world (at_ 2024 1 10 12 0) discord_up).

Definition alice_request : string := "100_1704877200".

(** Bob approves it the same day. *)
Definition approved_world : World :=
  run [Approve as_bob alice_request "ok"] submitted.

(** The scheduler runs shortly after midnight on 12 January. *)
Definition active_world : World :=
  run [Surroundings (at_ 2024 1 12 0 10) (discord approved_world);
       CheckVacations] approved_world.

(** The clock of a world moved to a later time. *)
Definition later (now : datetime) (w : World) : World :=
  exec (run_event (Surroundings now (discord w))) w.

(** The next call to the Discord API is going to fail. *)
Definition api_down (w : World) : World :=
  set_discord (set_api_failures [true] (discord w)) w.
End Scenario.

(** ** Vocabulary of the summaries of the operations *)

(** Roles held before a change that only adds roles are held after it. *)
Definition roles_grow (w w' : World) : Prop :=
  ∀ gid uid rid, holds_role w gid uid rid → holds_role w' gid uid rid.

(** [quiet m]: [m] changes at most the configuration table (by copies of
    the default entry). *)
Definition quiet {A} (m : M A) : Prop :=
  ∀ w (Q : Outcome A → World → Prop),
    (∀ r w', same_stores w w' → discord w' = discord w → Q r w') → wp m Q w.

(** What [approve_vacation] writes into a request (lines 1072-1075). *)
Definition approved_by (reviewer : Z) (now : datetime) (comment : string)
    (d : Request) : Request :=
  set_review_comment (Some comment)
    (set_reviewed_at (Some now)
       (set_reviewed_by (Some reviewer) (set_status approved d))).

(** What [deny_vacation] writes into a request (lines 1199-1202). *)
Definition denied_by (reviewer : Z) (now : datetime) (reason : string)
    (d : Request) : Request :=
  set_deny_reason (Some reason)
    (set_reviewed_at (Some now)
       (set_reviewed_by (Some reviewer) (set_status denied d))).

(** What [early_return_vacation] writes into a request (lines 1321-1323). *)
Definition returned_early (by_ : Z) (now : datetime) (d : Request) : Request :=
  set_key "early_return_by" (VInt by_)
    (set_key "early_return_at" (VTime now) (set_status early_return d)).


(** The character [c] occurs in [s]. *)
Fixpoint occurs (c : ascii) (s : string) : Prop :=
  match s with
  | EmptyString => False
  | String c' s' => c = c' ∨ occurs c s'
  end.

(** The dictionary a submission creates. *)
Definition new_request (self : VacationReasonModal) (inter : Interaction)
    (reason contact : string) (w : World) : Request :=
  {| request_id := make_request_id (member_id (author inter)) (clock w);
     user_id := member_id (author inter);
     start_date := modal_start_date self;
     end_date := modal_end_date self;
     duration_days := modal_duration self;
     reason := reason;
     contact := contact;
     status := pending;
     created_at := clock w;
     reviewed_by := None;
     reviewed_at := None;
     review_comment := None;
     deny_reason := None;
     auto_close_at :=
       datetime_add (clock w)
         (timedelta_hours
            (auto_close_hours (config_of w (inter_guild_id inter))));
     saved_roles := [];
     extra := [] |}.

(** What the start of a vacation may change. *)
Record started_effects (rid : string) (data : nat) (w w' : World) : Prop := {
  started_heap :
    heap w' = heap w
    ∨ ∃ saved, heap w' = alter (set_saved_roles saved) data (heap w);
  started_requests : vacation_requests w' = vacation_requests w;
  started_data :
    vacation_data w' = vacation_data w
    ∨ vacation_data w' = dict_set rid data (vacation_data w);
  started_clock : clock w' = clock w;
  started_stats : vacation_stats w' = vacation_stats w;
  started_views : views w' = views w;
  started_audit : audit_only [REASON_START] w w';
  started_guilds :
    map guild_id (guilds (discord w')) = map guild_id (guilds (discord w))
}.

(** What the end of a vacation changes. *)
Record ended_effects (rid : string) (data : nat) (w w' : World) : Prop := {
  ended_heap : heap w' = alter (set_status completed) data (heap w);
  ended_requests :
    vacation_requests w' = dict_set rid data (vacation_requests w);
  ended_data : vacation_data w' = dict_del rid (vacation_data w);
  ended_clock : clock w' = clock w;
  ended_stats : vacation_stats w' = vacation_stats w;
  ended_views : views w' = views w;
  ended_audit : audit_only [REASON_END; REASON_RESTORE] w w';
  ended_guilds :
    map guild_id (guilds (discord w')) = map guild_id (guilds (discord w))
}.

(** A change of a request that leaves its status and its review alone. *)
Definition keeps_review (f : Request → Request) : Prop :=
  ∀ d, status (f d) = status d ∧ reviewed_by (f d) = reviewed_by d
       ∧ reviewed_at (f d) = reviewed_at d
       ∧ review_comment (f d) = review_comment d
       ∧ deny_reason (f d) = deny_reason d.

(** [item] of [vacation_data] is an approved request of the member [uid]:
    what the loops of [return_from_vacation] and [vacation_force] test. *)
Definition approved_request_of (w : World) (uid : Z) (item : string * loc)
  : Prop :=
  user_id (deref w item.2) = uid ∧ status (deref w item.2) = approved.

(** A month and a day that exist in the year [y]. *)
Definition in_year (y m d : Z) : Prop :=
  1 ≤ m ≤ 12 ∧ 1 ≤ d ≤ _days_in_month y m.

(** The month and the day [_ord2ymd] finds for the day [r] of a year, the
    first day being 0. *)
Definition month_day (leapyear : bool) (r : Z) : Z * Z :=
  let m := Z.shiftr (r + 50) 5 in
  let preceding :=
    index _DAYS_BEFORE_MONTH m + (if (2 <? m) && leapyear then 1 else 0) in
  if r <? preceding then
    let m := m - 1 in
    let preceding :=
      preceding
      - (index _DAYS_IN_MONTH m + (if (m =? 2) && leapyear then 1 else 0)) in
    (m, r - preceding + 1)
  else (m, r - preceding + 1).

(** [month_day] answers with a day that exists, the [r]-th of the year. *)
Definition month_day_ok (leapyear : bool) (r : Z) : bool :=
  let '(m, d) := month_day leapyear r in
  (1 <=? m) && (m <=? 12) && (1 <=? d)
  && (d <=? (if (m =? 2) && leapyear then 29 else index _DAYS_IN_MONTH m))
  && (index _DAYS_BEFORE_MONTH m + (if (2 <? m) && leapyear then 1 else 0) + d
      =? r + 1).

(** The snapshot of the roles of [user] that the start of a vacation
    writes into ["saved_roles"] (lines 1501-1506). *)
Definition snapshot (vacation_role_id : option Z) (user : Member) : list Z :=
  map role_id
      (List.filter
         (λ role, negb (role_id role =? int_of_id vacation_role_id)
                  && negb (managed role))
         (roles user)).

(** The roles of a member after [add_roles] with [new_roles]. *)
Definition with_roles (new_roles : list Role) (rs : list Role) : list Role :=
  rs ++ List.filter (λ r, negb (existsb (λ r', role_id r' =? role_id r) rs))
                    new_roles.

(** The roles of a member after [remove_roles] with [role]. *)
Definition without (role : Role) (rs : list Role) : list Role :=
  List.filter (λ r, negb (role_id r =? role_id role)) rs.

(** The roles of a member who held [rs] after the roles of the snapshot
    [saved] that the guild has and they do not hold were given back
    (lines 1559-1571). *)
Definition restored (g : Guild) (saved : list Z) (rs : list Role) : list Role :=
  with_roles
    (List.filter (λ role, negb (existsb (λ r, role_id r =? role_id role) rs))
                 (omap (get_role g) saved))
    rs.




(** * Proofs *)

(** ** The monad *)

Section monad_rules.
Context {A B : Type}.
Implicit Types (Q : Outcome A → World → Prop) (w : World).

Lemma wp_ret (a : A) Q w : Q (Ok a) w → wp (mret a) Q w.
Proof. done. Qed.

Lemma wp_raise e Q w : Q (Raise e) w → wp (raise e) Q w.
Proof. done. Qed.

Lemma wp_gets (f : World → A) Q w : Q (Ok (f w)) w → wp (gets f) Q w.
Proof. done. Qed.

Lemma wp_bind (m : M B) (k : B → M A) Q w :
  wp m (λ r w', match r with
                | Ok b => wp (k b) Q w'
                | Raise e => Q (Raise e) w'
                end) w →
  wp (m ≫= k) Q w.
Proof.
  unfold wp, result, exec, mbind, M_bind, bind.
  by destruct (m w) as [[b|e] w'].
Qed.

Lemma wp_try_except (m handler : M A) Q w :
  wp m (λ r w', match r with
                | Ok a => Q (Ok a) w'
                | Raise _ => wp handler Q w'
                end) w →
  wp (try_except m handler) Q w.
Proof.
  unfold wp, result, exec, try_except.
  by destruct (m w) as [[a|e] w'].
Qed.

Lemma wp_mono (m : M A) Q Q' w :
  (∀ r w', Q r w' → Q' r w') → wp m Q w → wp m Q' w.
Proof. unfold wp. auto. Qed.
End monad_rules.

Lemma wp_modify (f : World → World) (Q : Outcome unit → World → Prop) w :
  Q (Ok tt) (f w) → wp (modify f) Q w.
Proof. done. Qed.

Lemma wp_read data (Q : Outcome Request → World → Prop) w :
  Q (Ok (deref w data)) w → wp (read data) Q w.
Proof. done. Qed.

Lemma wp_update data f (Q : Outcome unit → World → Prop) w :
  Q (Ok tt) (set_heap (alter f data (heap w)) w) → wp (update data f) Q w.
Proof. done. Qed.

Lemma wp_alloc d (Q : Outcome loc → World → Prop) w :
  Q (Ok (length (heap w))) (set_heap (heap w ++ [d]) w) → wp (alloc d) Q w.
Proof. done. Qed.

(** A loop keeps what each of its rounds keeps, also when a round raises. *)
Lemma wp_for_each {X} (I : World → Prop) (l : list X) (body : X → M unit) w :
  I w →
  (∀ x w0, x ∈ l → I w0 → wp (body x) (λ _ w', I w') w0) →
  wp (for_each l body) (λ _ w', I w') w.
Proof.
  revert w. induction l as [|x l IH]; intros w HI Hbody; simpl.
  - by apply wp_ret.
  - apply wp_bind. eapply wp_mono; [|apply (Hbody x w); [left|done]].
    intros [[]|e] w' HI'; simpl; [|done].
    apply IH; [done|]. intros y w0 Hy. apply Hbody. by right.
Qed.

Lemma wp_intro {A} (m : M A) (Q : Outcome A → World → Prop) w :
  Q (result m w) (exec m w) → wp m Q w.
Proof. done. Qed.

Lemma wp_exec {A} (m : M A) (P : World → Prop) w :
  wp m (λ _ w', P w') w → P (exec m w).
Proof. done. Qed.

Lemma wp_run {A} (m : M A) (P : Outcome A → World → Prop) w :
  wp m P w → P (result m w) (exec m w).
Proof. done. Qed.

Lemma wp_api_call (Q : Outcome unit → World → Prop) w :
  (∀ r w', clock w' = clock w → heap w' = heap w →
           vacation_requests w' = vacation_requests w →
           vacation_data w' = vacation_data w →
           vacation_stats w' = vacation_stats w →
           vacation_config w' = vacation_config w →
           vacation_config_default w' = vacation_config_default w →
           views w' = views w →
           guilds (discord w') = guilds (discord w) →
           audit_log (discord w') = audit_log (discord w) →
           api_failures (discord w') = tail (api_failures (discord w)) →
           r = (if default false (head (api_failures (discord w)))
                then Raise HTTPException else Ok tt) →
           Q r w') →
  wp api_call Q w.
Proof.
  intros HQ. unfold wp, result, exec, api_call.
  destruct (api_failures (discord w)) as [|[] rest] eqn:E; simpl;
    apply HQ; simpl; by rewrite ?E.
Qed.

Global Opaque wp.
Global Arguments edit_guild : simpl never.

Ltac wp_step :=
  lazymatch goal with
  | |- wp (mbind _ _) _ _ => apply wp_bind
  | |- wp (mret _) _ _ => apply wp_ret
  | |- wp (ret _) _ _ => apply wp_ret
  | |- wp (raise _) _ _ => apply wp_raise
  | |- wp (gets _) _ _ => apply wp_gets
  | |- wp (read _) _ _ => apply wp_read
  | |- wp (modify _) _ _ => apply wp_modify
  | |- wp (update _ _) _ _ => apply wp_update
  | |- wp (alloc _) _ _ => apply wp_alloc
  | |- wp (try_except _ _) _ _ => apply wp_try_except
  | |- wp (if ?b then _ else _) _ _ => destruct b eqn:?
  | |- wp (match ?x with _ => _ end) _ _ => destruct x eqn:?
  end.

Ltac wp_steps := repeat (wp_step; cbn beta iota).

(** Worlds in normal form: one record, its fields over the first world. *)
Ltac world_simpl :=
  unfold set_clock, set_heap, set_vacation_requests, set_vacation_data,
    set_vacation_stats, set_vacation_config, set_views, set_discord,
    set_guilds, set_api_failures, set_audit_log, log_audit;
  cbn [clock heap vacation_requests vacation_data vacation_stats
       vacation_config vacation_config_default views discord
       guilds api_failures audit_log].

Ltac world_simpl_all :=
  unfold set_clock, set_heap, set_vacation_requests, set_vacation_data,
    set_vacation_stats, set_vacation_config, set_views, set_discord,
    set_guilds, set_api_failures, set_audit_log, log_audit in *;
  cbn [clock heap vacation_requests vacation_data vacation_stats
       vacation_config vacation_config_default views discord
       guilds api_failures audit_log] in *.

Ltac wp_next := wp_step; world_simpl.

(** From a statement about [exec m w] to a weakest precondition, the
    postcondition being kept folded. *)
Ltac wp_of_exec :=
  lazymatch goal with
  | |- context [exec ?m ?w] =>
      pattern (exec m w); apply wp_exec;
      lazymatch goal with
      | |- wp _ ?Q _ => let Post := fresh "Post" in set (Post := Q)
      end
  end.

(** ** Worlds with the same stores *)

Lemma same_stores_refl w : same_stores w w.
Proof. by split. Qed.

Lemma same_stores_trans w1 w2 w3 :
  same_stores w1 w2 → same_stores w2 w3 → same_stores w1 w3.
Proof. intros [] []; split; congruence. Qed.

Lemma same_stores_deref w w' l : same_stores w w' → deref w' l = deref w l.
Proof. intros []. unfold deref. congruence. Qed.

Lemma same_stores_find_guild w w' gid :
  same_stores w w' → is_Some (find_guild w gid) → is_Some (find_guild w' gid).
Proof.
  intros [_ _ _ _ _ _ _ _ Hids]. unfold find_guild.
  generalize dependent (guilds (discord w')).
  induction (guilds (discord w)) as [|g gs IH]; intros [|g' gs'] Hids;
    simpl in *; try discriminate; [done|].
  injection Hids as Hid Hids. rewrite Hid.
  destruct (guild_id g =? gid); [by eauto|]. by apply IH.
Qed.

Lemma evolves_refl rs w : evolves rs w w.
Proof.
  split; [apply same_stores_refl|]. exists []. by rewrite app_nil_r.
Qed.

Lemma evolves_trans rs w1 w2 w3 :
  evolves rs w1 w2 → evolves rs w2 w3 → evolves rs w1 w3.
Proof.
  intros [H1 (es1 & E1 & F1)] [H2 (es2 & E2 & F2)]. split.
  - by eapply same_stores_trans.
  - exists (es1 ++ es2). rewrite E2, E1, app_assoc. split; [done|].
    by apply Forall_app.
Qed.

Lemma evolves_weaken rs rs' w w' :
  rs ⊆ rs' → evolves rs w w' → evolves rs' w w'.
Proof.
  intros Hsub [H (es & E & F)]. split; [done|]. exists es. split; [done|].
  eapply Forall_impl; [done|]. intros e He. by apply Hsub.
Qed.

Lemma evolves_quiet rs w w' :
  same_stores w w' → audit_log (discord w') = audit_log (discord w) →
  evolves rs w w'.
Proof.
  intros H E. split; [done|]. exists []. by rewrite E, app_nil_r.
Qed.

Lemma config_of_insert_default w (gid g : Z) :
  vacation_config w !! pretty gid = None →
  config_of (set_vacation_config
               (<[pretty gid := vacation_config_default w]> (vacation_config w))
               w) g
  = config_of w g.
Proof.
  intros Hnone. unfold config_of; simpl.
  destruct (decide (pretty gid = pretty g)) as [<-|Hne].
  - by rewrite lookup_insert_eq, Hnone.
  - by rewrite lookup_insert_ne.
Qed.

Lemma wp_get_config gid (Q : Outcome Config → World → Prop) w :
  (∀ w', same_stores w w' → discord w' = discord w →
         Q (Ok (config_of w gid)) w') →
  wp (get_config gid) Q w.
Proof.
  intros HQ. unfold get_config. wp_steps.
  - replace c with (config_of w gid) by (unfold config_of; by rewrite Heqo).
    apply HQ; [apply same_stores_refl|done].
  - assert (config_of w gid = vacation_config_default w) as E
      by (unfold config_of; by rewrite Heqo).
    pose proof (HQ (set_vacation_config
                      (<[pretty gid := vacation_config_default w]>
                         (vacation_config w)) w)) as H.
    rewrite E in H. apply H; [|done]. split; try done.
    intros g. by apply config_of_insert_default.
Qed.

Tactic Notation "wp_apply" uconstr(lem) :=
  first [apply lem | apply wp_bind; apply lem].

Lemma wp_the_guild gid (Q : Outcome Guild → World → Prop) w :
  (∀ g, find_guild w gid = Some g → Q (Ok g) w) →
  (find_guild w gid = None → Q (Raise AttributeError) w) →
  wp (the_guild gid) Q w.
Proof. intros HS HN. unfold the_guild. wp_steps; auto. Qed.

Lemma find_guild_id w gid g : find_guild w gid = Some g → guild_id g = gid.
Proof.
  unfold find_guild. intros H. apply find_some in H as [_ H]. lia.
Qed.

(** Operations that only read the configuration *)

Lemma wp_update_vacation_lists gid (Q : Outcome unit → World → Prop) w :
  (∀ r w', same_stores w w' → discord w' = discord w →
           (is_Some (find_guild w gid) → r = Ok tt) → Q r w') →
  wp (update_vacation_lists gid) Q w.
Proof.
  intros HQ. unfold update_vacation_lists.
  wp_apply wp_the_guild.
  - intros g Hg. wp_apply wp_get_config. intros w' Hs Hd. wp_steps.
    by apply HQ.
  - intros Hg. apply HQ; [apply same_stores_refl|done|].
    rewrite Hg. by intros [? ?].
Qed.

Lemma wp_send_vacation_log gid action data
    (Q : Outcome unit → World → Prop) w :
  (∀ r w', same_stores w w' → discord w' = discord w →
           (is_Some (find_guild w gid) → r = Ok tt ∨ r = Raise TypeError) →
           (is_Some (find_guild w gid) →
            truthy_id (log_channel_id (config_of w gid)) = false → r = Ok tt) →
           (is_Some (find_guild w gid) → is_Some (deny_reason data) → r = Ok tt) →
           Q r w') →
  wp (send_vacation_log gid action data) Q w.
Proof.
  intros HQ. unfold send_vacation_log.
  wp_apply wp_the_guild.
  - intros g Hg. wp_apply wp_get_config. intros w' Hs Hd.
    rewrite (find_guild_id _ _ _ Hg).
    wp_steps; apply HQ; auto; try (intros; congruence).
    + intros _ E. rewrite E in *. discriminate.
    + intros _ [? ?]; discriminate.
  - intros Hg. apply HQ; [apply same_stores_refl|done|..];
      rewrite Hg; by intros [? ?].
Qed.

(** ** Role edits *)

Lemma find_map_preserving {X} (p : X → bool) (f : X → X) (l : list X) :
  (∀ x, p (f x) = p x) → find p (map f l) = f <$> find p l.
Proof.
  intros Hp. induction l as [|x l IH]; simpl; [done|].
  rewrite Hp. by destruct (p x).
Qed.

Lemma edit_guild_id gid uid f g : guild_id (edit_guild gid uid f g) = guild_id g.
Proof. unfold edit_guild. by destruct (_ =? _). Qed.

Lemma edit_roles_guilds gid uid f x :
  guilds (edit_roles gid uid f x) = map (edit_guild gid uid f) (guilds x).
Proof. done. Qed.

Lemma edit_roles_guild_ids gid uid f x :
  map guild_id (guilds (edit_roles gid uid f x)) = map guild_id (guilds x).
Proof.
  rewrite edit_roles_guilds, map_map. apply map_ext. intros g.
  apply edit_guild_id.
Qed.

Lemma find_guild_edit_roles w w' gid uid f gid' :
  guilds (discord w') = guilds (edit_roles gid uid f (discord w)) →
  find_guild w' gid' = edit_guild gid uid f <$> find_guild w gid'.
Proof.
  intros E. unfold find_guild. rewrite E, edit_roles_guilds.
  apply find_map_preserving. intros g. by rewrite edit_guild_id.
Qed.

Lemma get_member_edit_guild gid uid f g uid' m :
  (∀ rs r, r ∈ rs → r ∈ f rs) →
  get_member g uid' = Some m →
  ∃ m', get_member (edit_guild gid uid f g) uid' = Some m'
        ∧ member_id m' = member_id m ∧ ∀ r, r ∈ roles m → r ∈ roles m'.
Proof.
  intros Hf Hm. unfold edit_guild. destruct (guild_id g =? gid); [|by eauto].
  unfold get_member in *; simpl.
  rewrite find_map_preserving by (intros x; by destruct (member_id x =? uid)).
  rewrite Hm; simpl. destruct (member_id m =? uid); eauto.
Qed.

Lemma existsb_role_mono rid (rs rs' : list Role) :
  (∀ r, r ∈ rs → r ∈ rs') →
  existsb (λ r, role_id r =? rid) rs = true →
  existsb (λ r, role_id r =? rid) rs' = true.
Proof.
  intros Hsub. rewrite !existsb_exists. intros (r & Hr & E).
  exists r. split; [|done]. apply list_elem_of_In, Hsub. by apply list_elem_of_In.
Qed.

Lemma roles_grow_refl w : roles_grow w w.
Proof. by intros ???. Qed.

Lemma roles_grow_trans w1 w2 w3 :
  roles_grow w1 w2 → roles_grow w2 w3 → roles_grow w1 w3.
Proof. intros H1 H2 ????. by apply H2, H1. Qed.

Lemma roles_grow_guilds w w' :
  guilds (discord w') = guilds (discord w) → roles_grow w w'.
Proof.
  intros E gid uid rid (g & m & Hg & Hm & Hr). exists g, m.
  unfold find_guild in *. by rewrite E.
Qed.

Lemma roles_grow_edit w w' gid uid f :
  (∀ rs r, r ∈ rs → r ∈ f rs) →
  guilds (discord w') = guilds (edit_roles gid uid f (discord w)) →
  roles_grow w w'.
Proof.
  intros Hf E gid' uid' rid (g & m & Hg & Hm & Hr).
  destruct (get_member_edit_guild gid uid f g uid' m Hf Hm) as (m' & Hm' & _ & Hsub).
  exists (edit_guild gid uid f g), m'. split_and!; [|done|].
  - by rewrite (find_guild_edit_roles w w' gid uid f gid' E), Hg.
  - by eapply existsb_role_mono.
Qed.

Lemma wp_add_roles gid uid new_roles reason
    (Q : Outcome unit → World → Prop) w :
  (∀ r w', evolves [reason] w w' → roles_grow w w' →
           api_failures (discord w') = tail (api_failures (discord w)) →
           Q r w') →
  wp (add_roles gid uid new_roles reason) Q w.
Proof.
  intros HQ. unfold add_roles. wp_apply wp_api_call.
  intros r w' ? ? ? ? ? Hcfg ? ? Hg Ha Hf ->.
  assert (same_stores w w') as Hs.
  { split; try done; [|by rewrite Hg]. intros g. unfold config_of. congruence. }
  destruct (default false _); simpl.
  - apply HQ; [by apply evolves_quiet| by apply roles_grow_guilds | done].
  - wp_steps. apply HQ; simpl; [| |done].
    + split.
      * split; simpl; try apply Hs.
        rewrite map_map. etrans; [|apply Hs].
        apply map_ext. intros g. apply edit_guild_id.
      * eexists [_]; simpl. rewrite Ha. split; [done|].
        constructor; [|done]. simpl. by left.
    + eapply roles_grow_trans; [by apply roles_grow_guilds|].
      eapply roles_grow_edit; [|done].
      intros rs r' Hr. apply elem_of_app. by left.
Qed.

Lemma wp_remove_roles gid uid role reason
    (Q : Outcome unit → World → Prop) w :
  (∀ r w', evolves [reason] w w' →
           api_failures (discord w') = tail (api_failures (discord w)) →
           (head (api_failures (discord w)) = Some true →
            r = Raise HTTPException
            ∧ guilds (discord w') = guilds (discord w)
            ∧ audit_log (discord w') = audit_log (discord w)) →
           Q r w') →
  wp (remove_roles gid uid role reason) Q w.
Proof.
  intros HQ. unfold remove_roles. wp_apply wp_api_call.
  intros r w' ? ? ? ? ? Hcfg ? ? Hg Ha Hf ->.
  assert (same_stores w w') as Hs.
  { split; try done; [|by rewrite Hg]. intros g. unfold config_of. congruence. }
  destruct (head _) as [[]|] eqn:Hh; simpl.
  - apply HQ; [by apply evolves_quiet|done|done].
  - wp_steps. apply HQ; simpl; [|done|done]. split.
    + split; simpl; try apply Hs.
      rewrite map_map. etrans; [|apply Hs].
      apply map_ext. intros g. apply edit_guild_id.
    + eexists [_]; simpl. rewrite Ha. split; [done|].
      constructor; [|done]. simpl. by left.
  - wp_steps. apply HQ; simpl; [|done|done]. split.
    + split; simpl; try apply Hs.
      rewrite map_map. etrans; [|apply Hs].
      apply map_ext. intros g. apply edit_guild_id.
    + eexists [_]; simpl. rewrite Ha. split; [done|].
      constructor; [|done]. simpl. by left.
Qed.

Lemma wp_remove_vacation_role gid vrid uid reason
    (Q : Outcome unit → World → Prop) w :
  (∀ r w', evolves [reason] w w' →
           (is_Some (find_guild w gid) → r = Ok tt) →
           (head (api_failures (discord w)) = Some true →
            guilds (discord w') = guilds (discord w)
            ∧ audit_log (discord w') = audit_log (discord w)) →
           Q r w') →
  wp (remove_vacation_role gid vrid uid reason) Q w.
Proof.
  intros HQ. unfold remove_vacation_role. wp_apply wp_the_guild.
  - intros g Hg. wp_steps;
      try (apply HQ; [apply evolves_refl|done|done]).
    eapply wp_mono; [|apply wp_remove_roles].
    + intros res w' H. exact H.
    + intros res w' He Hf Hfail. simpl.
      assert (head (api_failures (discord w)) = Some true →
              guilds (discord w') = guilds (discord w)
              ∧ audit_log (discord w') = audit_log (discord w)) as Hkeep
        by (intros Hh; by destruct (Hfail Hh) as (_ & ? & ?)).
      destruct res as [[]|e]; wp_steps; by apply HQ.
  - intros Hg. apply HQ; [apply evolves_refl| |done].
    rewrite Hg. by intros [? ?].
Qed.

Lemma wp_restore_saved_roles gid data uid
    (Q : Outcome unit → World → Prop) w :
  (∀ r w', evolves [REASON_RESTORE] w w' → roles_grow w w' →
           (is_Some (find_guild w gid) → r = Ok tt) →
           Q r w') →
  wp (restore_saved_roles gid data uid) Q w.
Proof.
  intros HQ. unfold restore_saved_roles. wp_step. wp_step.
  wp_apply wp_the_guild.
  - intros g Hg. wp_steps;
      try (apply HQ; [apply evolves_refl|apply roles_grow_refl|done]).
    eapply wp_mono; [|apply wp_add_roles].
    + intros res w' H. exact H.
    + intros res w' He Hgrow Hf. simpl.
      destruct res as [[]|e]; wp_steps; by apply HQ.
  - intros Hg. apply HQ; [apply evolves_refl|apply roles_grow_refl|].
    rewrite Hg. by intros [? ?].
Qed.

(** The ledger *)

Lemma update_vacation_stats_exec uid days action w :
  exec (update_vacation_stats uid days action) w
  = set_vacation_stats
      (vacation_stats (exec (update_vacation_stats uid days action) w)) w.
Proof. done. Qed.

Lemma update_vacation_stats_base uid days action w1 w :
  clock w1 = clock w → vacation_stats w1 = vacation_stats w →
  vacation_stats (exec (update_vacation_stats uid days action) w1)
  = vacation_stats (exec (update_vacation_stats uid days action) w).
Proof.
  intros Hc Hs. unfold exec, update_vacation_stats; simpl. by rewrite Hc, Hs.
Qed.

Lemma wp_update_vacation_stats uid days action
    (Q : Outcome unit → World → Prop) w :
  Q (Ok tt)
    (set_vacation_stats
       (vacation_stats (exec (update_vacation_stats uid days action) w)) w) →
  wp (update_vacation_stats uid days action) Q w.
Proof. intros HQ. apply wp_intro. exact HQ. Qed.

Lemma ledger_update_other uid days action w u k :
  u ≠ pretty uid ∨ k ≠ strftime_Ym (clock w) →
  ledger (exec (update_vacation_stats uid days action) w) u k = ledger w u k.
Proof.
  intros Hne. unfold ledger, exec, update_vacation_stats; simpl.
  destruct (decide (u = pretty uid)) as [->|Hu].
  - destruct Hne as [?|Hk]; [done|].
    rewrite lookup_insert_eq; simpl. rewrite lookup_insert_ne by done.
    destruct (vacation_stats w !! pretty uid); simpl; [done|].
    by rewrite lookup_empty.
  - by rewrite lookup_insert_ne.
Qed.

Lemma ledger_update_taken uid days w :
  ledger (exec (update_vacation_stats uid days "taken") w)
         (pretty uid) (strftime_Ym (clock w))
  = Some {| count := ledger_count w uid (strftime_Ym (clock w)) + 1;
            total_days := ledger_days w uid (strftime_Ym (clock w)) + days;
            last_vacation := Some (clock w) |}.
Proof.
  unfold ledger_count, ledger_days, ledger, exec, update_vacation_stats; simpl.
  rewrite !lookup_insert_eq; simpl.
  destruct (vacation_stats w !! pretty uid) as [us|]; simpl;
    [destruct (us !! strftime_Ym (clock w)) eqn:?|]; simpl;
    by rewrite ?lookup_insert_eq, ?lookup_empty.
Qed.

Lemma ledger_update_cancelled uid days w :
  let key := strftime_Ym (clock w) in
  let w' := exec (update_vacation_stats uid days "cancelled") w in
  ledger_count w' uid key
  = (if 0 <? ledger_count w uid key
     then ledger_count w uid key - 1 else ledger_count w uid key)
  ∧ ledger_days w' uid key
    = (if days <=? ledger_days w uid key
       then ledger_days w uid key - days else ledger_days w uid key).
Proof.
  unfold ledger_count, ledger_days, ledger, exec, update_vacation_stats; simpl.
  rewrite !lookup_insert_eq; simpl.
  destruct (vacation_stats w !! pretty uid) as [us|]; simpl;
    [destruct (us !! strftime_Ym (clock w)) eqn:?|]; simpl;
    by rewrite ?lookup_insert_eq, ?lookup_empty.
Qed.


(** ** Computations that leave the stores alone *)

Lemma quiet_ret {A} (a : A) : quiet (mret a).
Proof. intros w Q HQ. apply wp_ret, HQ; [apply same_stores_refl|done]. Qed.

Lemma quiet_raise {A} e : quiet (@raise A e).
Proof. intros w Q HQ. apply wp_raise, HQ; [apply same_stores_refl|done]. Qed.

Lemma quiet_gets {A} (f : World → A) : quiet (gets f).
Proof. intros w Q HQ. apply wp_gets, HQ; [apply same_stores_refl|done]. Qed.

Lemma quiet_read data : quiet (read data).
Proof. apply quiet_gets. Qed.

Lemma quiet_bind {A B} (m : M A) (k : A → M B) :
  quiet m → (∀ a, quiet (k a)) → quiet (m ≫= k).
Proof.
  intros Hm Hk w Q HQ. apply wp_bind, Hm. intros [a|e] w1 Hs1 Hd1.
  - apply Hk. intros r w2 Hs2 Hd2.
    apply HQ; [by eapply same_stores_trans|congruence].
  - by apply HQ.
Qed.

Lemma quiet_get_config gid : quiet (get_config gid).
Proof. intros w Q HQ. apply wp_get_config. intros w' ??. by apply HQ. Qed.

Lemma quiet_the_guild gid : quiet (the_guild gid).
Proof.
  intros w Q HQ.
  apply wp_the_guild; intros; apply HQ; done || apply same_stores_refl.
Qed.

Lemma quiet_update_vacation_lists gid : quiet (update_vacation_lists gid).
Proof.
  intros w Q HQ. apply wp_update_vacation_lists. intros r w' ?? _. by apply HQ.
Qed.

Lemma quiet_send_vacation_log gid action data :
  quiet (send_vacation_log gid action data).
Proof.
  intros w Q HQ. apply wp_send_vacation_log. intros r w' ?? _ _ _. by apply HQ.
Qed.

Create HintDb quiet discriminated.
Global Hint Resolve quiet_ret quiet_raise quiet_gets quiet_read quiet_get_config
  quiet_the_guild quiet_update_vacation_lists quiet_send_vacation_log : quiet.

Ltac solve_quiet :=
  repeat lazymatch goal with
    | |- quiet (mbind _ _) => apply quiet_bind; [|intros ?]
    | |- quiet (if ?b then _ else _) => destruct b
    | |- quiet (match ?x with _ => _ end) => destruct x
    | |- quiet _ => solve [auto with quiet]
    end.

(** The rest of an operation, once it is quiet, keeps what holds of the
    stores. *)
Lemma wp_quiet {A} (m : M A) (Q : Outcome A → World → Prop) w :
  quiet m → (∀ r w', same_stores w w' → Q r w') → wp m Q w.
Proof. intros Hm HQ. apply Hm. intros r w' ? _. by apply HQ. Qed.

(** ** Request objects *)

Lemma deref_lookup w l d : heap w !! l = Some d → deref w l = d.
Proof. unfold deref. by intros ->. Qed.

Ltac heap_simpl H :=
  unfold deref; world_simpl;
  rewrite ?list_lookup_alter_eq; repeat rewrite H;
  cbn [fmap option_fmap option_map default].

(** ** Review *)

Lemma approve_vacation_pending inter rid comment w data d :
  dict_get rid (vacation_requests w) = Some data →
  heap w !! data = Some d →
  status d = pending →
  let w' := exec (approve_vacation inter rid comment) w in
  heap w'
  = alter (approved_by (member_id (author inter)) (clock w) comment) data (heap w)
  ∧ clock w' = clock w
  ∧ vacation_requests w' = vacation_requests w
  ∧ vacation_data w' = dict_set rid data (vacation_data w)
  ∧ views w' = views w
  ∧ vacation_stats w'
    = vacation_stats
        (exec (update_vacation_stats (user_id d) (duration_days d) "taken") w).
Proof.
  intros Hrid Hd Hst w'. subst w'. wp_of_exec.
  unfold approve_vacation. do 2 wp_next. rewrite Hrid.
  do 2 wp_next.
  rewrite (deref_lookup _ _ _ Hd), Hst.
  rewrite bool_decide_eq_true_2 by done. cbn [negb].
  do 12 wp_next. heap_simpl Hd.
  simpl (user_id _); simpl (duration_days _).
  wp_apply wp_update_vacation_stats. world_simpl.
  unfold store_vacation. do 2 wp_next.
  apply wp_quiet; [solve_quiet|].
  intros r w' Hs. destruct Hs. world_simpl_all. subst Post; cbn beta.
  split_and!; try congruence.
  - etrans; [done|]. by rewrite !list_alter_alter_eq.
  - etrans; [done|]. by apply update_vacation_stats_base.
Qed.

Lemma deny_vacation_pending inter rid reason w data d :
  dict_get rid (vacation_requests w) = Some data →
  heap w !! data = Some d →
  status d = pending →
  let w' := exec (deny_vacation inter rid reason) w in
  heap w'
  = alter (denied_by (member_id (author inter)) (clock w) reason) data (heap w)
  ∧ clock w' = clock w
  ∧ vacation_requests w' = vacation_requests w
  ∧ vacation_data w' = vacation_data w
  ∧ views w' = views w
  ∧ vacation_stats w' = vacation_stats w.
Proof.
  intros Hrid Hd Hst w'. subst w'. wp_of_exec.
  unfold deny_vacation. do 2 wp_next. rewrite Hrid.
  do 2 wp_next.
  rewrite (deref_lookup _ _ _ Hd), Hst.
  rewrite bool_decide_eq_true_2 by done. cbn [negb].
  do 10 wp_next.
  apply wp_quiet; [solve_quiet|].
  intros r w' Hs. destruct Hs. world_simpl_all. subst Post; cbn beta.
  split_and!; try congruence.
  etrans; [done|]. by rewrite !list_alter_alter_eq.
Qed.

Lemma review_of_decided inter rid text w data d :
  dict_get rid (vacation_requests w) = Some data →
  heap w !! data = Some d →
  status d ≠ pending →
  approve_vacation inter rid text w = (Ok [MSG_ALREADY_REVIEWED], w)
  ∧ deny_vacation inter rid text w = (Ok [MSG_ALREADY_REVIEWED], w).
Proof.
  intros Hrid Hd Hst.
  unfold approve_vacation, deny_vacation, mbind, M_bind, bind, gets, read.
  cbn beta iota. rewrite !Hrid. cbn beta iota.
  unfold gets. cbn beta iota.
  rewrite (deref_lookup _ _ _ Hd).
  by rewrite bool_decide_eq_false_2 by done.
Qed.

Lemma review_of_unknown inter rid text w :
  dict_get rid (vacation_requests w) = None →
  approve_vacation inter rid text w = (Ok [MSG_NOT_FOUND], w)
  ∧ deny_vacation inter rid text w = (Ok [MSG_NOT_FOUND], w).
Proof.
  intros Hrid.
  unfold approve_vacation, deny_vacation, mbind, M_bind, bind, gets.
  cbn beta iota. by rewrite !Hrid.
Qed.

(** ** Early return *)

Lemma wp_if_stats (b : bool) uid days action
    (Q : Outcome unit → World → Prop) w :
  Q (Ok tt)
    (set_vacation_stats
       (if b
        then vacation_stats (exec (update_vacation_stats uid days action) w)
        else vacation_stats w) w) →
  wp (if b then update_vacation_stats uid days action else mret tt) Q w.
Proof.
  destruct b; intros HQ; [by apply wp_update_vacation_stats|].
  apply wp_ret. by destruct w.
Qed.

Ltac rewrite_fields :=
  repeat match goal with
    | H : heap ?x = _ |- context [heap ?x] => rewrite H
    | H : clock ?x = _ |- context [clock ?x] => rewrite H
    | H : vacation_requests ?x = _ |- context [vacation_requests ?x] =>
        rewrite H
    | H : vacation_data ?x = _ |- context [vacation_data ?x] => rewrite H
    | H : vacation_stats ?x = _ |- context [vacation_stats ?x] => rewrite H
    | H : views ?x = _ |- context [views ?x] => rewrite H
    end.

Lemma find_guild_discord w w' gid :
  guilds (discord w') = guilds (discord w) →
  find_guild w' gid = find_guild w gid.
Proof. unfold find_guild. by intros ->. Qed.

Lemma wp_early_return_vacation inter rid data w d
    (Q : Outcome (list string) → World → Prop) :
  heap w !! data = Some d →
  is_Some (find_guild w (inter_guild_id inter)) →
  (∀ r w',
     heap w'
     = alter (returned_early (member_id (author inter)) (clock w)) data (heap w) →
     clock w' = clock w →
     vacation_requests w' = dict_set rid data (vacation_requests w) →
     vacation_data w'
     = (if dict_mem rid (vacation_data w)
        then dict_del rid (vacation_data w) else vacation_data w) →
     views w' = views w →
     vacation_stats w'
     = (let days_used :=
          date_sub_days (date_of (clock w)) (date_of (start_date d)) in
        if 0 <? days_used
        then vacation_stats
               (exec (update_vacation_stats (user_id d)
                        (duration_days d - days_used) "cancelled") w)
        else vacation_stats w) →
     audit_only [REASON_EARLY; REASON_RESTORE] w w' →
     map guild_id (guilds (discord w')) = map guild_id (guilds (discord w)) →
     r = Ok ["**✅ Отпуск досрочно завершен!**"] ∨ r = Raise TypeError →
     Q r w') →
  wp (early_return_vacation inter rid data) Q w.
Proof.
  intros Hd Hg HQ. unfold early_return_vacation.
  do 2 wp_next. rewrite (deref_lookup _ _ _ Hd).
  wp_apply wp_the_guild; [intros g Hg0|by intros E; rewrite E in Hg; destruct Hg].
  wp_apply wp_get_config. intros w1 Hs1 Hd1.
  wp_apply wp_remove_vacation_role. intros r2 w2 He2 Hr2 _.
  rewrite Hr2 by (by eapply same_stores_find_guild).
  wp_apply wp_restore_saved_roles. intros r3 w3 He3 _ Hr3.
  assert (evolves [REASON_EARLY; REASON_RESTORE] w w3) as Hev.
  { eapply evolves_trans; [apply evolves_quiet; [done|by rewrite Hd1]|].
    eapply evolves_trans.
    - eapply evolves_weaken; [|exact He2].
      intros x. rewrite !elem_of_cons. tauto.
    - eapply evolves_weaken; [|exact He3].
      intros x. rewrite !elem_of_cons. tauto. }
  assert (is_Some (find_guild w3 (inter_guild_id inter))) as Hg3
    by (eapply same_stores_find_guild; [apply Hev|done]).
  rewrite Hr3 by (eapply same_stores_find_guild; [apply He2|];
                  by eapply same_stores_find_guild).
  destruct Hev as [Hs3 Ha3].
  do 8 wp_next. wp_apply wp_if_stats. world_simpl.
  unfold drop_vacation, store_request. do 4 wp_next.
  wp_apply wp_update_vacation_lists. intros r4 w4 Hs4 Hd4 Hr4.
  rewrite Hr4 by (by erewrite find_guild_discord).
  do 2 wp_next.
  wp_apply wp_send_vacation_log. intros r5 w5 Hs5 Hd5 Hr5 _ _.
  assert (is_Some (find_guild w4 (inter_guild_id inter))) as Hg4.
  { erewrite find_guild_discord by (by rewrite Hd4). done. }
  destruct Hs4, Hs5, Hs3. world_simpl_all.
  assert (audit_only [REASON_EARLY; REASON_RESTORE] w w5) as Ha5.
  { destruct Ha3 as (es & E & F). exists es. by rewrite Hd5, Hd4. }
  assert (map guild_id (guilds (discord w5)) = map guild_id (guilds (discord w)))
    as Hids by congruence.
  destruct (Hr5 Hg4) as [-> | ->]; wp_steps;
    (apply HQ; [| | | | | |done|done|by auto]; try congruence).
  all: rewrite_fields; rewrite ?list_alter_alter_eq; try done.
  all: destruct (0 <? _); [by apply update_vacation_stats_base|done].
Qed.

Lemma early_return_vacation_unknown inter rid data w :
  find_guild w (inter_guild_id inter) = None →
  early_return_vacation inter rid data w = (Raise AttributeError, w).
Proof.
  intros Hg. unfold early_return_vacation, the_guild, mbind, M_bind, bind, read, gets.
  cbn beta iota. by rewrite Hg.
Qed.

(** ** Dictionaries *)

Section dict_facts.
Context {V : Type}.
Implicit Types (d : dict V) (k : string) (v : V).

Lemma dict_get_set_eq k v d : dict_get k (dict_set k v d) = Some v.
Proof.
  induction d as [|[k' v'] d IH]; simpl.
  - by rewrite decide_True.
  - destruct (decide (k = k')); simpl; [by rewrite decide_True|].
    by rewrite decide_False.
Qed.

Lemma dict_get_set_ne k k' v d :
  k ≠ k' → dict_get k' (dict_set k v d) = dict_get k' d.
Proof.
  intros Hne. induction d as [|[k0 v0] d IH]; simpl.
  - by rewrite decide_False.
  - destruct (decide (k = k0)) as [->|]; simpl.
    + by rewrite !decide_False by done.
    + destruct (decide (k' = k0)); [done|apply IH].
Qed.

Lemma dict_get_elem_of k v d : dict_get k d = Some v → (k, v) ∈ d.
Proof.
  induction d as [|[k' v'] d IH]; simpl; [done|].
  destruct (decide (k = k')) as [->|]; intros H.
  - injection H as ->. by left.
  - right. by apply IH.
Qed.

Lemma elem_of_dict_get k v d : (k, v) ∈ d → is_Some (dict_get k d).
Proof.
  induction d as [|[k' v'] d IH]; simpl.
  - by intros ?%elem_of_nil.
  - intros [E|H]%elem_of_cons; destruct (decide (k = k')); eauto.
    by injection E.
Qed.

Lemma elem_of_dict_mem k v d : (k, v) ∈ d → dict_mem k d = true.
Proof.
  intros H. unfold dict_mem. by destruct (elem_of_dict_get _ _ _ H) as [? ->].
Qed.

Lemma elem_of_dict_set k v k' v' d :
  (k', v') ∈ dict_set k v d → (k', v') = (k, v) ∨ (k', v') ∈ d.
Proof.
  induction d as [|[k0 v0] d IH]; simpl.
  - intros ?%list_elem_of_singleton. by left.
  - destruct (decide (k = k0)) as [->|].
    + intros [?|?]%elem_of_cons; [by left|right; by right].
    + intros [->|?]%elem_of_cons; [right; by left|].
      destruct IH as [?|?]; [done|by left|right; by right].
Qed.

Lemma elem_of_dict_del k k' v' d : (k', v') ∈ dict_del k d → (k', v') ∈ d.
Proof.
  induction d as [|[k0 v0] d IH]; simpl; [done|].
  destruct (decide (k = k0)); [by right|].
  intros [->|?]%elem_of_cons; [by left|right; by apply IH].
Qed.

Lemma dict_get_del_ne k k' d :
  k ≠ k' → dict_get k' (dict_del k d) = dict_get k' d.
Proof.
  intros Hne. induction d as [|[k0 v0] d IH]; simpl; [done|].
  destruct (decide (k = k0)) as [->|]; simpl.
  - by rewrite decide_False.
  - destruct (decide (k' = k0)); [done|apply IH].
Qed.

Lemma find_elem_of (p : string * V → bool) d x : find p d = Some x → x ∈ d.
Proof. intros H. apply find_some in H as [H _]. by apply list_elem_of_In. Qed.
End dict_facts.

Lemma dict_del_absent {V} k (d : dict V) :
  dict_mem k d = false → dict_del k d = d.
Proof.
  unfold dict_mem. induction d as [|[k' v'] d IH]; simpl; [done|].
  destruct (decide (k = k')); [done|]. intros H. by rewrite IH.
Qed.

Lemma dict_del_guarded {V} k (d : dict V) :
  (if dict_mem k d then dict_del k d else d) = dict_del k d.
Proof.
  destruct (dict_mem k d) eqn:E; [done|]. by rewrite dict_del_absent.
Qed.

Lemma user_vacations_elem_of w uid rid data :
  (rid, data) ∈ user_vacations w uid → (rid, data) ∈ vacation_data w.
Proof.
  unfold user_vacations. rewrite !list_elem_of_In, filter_In. tauto.
Qed.

(** ** Recall *)


(** ** Eligibility *)

Lemma any_role_in_spec ids member :
  any_role_in ids member = true
  ↔ ∃ role, role ∈ roles member ∧ role_id role ∈ ids.
Proof.
  unfold any_role_in. rewrite existsb_exists. split.
  - intros (role & Hin & Hid). exists role.
    split; [by apply list_elem_of_In|by apply bool_decide_eq_true in Hid].
  - intros (role & Hin & Hid). exists role.
    split; [by apply list_elem_of_In|by apply bool_decide_eq_true].
Qed.

Lemma month_count_ledger w uid key :
  month_count w (pretty uid) key = ledger_count w uid key.
Proof.
  unfold month_count, ledger_count, ledger.
  destruct (vacation_stats w !! pretty uid); simpl; [done|].
  by rewrite lookup_empty.
Qed.

Lemma can_take_vacation_result member gid w :
  let config := config_of w gid in
  result (can_take_vacation member gid) w
  = Ok (if any_role_in (banned_roles config) member then (false, MSG_BANNED)
        else if negb (bool_decide (min_rank_roles config = []))
                && negb (any_role_in (min_rank_roles config) member)
        then (false, MSG_RANK)
        else if max_vacations_per_month config
                <=? ledger_count w (member_id member) (strftime_Ym (clock w))
        then (false, MSG_LIMIT (max_vacations_per_month config))
        else (true, "")).
Proof.
  intros config.
  pattern (result (can_take_vacation member gid) w).
  apply (wp_run (can_take_vacation member gid) (λ r _, _ r)).
  unfold can_take_vacation. wp_apply wp_get_config. intros w' Hs _.
  fold config.
  assert (ledger_count w' (member_id member) (strftime_Ym (clock w'))
          = ledger_count w (member_id member) (strftime_Ym (clock w))) as E.
  { destruct Hs. unfold ledger_count, ledger. congruence. }
  destruct (any_role_in (banned_roles config) member); [by wp_steps|].
  destruct (negb _ && negb _); [by wp_steps|].
  unfold get_month_key. do 6 wp_next.
  rewrite month_count_ledger, E. by destruct (_ <=? _); wp_steps.
Qed.

(** C5. [can_take_vacation] checks the banned roles, then the minimum rank,
    then the monthly limit, and answers with the reason of the first check
    that fails; a member failing none is accepted. *)
Theorem can_take_vacation_first_failure_wins member gid w :
  let config := config_of w gid in
  let answer := result (can_take_vacation member gid) w in
  (holds_banned_role member config → answer = Ok (false, MSG_BANNED))
  ∧ (¬ holds_banned_role member config → below_minimum_rank member config →
     answer = Ok (false, MSG_RANK))
  ∧ (¬ holds_banned_role member config → ¬ below_minimum_rank member config →
     quota_exhausted w member config →
     answer = Ok (false, MSG_LIMIT (max_vacations_per_month config)))
  ∧ (¬ holds_banned_role member config → ¬ below_minimum_rank member config →
     ¬ quota_exhausted w member config → answer = Ok (true, "")).
Proof.
  intros config answer. subst answer. rewrite can_take_vacation_result.
  fold config. unfold holds_banned_role, below_minimum_rank, quota_exhausted.
  rewrite <- !any_role_in_spec.
  destruct (any_role_in (banned_roles config) member) eqn:Hban.
  { split_and!; [done|by intros []..]. }
  assert (negb (bool_decide (min_rank_roles config = []))
          && negb (any_role_in (min_rank_roles config) member) = true
          ↔ min_rank_roles config ≠ []
            ∧ ¬ any_role_in (min_rank_roles config) member = true) as Hrank.
  { rewrite andb_true_iff, !negb_true_iff, bool_decide_eq_false.
    by rewrite not_true_iff_false. }
  destruct (negb _ && negb _) eqn:Hlow.
  { split_and!; [done|done|..]; intros _ Hn; destruct Hn; by apply Hrank. }
  assert (¬ (min_rank_roles config ≠ []
             ∧ ¬ any_role_in (min_rank_roles config) member = true)) as Hnl.
  { intros H. apply Hrank in H. congruence. }
  destruct (Z.leb_spec (max_vacations_per_month config)
              (ledger_count w (member_id member) (strftime_Ym (clock w)))).
  - split_and!; [done|by intros _ ?|done|]. intros _ _ H'. by destruct H'.
  - split_and!; [done|by intros _ ?| |done]. intros _ _ ?. lia.
Qed.

(** A banned member who used up the month is told about the ban. *)
Lemma can_take_vacation_banned_over_quota :
  let w := exec (update_vacation_stats 300 3 "taken") Scenario.submitted in
  holds_banned_role Scenario.carol (config_of w 1)
  ∧ quota_exhausted w Scenario.carol (config_of w 1)
  ∧ result (can_take_vacation Scenario.carol 1) w = Ok (false, MSG_BANNED).
Proof.
  intros w.
  assert (holds_banned_role Scenario.carol (config_of w 1)) as Hban.
  { exists Scenario.TRAINEE. split; [by left|]. vm_compute. by left. }
  split_and!; [done|by vm_compute|].
  by apply (can_take_vacation_first_failure_wins Scenario.carol 1 w).
Defined.

(** ** The usage ledger *)

Lemma ledger_same_stats w1 w2 u k :
  vacation_stats w1 = vacation_stats w2 → ledger w1 u k = ledger w2 u k.
Proof. unfold ledger. by intros ->. Qed.

(** C8, as the code has it.  A debit of [days] against a bucket takes one
    from its count, down to zero, and takes [days] from its total when the
    total holds that much; a larger debit leaves the total as it is.
    Neither counter goes below zero. *)
Theorem debit_skips_what_it_cannot_cover uid days w :
  let key := strftime_Ym (clock w) in
  let w' := exec (update_vacation_stats uid days "cancelled") w in
  0 ≤ ledger_count w uid key → 0 ≤ ledger_days w uid key → 0 ≤ days →
  ledger_count w' uid key = Z.max 0 (ledger_count w uid key - 1)
  ∧ (days ≤ ledger_days w uid key →
     ledger_days w' uid key = ledger_days w uid key - days)
  ∧ (ledger_days w uid key < days →
     ledger_days w' uid key = ledger_days w uid key)
  ∧ 0 ≤ ledger_count w' uid key
  ∧ 0 ≤ ledger_days w' uid key.
Proof.
  intros key w' Hc Ht Hd.
  destruct (ledger_update_cancelled uid days w) as [Ec Et].
  fold key in Ec, Et. fold w' in Ec, Et. rewrite Ec, Et.
  destruct (Z.ltb_spec 0 (ledger_count w uid key));
    destruct (Z.leb_spec days (ledger_days w uid key)); lia.
Qed.

Lemma debit_skips_what_it_cannot_cover_witness :
  let w := Scenario.approved_world in
  let w' := exec (update_vacation_stats 100 9 "cancelled") w in
  ledger_count w' 100 "2024-01" = 0 ∧ ledger_days w' 100 "2024-01" = 7.
Proof.
  intros w w'.
  destruct (debit_skips_what_it_cannot_cover 100 9 w) as (Hc & _ & Ht & _);
    [by vm_compute..|].
  split; [exact Hc|]. apply Ht. by vm_compute.
Defined.

(** C8 fails where the debit exceeds the stored total: with 7 days stored,
    a debit of 9 days leaves 7, not [max(0, 7 - 9) = 0]. *)
Lemma debit_larger_than_total_is_not_clamped :
  let w := Scenario.approved_world in
  let w' := exec (update_vacation_stats 100 9 "cancelled") w in
  ledger_days w 100 "2024-01" = 7
  ∧ ledger_days w' 100 "2024-01" = 7
  ∧ ledger_days w' 100 "2024-01" ≠ Z.max 0 (ledger_days w 100 "2024-01" - 9).
Proof. by vm_compute. Qed.



(** ** Claims on the review and on the early return *)

(** Closed side conditions of the concrete cases. *)
Ltac by_compute := vm_compute; first [done | by eexists | lia].

(** C3. Approving or denying a request that is no longer pending changes
    nothing and is answered with an error message; in particular a request
    that was just approved cannot be approved, and credited, again. *)
Theorem review_of_decided_request_is_refused inter rid text w data d :
  dict_get rid (vacation_requests w) = Some data →
  heap w !! data = Some d →
  (status d ≠ pending →
   approve_vacation inter rid text w = (Ok [MSG_ALREADY_REVIEWED], w)
   ∧ deny_vacation inter rid text w = (Ok [MSG_ALREADY_REVIEWED], w))
  ∧ (status d = pending →
     ∀ inter' text',
       let w1 := exec (approve_vacation inter rid text) w in
       approve_vacation inter' rid text' w1 = (Ok [MSG_ALREADY_REVIEWED], w1)
       ∧ deny_vacation inter' rid text' w1 = (Ok [MSG_ALREADY_REVIEWED], w1)).
Proof.
  intros Hrid Hd. split.
  - intros Hst. by apply (review_of_decided inter rid text w data d).
  - intros Hst inter' text' w1.
    destruct (approve_vacation_pending inter rid text w data d Hrid Hd Hst)
      as (Hheap & _ & Hreq & _).
    fold w1 in Hheap, Hreq.
    apply (review_of_decided inter' rid text' w1 data
             (approved_by (member_id (author inter)) (clock w) text d)).
    + by rewrite Hreq.
    + by rewrite Hheap, list_lookup_alter_eq, Hd.
    + done.
Qed.

Lemma review_of_decided_request_is_refused_witness :
  let w := Scenario.approved_world in
  approve_vacation Scenario.as_bob Scenario.alice_request "again" w
  = (Ok [MSG_ALREADY_REVIEWED], w)
  ∧ vacation_stats (exec (approve_vacation Scenario.as_bob
                            Scenario.alice_request "again") w)
    = vacation_stats w.
Proof.
  intros w.
  destruct (review_of_decided_request_is_refused Scenario.as_bob
              Scenario.alice_request "again" w 0%nat
              (default null_request (heap w !! 0%nat)))
    as [Hrefused _]; [by_compute..|].
  destruct Hrefused as [Happrove _]; [by vm_compute|].
  split; [exact Happrove|]. unfold exec. by rewrite Happrove.
Defined.

(** C1, as the code has it.  When an early return runs after at least one
    and at most [duration_days] whole days, the amount passed to the ledger
    is [duration_days - days_elapsed], which lies between 0 and
    [duration_days - 1]; the bucket of the current month loses exactly that
    many days when it holds them, and keeps its total otherwise. *)
Theorem early_return_debits_unused_days inter rid data w d :
  heap w !! data = Some d →
  is_Some (find_guild w (inter_guild_id inter)) →
  let days_elapsed :=
    date_sub_days (date_of (clock w)) (date_of (start_date d)) in
  let unused := duration_days d - days_elapsed in
  let key := strftime_Ym (clock w) in
  let w' := exec (early_return_vacation inter rid data) w in
  0 < days_elapsed → days_elapsed ≤ duration_days d →
  0 ≤ unused < duration_days d
  ∧ (unused ≤ ledger_days w (user_id d) key →
     ledger_days w' (user_id d) key = ledger_days w (user_id d) key - unused)
  ∧ (ledger_days w (user_id d) key < unused →
     ledger_days w' (user_id d) key = ledger_days w (user_id d) key).
Proof.
  intros Hd Hg days_elapsed unused key w' Hpos Hle.
  assert (vacation_stats w'
          = vacation_stats
              (exec (update_vacation_stats (user_id d) unused "cancelled") w))
    as Hstats.
  { subst w'. pattern (exec (early_return_vacation inter rid data) w).
    apply wp_exec. eapply wp_early_return_vacation; [done..|].
    intros r w' _ _ _ _ _ Hstats _ _ _. cbn zeta in Hstats.
    fold days_elapsed in Hstats.
    by destruct (Z.ltb_spec 0 days_elapsed); [|lia]. }
  destruct (ledger_update_cancelled (user_id d) unused w) as [_ Et].
  fold key in Et.
  assert (ledger_days w' (user_id d) key
          = ledger_days
              (exec (update_vacation_stats (user_id d) unused "cancelled") w)
              (user_id d) key) as ->.
  { unfold ledger_days. by rewrite (ledger_same_stats _ _ _ _ Hstats). }
  rewrite Et. split; [lia|].
  destruct (Z.leb_spec unused (ledger_days w (user_id d) key)); split; lia.
Qed.

(** Two days into seven: five days go back. *)
Lemma early_return_debits_unused_days_witness :
  let w := Scenario.later (Scenario.at_ 2024 1 14 9 0) Scenario.active_world in
  let w' := exec (early_return_vacation Scenario.as_alice
                    Scenario.alice_request 0%nat) w in
  ledger_days w 100 "2024-01" = 7 ∧ ledger_days w' 100 "2024-01" = 2.
Proof.
  intros w w'. split; [by vm_compute|].
  destruct (early_return_debits_unused_days Scenario.as_alice
              Scenario.alice_request 0%nat w
              (default null_request (heap w !! 0%nat)))
    as (_ & Hdebit & _); [by_compute..|].
  etrans; [|etrans; [apply Hdebit|]]; by vm_compute.
Defined.

(** C1 fails on the day the vacation starts: no day has elapsed, the claim
    has the whole duration debited, and the ledger is left as it was. *)
Lemma early_return_on_the_first_day_debits_nothing :
  let w := Scenario.active_world in
  let d := default null_request (heap w !! 0%nat) in
  let w' := exec (return_from_vacation Scenario.as_alice) w in
  status d = approved
  ∧ date_sub_days (date_of (clock w)) (date_of (start_date d)) = 0
  ∧ status (deref w' 0%nat) = early_return
  ∧ ledger_days w 100 "2024-01" = 7
  ∧ ledger_days w' 100 "2024-01" = 7
  ∧ ledger_days w' 100 "2024-01"
    ≠ ledger_days w 100 "2024-01" - (duration_days d - 0).
Proof. by vm_compute. Qed.

(** The lookups of the early return *)

Section list_lookups.
Context {A : Type} (P : A → bool).

Lemma filter_none l :
  (∀ j y, l !! j = Some y → P y = false) → List.filter P l = [].
Proof.
  induction l as [|a l IH]; intros H; simpl; [done|].
  rewrite (H 0%nat a) by done. apply IH. intros j y. apply (H (S j)).
Qed.

Lemma filter_sole l i x :
  l !! i = Some x → P x = true →
  (∀ j y, j ≠ i → l !! j = Some y → P y = false) →
  List.filter P l = [x].
Proof.
  revert i. induction l as [|a l IH]; intros [|i] Hx HP Hother; simpl in *;
    try done.
  - injection Hx as ->. rewrite HP. f_equal. apply filter_none.
    intros j y. by apply (Hother (S j)).
  - rewrite (Hother 0%nat a) by done. apply (IH i); [done..|].
    intros j y Hne. apply (Hother (S j)). lia.
Qed.

Lemma filter_one l i x :
  l !! i = Some x → P x = true → (1 ≤ length (List.filter P l))%nat.
Proof.
  revert i. induction l as [|a l IH]; intros [|i] Hx HP; simpl in *; try done.
  - injection Hx as ->. rewrite HP. simpl. lia.
  - specialize (IH i Hx HP). destruct (P a); simpl; lia.
Qed.

Lemma filter_two l i j x y :
  i ≠ j → l !! i = Some x → l !! j = Some y → P x = true → P y = true →
  (2 ≤ length (List.filter P l))%nat.
Proof.
  revert i j. induction l as [|a l IH]; intros [|i] [|j] Hne Hx Hy HPx HPy;
    simpl in *; try done.
  - injection Hx as ->. rewrite HPx. simpl.
    pose proof (filter_one l j y Hy HPy). lia.
  - injection Hy as ->. rewrite HPy. simpl.
    pose proof (filter_one l i x Hx HPx). lia.
  - assert (i ≠ j) as Hne' by lia.
    specialize (IH i j Hne' Hx Hy HPx HPy). destruct (P a); simpl; lia.
Qed.

Lemma find_first l i x :
  l !! i = Some x → P x = true →
  (∀ j y, (j < i)%nat → l !! j = Some y → P y = false) →
  find P l = Some x.
Proof.
  revert i. induction l as [|a l IH]; intros [|i] Hx HP Hbefore; simpl in *;
    try done.
  - injection Hx as ->. by rewrite HP.
  - rewrite (Hbefore 0%nat a) by (done || lia). apply (IH i); [done..|].
    intros j y Hlt. apply (Hbefore (S j)). lia.
Qed.

Lemma find_some_at l i x :
  l !! i = Some x → P x = true → is_Some (find P l).
Proof.
  revert i. induction l as [|a l IH]; intros [|i] Hx HP; simpl in *; try done.
  - injection Hx as ->. rewrite HP. by eexists.
  - destruct (P a); [by eexists|]. by apply (IH i).
Qed.
End list_lookups.

Lemma find_key_filter {V} (P : string * V → bool) (l : dict V) k v :
  NoDup (dict_keys l) → (k, v) ∈ l → P (k, v) = true →
  find (λ '(k', _), bool_decide (k' = k)) (List.filter P l) = Some (k, v).
Proof.
  unfold dict_keys. induction l as [|[k0 v0] l IH]; simpl; intros Hnd Hin HP.
  - by apply elem_of_nil in Hin.
  - apply NoDup_cons in Hnd as [Hk0 Hnd].
    apply elem_of_cons in Hin as [[= -> ->]|Hin].
    + rewrite HP. simpl. by rewrite bool_decide_eq_true_2.
    + assert (k0 ≠ k) as Hne.
      { intros ->. apply Hk0. apply list_elem_of_fmap. by exists (k, v). }
      destruct (P (k0, v0)); simpl; [rewrite bool_decide_eq_false_2 by done|];
        by apply IH.
Qed.

Lemma approved_request_of_test w uid rid data :
  (user_id (deref w data) =? uid)
  && bool_decide (status (deref w data) = approved) = true
  ↔ approved_request_of w uid (rid, data).
Proof.
  unfold approved_request_of. simpl.
  rewrite andb_true_iff, Z.eqb_eq, bool_decide_eq_true. done.
Qed.

Lemma approved_request_of_test_false w uid item :
  ¬ approved_request_of w uid item →
  (let '(req_id, data) := item in
   (user_id (deref w data) =? uid)
   && bool_decide (status (deref w data) = approved)) = false.
Proof.
  destruct item as [rid data]. intros Hn. apply not_true_is_false.
  by rewrite approved_request_of_test.
Qed.

Lemma user_vacations_spec w uid item :
  item ∈ user_vacations w uid
  ↔ item ∈ vacation_data w ∧ approved_request_of w uid item.
Proof.
  unfold user_vacations. rewrite !list_elem_of_In, filter_In.
  destruct item as [rid data]. by rewrite approved_request_of_test.
Qed.

(** C9. The early return takes any approved request of the member, started
    or not; nothing on the way looks at the start date.  The menu entry
    finds every approved request of its author in [vacation_data]: it ends
    the request at once when it is the only one, and otherwise offers all of
    them in a select view, whose callback ends the one chosen.  The
    administrators' command finds an approved request whenever the member
    has one, and ends the first in [vacation_data].  The request becomes
    [early_return], leaves [vacation_data] and is stored in
    [vacation_requests]. *)
Theorem early_return_accepts_any_approved_request inter rid data w d i :
  vacation_data w !! i = Some (rid, data) →
  heap w !! data = Some d →
  status d = approved →
  is_Some (find_guild w (inter_guild_id inter)) →
  let done_ (r : Outcome (list string)) (w' : World) :=
    status (deref w' data) = early_return
    ∧ dict_get rid (vacation_requests w') = Some data
    ∧ vacation_data w' = dict_del rid (vacation_data w)
    ∧ ∃ sent, r = Ok ("**✅ Отпуск досрочно завершен!**" :: sent)
              ∨ r = Raise TypeError in
  (user_id d = member_id (author inter) →
   let mine := user_vacations w (member_id (author inter)) in
   (rid, data) ∈ mine
   ∧ ((∀ j item, j ≠ i → vacation_data w !! j = Some item →
                 ¬ approved_request_of w (member_id (author inter)) item) →
      mine = [(rid, data)]
      ∧ done_ (result (return_from_vacation inter) w)
              (exec (return_from_vacation inter) w))
   ∧ ((∃ j item, j ≠ i ∧ vacation_data w !! j = Some item
                 ∧ approved_request_of w (member_id (author inter)) item) →
      return_from_vacation inter w
      = (Ok ["**⚠️ Выберите отпуск для досрочного завершения:**"],
         set_views (views w ++ [mk_view mine "return"]) w))
   ∧ (NoDup (dict_keys (vacation_data w)) →
      done_ (result (select_callback (mk_view mine "return") inter rid) w)
            (exec (select_callback (mk_view mine "return") inter rid) w)))
  ∧ (∀ пользователь,
       user_id d = member_id пользователь →
       is_Some (active_vacation w (member_id пользователь))
       ∧ ((∀ j item, (j < i)%nat → vacation_data w !! j = Some item →
                     ¬ approved_request_of w (member_id пользователь) item) →
          active_vacation w (member_id пользователь) = Some (rid, data)
          ∧ done_ (result (vacation_force inter "завершить" пользователь) w)
                  (exec (vacation_force inter "завершить" пользователь) w))).
Proof.
  intros Hi Hd Hst Hg done_.
  assert (∀ (Q : Outcome (list string) → World → Prop),
            (∀ r w', done_ r w' → Q r w') →
            wp (early_return_vacation inter rid data) Q w) as Hearly.
  { intros Q HQ. eapply wp_early_return_vacation; [done..|].
    intros r w' Hheap _ Hreq Hdata _ _ _ _ Hr. apply HQ. unfold done_.
    split_and!.
    - unfold deref. by rewrite Hheap, list_lookup_alter_eq, Hd.
    - rewrite Hreq. apply dict_get_set_eq.
    - by rewrite Hdata, dict_del_guarded.
    - exists []. destruct Hr as [-> | ->]; auto. }
  assert (∀ uid, user_id d = uid → approved_request_of w uid (rid, data))
    as Hmine.
  { intros uid <-. unfold approved_request_of. simpl.
    by rewrite (deref_lookup _ _ _ Hd). }
  split.
  - intros Huid mine. specialize (Hmine _ Huid).
    pose proof (proj2 (approved_request_of_test _ _ _ _) Hmine) as Htest.
    split_and!.
    + apply user_vacations_spec. split; [|done].
      by eapply list_elem_of_lookup_2.
    + intros Hsole.
      assert (mine = [(rid, data)]) as Emine.
      { subst mine. unfold user_vacations.
        apply (filter_sole _ _ i); [done|exact Htest|].
        intros j item Hne Hj. apply approved_request_of_test_false.
        by eapply Hsole. }
      split; [done|]. apply wp_run. unfold return_from_vacation.
      do 2 wp_next. fold mine. rewrite Emine. by apply Hearly.
    + intros (j & [rid' data'] & Hne & Hj & Hother).
      assert (2 ≤ length mine)%nat as Hlen.
      { subst mine. unfold user_vacations.
        apply (filter_two _ _ i j (rid, data) (rid', data'));
          [by intros ->|done|done|exact Htest|].
        by apply (proj2 (approved_request_of_test _ _ rid' data')). }
      unfold return_from_vacation, mbind, M_bind, bind, gets, modify.
      cbn beta iota. fold mine.
      destruct mine as [|[rid1 data1] [|item2 rest]]; simpl in Hlen;
        [lia|lia|done].
    + intros Hnd. apply wp_run. unfold select_callback.
      cbn [vacations action]. subst mine. unfold user_vacations.
      rewrite (find_key_filter _ _ rid data);
        [|done|by eapply list_elem_of_lookup_2|exact Htest].
      rewrite decide_True by done. by apply Hearly.
  - intros пользователь Huid. specialize (Hmine _ Huid).
    pose proof (proj2 (approved_request_of_test _ _ _ _) Hmine) as Htest.
    split.
    + unfold active_vacation. by eapply (find_some_at _ _ i).
    + intros Hfirst.
      assert (active_vacation w (member_id пользователь) = Some (rid, data))
        as Hfind.
      { unfold active_vacation. apply (find_first _ _ i); [done|exact Htest|].
        intros j item Hlt Hj. apply approved_request_of_test_false.
        by eapply Hfirst. }
      split; [done|]. apply wp_run. unfold vacation_force.
      do 2 wp_next. rewrite Hfind. rewrite decide_True by done.
      wp_step. apply Hearly.
      intros r w' (Hst' & Hreq & Hdata & sent & Hr).
      destruct Hr as [-> | ->]; wp_steps; unfold done_; split_and!; try done.
      * eexists. left. simpl. reflexivity.
      * exists []. by right.
Qed.

(** Alice comes back on 11 January from a vacation that starts on the 12th,
    through the menu; in the same state the command of an administrator
    ends it as well. *)
Lemma early_return_before_the_start :
  let w := Scenario.later (Scenario.at_ 2024 1 11 9 0) Scenario.approved_world in
  let w' := exec (return_from_vacation Scenario.as_alice) w in
  let w'' := exec (vacation_force Scenario.as_bob "завершить" Scenario.alice) w in
  date_ltb (date_of (clock w))
           (date_of (start_date (deref w 0%nat))) = true
  ∧ status (deref w' 0%nat) = early_return
  ∧ vacation_data w' = []
  ∧ status (deref w'' 0%nat) = early_return.
Proof.
  intros w w' w''. split; [by vm_compute|].
  assert (vacation_data w = [(Scenario.alice_request, 0%nat)]) as Edata
    by (by vm_compute).
  destruct (early_return_accepts_any_approved_request Scenario.as_alice
              Scenario.alice_request 0%nat w (deref w 0%nat) 0%nat)
    as (Hmenu & _); [by_compute..|].
  destruct (early_return_accepts_any_approved_request Scenario.as_bob
              Scenario.alice_request 0%nat w (deref w 0%nat) 0%nat)
    as (_ & Hadmin); [by_compute..|].
  destruct (Hmenu ltac:(by vm_compute)) as (_ & Hsole & _).
  destruct Hsole as (_ & Hst & _ & Hdata & _).
  { intros [|j] item Hne Hj; [done|]. rewrite Edata in Hj. done. }
  destruct (Hadmin Scenario.alice ltac:(by vm_compute)) as (_ & Hfirst).
  destruct Hfirst as (_ & Hst' & _); [intros j item Hlt; lia|].
  split_and!; [exact Hst| |exact Hst'].
  fold w' in Hdata. rewrite Hdata. by vm_compute.
Defined.

(** ** Request identifiers *)

Lemma occurs_app c s1 s2 : occurs c (s1 +:+ s2) ↔ occurs c s1 ∨ occurs c s2.
Proof. induction s1 as [|c' s1 IH]; simpl; [tauto|]. rewrite IH. tauto. Qed.

Lemma append_separator_inj c s1 s2 s1' s2' :
  ¬ occurs c s1 → ¬ occurs c s1' →
  s1 +:+ String c s2 = s1' +:+ String c s2' → s1 = s1' ∧ s2 = s2'.
Proof.
  revert s1'. induction s1 as [|a s1 IH]; intros [|a' s1']; simpl;
    intros H1 H2 E.
  - by injection E.
  - injection E as -> _. tauto.
  - injection E as -> _. tauto.
  - injection E as -> E. destruct (IH s1') as [-> ->]; [tauto..|done|done].
Qed.

Lemma pretty_N_char_digit x : pretty_N_char x ≠ "_"%char.
Proof. unfold pretty_N_char. by repeat case_match. Qed.

Lemma pretty_N_go_no_underscore x s :
  ¬ occurs "_" s → ¬ occurs "_" (pretty_N_go x s).
Proof.
  revert s. induction (N.lt_wf_0 x) as [x _ IH]; intros s Hs.
  destruct (decide (x = 0)%N) as [->|Hx].
  - by rewrite pretty_N_go_0.
  - rewrite pretty_N_go_step by lia. apply IH.
    + apply N.div_lt; lia.
    + simpl. intros [E|?]; [|done]. by eapply pretty_N_char_digit.
Qed.

Lemma pretty_N_no_underscore (x : N) : ¬ occurs "_" (pretty x).
Proof.
  unfold pretty, pretty_N. case_decide.
  - simpl. intros Hc. destruct Hc as [Hc|[]]. discriminate Hc.
  - apply pretty_N_go_no_underscore. simpl. tauto.
Qed.

Lemma pretty_Z_no_underscore (z : Z) : ¬ occurs "_" (pretty z).
Proof.
  destruct z as [|p|p]; unfold pretty, pretty_Z.
  - simpl. intros Hc. destruct Hc as [Hc|[]]. discriminate Hc.
  - apply pretty_N_no_underscore.
  - simpl. intros Hc. destruct Hc as [Hc|Hc]; [discriminate Hc|].
    by apply pretty_N_no_underscore in Hc.
Qed.

Lemma make_request_id_inj a t a' t' :
  make_request_id a t = make_request_id a' t'
  ↔ a = a' ∧ timestamp_int t = timestamp_int t'.
Proof.
  unfold make_request_id. split; [|by intros [-> ->]].
  intros E.
  apply append_separator_inj in E as [Ea Et];
    [|apply pretty_Z_no_underscore..].
  split; by apply (inj pretty).
Qed.

(** ** Submission *)

Lemma dict_set_set {V} k (v : V) d : dict_set k v (dict_set k v d) = dict_set k v d.
Proof.
  induction d as [|[k' v'] d IH]; simpl.
  - by rewrite decide_True.
  - destruct (decide (k = k')); simpl.
    + by rewrite decide_True.
    + rewrite decide_False by done. by rewrite IH.
Qed.

Lemma callback_stores self inter reason contact delivery w :
  let w' := exec (VacationReasonModal_callback self inter reason contact
                    delivery) w in
  heap w' = heap w ++ [new_request self inter reason contact w]
  ∧ vacation_requests w'
    = dict_set (make_request_id (member_id (author inter)) (clock w))
               (length (heap w)) (vacation_requests w)
  ∧ clock w' = clock w
  ∧ vacation_data w' = vacation_data w
  ∧ views w' = views w
  ∧ vacation_stats w' = vacation_stats w.
Proof.
  intros w'. subst w'. wp_of_exec. unfold VacationReasonModal_callback.
  do 2 wp_next. wp_apply wp_get_config. intros w1 Hs1 _.
  unfold store_request. do 4 wp_next.
  assert (∀ r w2,
            same_stores
              {| clock := clock w1;
                 heap := heap w1 ++ [new_request self inter reason contact w];
                 vacation_requests :=
                   dict_set (make_request_id (member_id (author inter)) (clock w))
                            (length (heap w1)) (vacation_requests w1);
                 vacation_data := vacation_data w1;
                 vacation_stats := vacation_stats w1;
                 vacation_config := vacation_config w1;
                 vacation_config_default := vacation_config_default w1;
                 views := views w1; discord := discord w1 |} w2 →
            Post r w2) as HPost.
  { intros r w2 Hs2. destruct Hs1, Hs2. world_simpl_all. subst Post. cbn beta.
    split_and!; congruence. }
  wp_apply wp_the_guild; [intros g Hg|intros _; apply HPost, same_stores_refl].
  wp_apply wp_get_config. intros w2 Hs2 _.
  destruct delivery; wp_steps; try by apply HPost.
  world_simpl. apply wp_quiet; [solve_quiet|]. intros r w3 Hs3.
  assert (Post (Ok []) w3) as HP3; [|by destruct r; wp_steps].
  apply HPost. eapply same_stores_trans; [exact Hs2|].
  eapply same_stores_trans; [|exact Hs3].
  split; world_simpl; try done.
  destruct Hs2 as [_ _ Hreq _ _ _ _ _ _]. world_simpl_all.
  by rewrite Hreq, dict_set_set.
Qed.

(** C6, as the code has it.  A submission stores a new pending request
    under the id made of the author's id and of the second of the wall
    clock, leaving the entries of the other ids alone; two such ids are the
    same exactly when the authors are the same and the seconds are the
    same. *)
Theorem request_id_is_author_and_second :
  (∀ self inter reason contact delivery w,
     let rid := make_request_id (member_id (author inter)) (clock w) in
     let w' := exec (VacationReasonModal_callback self inter reason contact
                       delivery) w in
     dict_get rid (vacation_requests w') = Some (length (heap w))
     ∧ heap w' !! length (heap w)
       = Some (new_request self inter reason contact w)
     ∧ (∀ rid', rid' ≠ rid →
          dict_get rid' (vacation_requests w') = dict_get rid' (vacation_requests w)))
  ∧ (∀ a t a' t',
       make_request_id a t = make_request_id a' t'
       ↔ a = a' ∧ timestamp_int t = timestamp_int t').
Proof.
  split; [|apply make_request_id_inj].
  intros self inter reason contact delivery w rid w'.
  destruct (callback_stores self inter reason contact delivery w)
    as (Hheap & Hreq & _).
  fold w' in Hheap, Hreq. fold rid in Hreq. split_and!.
  - rewrite Hreq. apply dict_get_set_eq.
  - rewrite Hheap. by rewrite lookup_app_r, Nat.sub_diag.
  - intros rid' Hne. rewrite Hreq. by apply dict_get_set_ne.
Qed.

(** Alice and Carol submit in the same second: two ids, two entries. *)
Lemma request_id_is_author_and_second_witness :
  make_request_id 100 (Scenario.at_ 2024 1 10 12 0)
  ≠ make_request_id 300 (Scenario.at_ 2024 1 10 12 0).
Proof.
  destruct request_id_is_author_and_second as [_ Hinj].
  intros E. apply Hinj in E as [E _]. lia.
Defined.

(** C6 fails for one member submitting twice within a second: the second
    request takes the id of the first and replaces it in
    [vacation_requests]. *)
Lemma second_submission_in_the_same_second_overwrites :
  let t1 := mk_datetime (mk_date 2024 1 10) 12 0 0 100000 in
  let t2 := mk_datetime (mk_date 2024 1 10) 12 0 0 900000 in
  let w0 := fresh_world t1 Scenario.discord_up in
  let w1 := run [Submit Scenario.as_alice (Scenario.at_ 2024 1 12 0 0) 7
                        "first" "@alice" Sent] w0 in
  let w2 := run [Surroundings t2 Scenario.discord_up;
                 Submit Scenario.as_alice (Scenario.at_ 2024 2 20 0 0) 3
                        "second" "@alice" Sent] w1 in
  make_request_id 100 t1 = make_request_id 100 t2
  ∧ vacation_requests w1 = [("100_1704877200", 0%nat)]
  ∧ vacation_requests w2 = [("100_1704877200", 1%nat)]
  ∧ reason <$> heap w2 = ["first"; "second"].
Proof. by vm_compute. Qed.

(** ** The scheduler *)

Lemma audit_only_refl rs w : audit_only rs w w.
Proof. exists []. by rewrite app_nil_r. Qed.

Lemma audit_only_quiet rs w w' :
  audit_log (discord w') = audit_log (discord w) → audit_only rs w w'.
Proof. intros E. exists []. by rewrite E, app_nil_r. Qed.

Lemma wp_check_vacations_start gid vrid rid data w
    (Q : Outcome unit → World → Prop) :
  is_Some (find_guild w gid) →
  (∀ w', started_effects rid data w w' → Q (Ok tt) w') →
  wp (check_vacations_start gid vrid rid data) Q w.
Proof.
  intros Hg HQ. unfold check_vacations_start. do 2 wp_next.
  wp_apply wp_the_guild;
    [intros g Hg0|by intros E; rewrite E in Hg; destruct Hg].
  assert (Q (Ok tt) w) as HQ0.
  { apply HQ. split; auto using audit_only_refl. }
  destruct (get_member g (user_id (deref w data))) as [user|]; [|by wp_steps].
  destruct (truthy_id vrid); [|by wp_steps].
  apply wp_try_except.
  destruct (get_role g (int_of_id vrid)) as [vacation_role|]; [|by wp_steps].
  destruct (negb (has_role vacation_role user)); [|by wp_steps].
  do 2 wp_next. wp_apply wp_add_roles. intros r1 w1 [Hs1 Ha1] _ _.
  set (saved := map role_id _) in *.
  assert (∀ w2, same_stores w1 w2 →
                audit_log (discord w2) = audit_log (discord w1) →
                Q (Ok tt) w2) as HQ1.
  { intros w2 Hs2 Ha2. apply HQ. destruct Hs1, Hs2. world_simpl_all.
    split; try congruence.
    - right. exists saved. congruence.
    - left. congruence.
    - destruct Ha1 as (es & E & F). exists es. by rewrite Ha2. }
  destruct r1 as [[]|e];
    [|wp_steps; apply HQ1; [apply same_stores_refl|done]].
  do 2 wp_next. wp_apply wp_send_vacation_log. intros r2 w2 Hs2 Hd2 _ _ _.
  destruct r2 as [[]|e]; [|wp_steps; apply HQ1; [done|by rewrite Hd2]].
  unfold store_vacation. wp_steps. world_simpl.
  apply HQ. destruct Hs1, Hs2. world_simpl_all.
  split; world_simpl; try congruence.
  - right. exists saved. congruence.
  - right. congruence.
  - destruct Ha1 as (es & E & F). exists es. by rewrite Hd2.
Qed.

Lemma audit_only_trans rs w1 w2 w3 :
  audit_only rs w1 w2 → audit_only rs w2 w3 → audit_only rs w1 w3.
Proof.
  intros (es1 & E1 & F1) (es2 & E2 & F2). exists (es1 ++ es2).
  rewrite E2, E1, app_assoc. split; [done|]. by apply Forall_app.
Qed.

Lemma audit_only_weaken rs rs' w w' :
  rs ⊆ rs' → audit_only rs w w' → audit_only rs' w w'.
Proof.
  intros Hsub (es & E & F). exists es. split; [done|].
  eapply Forall_impl; [done|]. intros e He. by apply Hsub.
Qed.

(** Changes logged under other reasons leave the entries of [reason]. *)
Lemma audit_only_filter rs reason w w' :
  reason ∉ rs → audit_only rs w w' →
  List.filter (λ e, bool_decide (audit_reason e = reason))
              (audit_log (discord w'))
  = List.filter (λ e, bool_decide (audit_reason e = reason))
                (audit_log (discord w)).
Proof.
  intros Hnot (es & -> & F). rewrite List.filter_app.
  rewrite <- (app_nil_r (List.filter _ (audit_log (discord w)))) at 2.
  f_equal. induction F as [|e es He F IH]; simpl; [done|].
  rewrite bool_decide_eq_false_2; [done|]. intros E. by rewrite E in He.
Qed.

Lemma wp_check_vacations_end gid vrid rid data w
    (Q : Outcome unit → World → Prop) :
  is_Some (find_guild w gid) →
  (∀ r w',
     ended_effects rid data w w' →
     (head (api_failures (discord w)) = Some true →
      roles_grow w w'
      ∧ List.filter is_end_removal (audit_log (discord w'))
        = List.filter is_end_removal (audit_log (discord w))) →
     r = Ok tt ∨ r = Raise TypeError →
     Q r w') →
  wp (check_vacations_end gid vrid rid data) Q w.
Proof.
  intros Hg HQ. unfold check_vacations_end.
  do 2 wp_next.
  wp_apply wp_remove_vacation_role. intros r2 w2 He2 Hr2 Hfail2.
  rewrite Hr2 by done.
  assert (is_Some (find_guild w2 gid)) as Hg2
    by (eapply same_stores_find_guild; [apply He2|done]).
  wp_apply wp_restore_saved_roles. intros r3 w3 He3 Hgrow3 Hr3.
  rewrite Hr3 by done.
  assert (is_Some (find_guild w3 gid)) as Hg3
    by (eapply same_stores_find_guild; [apply He3|done]).
  unfold drop_vacation, store_request. do 8 wp_next.
  wp_apply wp_send_vacation_log. intros r4 w4 Hs4 Hd4 Hr4 _ _.
  apply HQ.
  - destruct He2 as [Hs2 Ha2], He3 as [Hs3 Ha3].
    destruct Hs2, Hs3, Hs4. world_simpl_all.
    split; try congruence.
    + rewrite_fields. by rewrite dict_del_guarded.
    + eapply audit_only_trans.
      * eapply audit_only_weaken; [|exact Ha2].
        intros x. rewrite !elem_of_cons. tauto.
      * eapply audit_only_trans.
        -- eapply audit_only_weaken; [|exact Ha3].
           intros x. rewrite !elem_of_cons. tauto.
        -- apply audit_only_quiet. by rewrite Hd4.
  - intros Hfail. destruct (Hfail2 Hfail) as [Hguilds Haudit]. split.
    + eapply roles_grow_trans; [by apply roles_grow_guilds|].
      eapply roles_grow_trans; [exact Hgrow3|].
      apply roles_grow_guilds. by rewrite Hd4.
    + rewrite Hd4. world_simpl. rewrite <- Haudit.
      apply (audit_only_filter [REASON_RESTORE] REASON_END w2 w3);
        [|apply He3].
      rewrite list_elem_of_singleton. by vm_compute.
  - apply Hr4. erewrite find_guild_discord; [exact Hg3|done].
Qed.

(** The three ways of a round of the scheduler over one request. *)
Lemma wp_check_vacations_request gid config now rid data w
    (Q : Outcome unit → World → Prop) :
  is_Some (find_guild w gid) →
  let d := deref w data in
  (status d ≠ approved
   ∨ (date_eqb (date_of (start_date d)) (date_of now) = false
      ∧ date_leb (date_of (end_date d)) (date_of now) = false) →
   Q (Ok tt) w) →
  (status d = approved →
   date_eqb (date_of (start_date d)) (date_of now) = true →
   ∀ w', started_effects rid data w w' → Q (Ok tt) w') →
  (status d = approved →
   date_eqb (date_of (start_date d)) (date_of now) = false →
   date_leb (date_of (end_date d)) (date_of now) = true →
   ∀ r w',
     ended_effects rid data w w' →
     (head (api_failures (discord w)) = Some true →
      roles_grow w w'
      ∧ List.filter is_end_removal (audit_log (discord w'))
        = List.filter is_end_removal (audit_log (discord w))) →
     r = Ok tt ∨ r = Raise TypeError →
     Q r w') →
  wp (check_vacations_request gid config now (rid, data)) Q w.
Proof.
  intros Hg d Hskip Hstart Hend. unfold check_vacations_request.
  do 2 wp_next. fold d.
  destruct (decide (status d = approved)) as [Hst|Hst].
  - rewrite bool_decide_eq_true_2 by done. cbn [negb].
    destruct (date_eqb _ _) eqn:Heq.
    + apply wp_check_vacations_start; [done|]. by apply Hstart.
    + destruct (date_leb _ _) eqn:Hle.
      * apply wp_check_vacations_end; [done|]. by apply Hend.
      * apply wp_ret. apply Hskip. by right.
  - rewrite bool_decide_eq_false_2 by done. cbn [negb].
    apply wp_ret. apply Hskip. by left.
Qed.

(** Dates *)

Lemma _cmp_antisym x y : _cmp y x = CompOpp (_cmp x y).
Proof.
  revert y. induction x as [|a x IH]; intros [|b y]; simpl; try done.
  rewrite (Z.compare_antisym a b). destruct (a ?= b); simpl; auto.
Qed.

Lemma date_ltb_not_eqb a b : date_ltb a b = true → date_eqb b a = false.
Proof.
  unfold date_ltb, date_eqb. rewrite (_cmp_antisym (date_fields a)).
  by destruct (_cmp (date_fields a) (date_fields b)).
Qed.

Lemma date_ltb_not_leb a b : date_ltb a b = true → date_leb b a = false.
Proof.
  unfold date_ltb, date_leb. rewrite (_cmp_antisym (date_fields a)).
  by destruct (_cmp (date_fields a) (date_fields b)).
Qed.

Lemma find_guild_known w gid :
  gid ∈ map guild_id (guilds (discord w)) → is_Some (find_guild w gid).
Proof.
  unfold find_guild. induction (guilds (discord w)) as [|g gs IH]; simpl.
  - by intros ?%elem_of_nil.
  - intros [->|H]%elem_of_cons.
    + rewrite Z.eqb_refl. by eexists.
    + destruct (guild_id g =? gid); [by eexists|by apply IH].
Qed.

(** What every round keeps, the whole pass keeps. *)
Lemma check_vacations_keeps (K : World → Prop) :
  (∀ w w', same_stores w w' → K w → K w') →
  (∀ rid data w w',
     K w → status (deref w data) = approved →
     date_eqb (date_of (start_date (deref w data))) (date_of (clock w)) = true →
     started_effects rid data w w' → K w') →
  (∀ rid data w w',
     K w → status (deref w data) = approved →
     date_eqb (date_of (start_date (deref w data))) (date_of (clock w)) = false →
     date_leb (date_of (end_date (deref w data))) (date_of (clock w)) = true →
     ended_effects rid data w w' → K w') →
  ∀ w, K w → K (exec check_vacations w).
Proof.
  intros Hsame Hstart Hend w HK. wp_of_exec. unfold check_vacations.
  do 2 wp_next. set (ids := map guild_id (guilds (discord w))).
  eapply wp_mono;
    [|apply (wp_for_each
               (λ w0, K w0 ∧ map guild_id (guilds (discord w0)) = ids))].
  - intros r w' [HK' _]. by subst Post.
  - done.
  - intros gid w0 Hgid [HK0 Hids0]. unfold check_vacations_guild.
    wp_apply wp_get_config. intros w1 Hs1 Hd1. do 5 wp_next.
    assert (K w1 ∧ map guild_id (guilds (discord w1)) = ids
            ∧ clock w1 = clock w1) as HI1.
    { split_and!; [by eapply Hsame|by rewrite Hd1|done]. }
    eapply wp_mono;
      [|apply (wp_for_each
                 (λ w2, K w2 ∧ map guild_id (guilds (discord w2)) = ids
                        ∧ clock w2 = clock w1)); [exact HI1|]].
    + intros [[]|e] w2 (HK2 & Hids2 & _); cbn beta iota; [|done].
      apply wp_quiet; [solve_quiet|]. intros r w3 Hs3.
      split; [by eapply Hsame|]. destruct Hs3. congruence.
    + intros [rid data] w2 _ (HK2 & Hids2 & Hc2).
      apply wp_check_vacations_request.
      * apply find_guild_known. by rewrite Hids2.
      * done.
      * intros Hst Heq w3 [] . rewrite <- Hc2 in Heq.
        split_and!; [|congruence..].
        eapply Hstart; [exact HK2|done|done|by split].
      * intros Hst Heq Hle r w3 [] _ _. rewrite <- Hc2 in Heq, Hle.
        split_and!; [|congruence..].
        eapply Hend; [exact HK2|done|done|done|by split].
Qed.

Lemma deref_alter_proj {A} (proj : Request → A) w w' f l :
  heap w' = alter f l (heap w) →
  (∀ d, proj (f d) = proj d) →
  proj (deref w' l) = proj (deref w l).
Proof.
  intros Hheap Hproj. unfold deref. rewrite Hheap, list_lookup_alter_eq.
  by destruct (heap w !! l); simpl.
Qed.

Lemma deref_alter_ne w w' f l l' :
  heap w' = alter f l (heap w) → l ≠ l' → deref w' l' = deref w l'.
Proof.
  intros Hheap Hne. unfold deref. by rewrite Hheap, list_lookup_alter_ne.
Qed.

Lemma deref_same_heap w w' l : heap w' = heap w → deref w' l = deref w l.
Proof. unfold deref. by intros ->. Qed.

Lemma REASON_START_other :
  REASON_START ∉ [REASON_END; REASON_RESTORE].
Proof. rewrite !elem_of_cons, elem_of_nil. by vm_compute; intros [|[|[]]]. Qed.

Lemma REASON_END_other : REASON_END ∉ [REASON_START].
Proof. rewrite !elem_of_cons, elem_of_nil. by vm_compute; intros [|[]]. Qed.

(** C4. A round of the lifecycle pass at the time [now] neither captures
    the roles of a member nor grants the vacation role for a request whose
    start date is after the date of [now], and neither completes a request
    nor removes the vacation role for a request whose end date is after the
    date of [now]; over a whole pass no request that starts later has its
    role snapshot written and no request that ends later changes status. *)
Theorem scheduler_never_acts_early :
  (∀ gid config rid data w,
     is_Some (find_guild w gid) →
     let d := deref w data in
     let w' := exec (check_vacations_request gid config (clock w) (rid, data))
                    w in
     (date_ltb (date_of (clock w)) (date_of (start_date d)) = true →
      saved_roles (deref w' data) = saved_roles d
      ∧ List.filter is_start_grant (audit_log (discord w'))
        = List.filter is_start_grant (audit_log (discord w)))
     ∧ (date_ltb (date_of (clock w)) (date_of (end_date d)) = true →
        status (deref w' data) = status d
        ∧ List.filter is_end_removal (audit_log (discord w'))
          = List.filter is_end_removal (audit_log (discord w))))
  ∧ (∀ w data,
       let d := deref w data in
       let w' := exec check_vacations w in
       (date_ltb (date_of (clock w)) (date_of (start_date d)) = true →
        saved_roles (deref w' data) = saved_roles d)
       ∧ (date_ltb (date_of (clock w)) (date_of (end_date d)) = true →
          status (deref w' data) = status d)).
Proof.
  split.
  - intros gid config rid data w Hg d w'. subst w'. wp_of_exec.
    apply wp_check_vacations_request; [done|..]; fold d.
    + by intros _.
    + intros Hst Heq w' []. subst Post. cbn beta. split.
      * intros Hlt. apply date_ltb_not_eqb in Hlt. congruence.
      * intros _. split.
        -- destruct started_heap0 as [E|[saved E]].
           ++ by rewrite (deref_same_heap _ _ _ E).
           ++ by apply (deref_alter_proj status _ _ _ _ E).
        -- by apply (audit_only_filter [REASON_START] REASON_END w w'),
             started_audit0; apply REASON_END_other.
    + intros Hst Heq Hle r w' [] _ _. subst Post. cbn beta. split.
      * intros _. split.
        -- by apply (deref_alter_proj saved_roles _ _ _ _ ended_heap0).
        -- by apply (audit_only_filter [REASON_END; REASON_RESTORE]
                       REASON_START w w'), ended_audit0;
             apply REASON_START_other.
      * intros Hlt. apply date_ltb_not_leb in Hlt. congruence.
  - intros w data d w'.
    set (K := λ w0 : World,
           clock w0 = clock w
           ∧ start_date (deref w0 data) = start_date d
           ∧ end_date (deref w0 data) = end_date d
           ∧ (date_ltb (date_of (clock w)) (date_of (start_date d)) = true →
              saved_roles (deref w0 data) = saved_roles d)
           ∧ (date_ltb (date_of (clock w)) (date_of (end_date d)) = true →
              status (deref w0 data) = status d)).
    cut (K w'); [by intros (_ & _ & _ & ? & ?)|].
    apply check_vacations_keeps; [..|by unfold K].
    + intros w0 w1 Hs (Hc & Hsd & Hed & Hsaved & Hstatus).
      unfold K. rewrite (same_stores_deref _ _ _ Hs).
      split; [|done]. destruct Hs. congruence.
    + intros rid l w0 w1 (Hc & Hsd & Hed & Hsaved & Hstatus) Hst Heq [].
      unfold K. split; [congruence|].
      destruct started_heap0 as [E|[saved E]].
      { by rewrite (deref_same_heap _ _ _ E). }
      destruct (decide (l = data)) as [->|Hne];
        [|by rewrite (deref_alter_ne _ _ _ _ _ E Hne)].
      rewrite (deref_alter_proj start_date _ _ _ _ E),
        (deref_alter_proj end_date _ _ _ _ E),
        (deref_alter_proj status _ _ _ _ E) by done.
      split_and!; try done.
      intros Hlt. apply date_ltb_not_eqb in Hlt. congruence.
    + intros rid l w0 w1 (Hc & Hsd & Hed & Hsaved & Hstatus) Hst Heq Hle [].
      unfold K. split; [congruence|].
      destruct (decide (l = data)) as [->|Hne];
        [|by rewrite (deref_alter_ne _ _ _ _ _ ended_heap0 Hne)].
      rewrite (deref_alter_proj start_date _ _ _ _ ended_heap0),
        (deref_alter_proj end_date _ _ _ _ ended_heap0),
        (deref_alter_proj saved_roles _ _ _ _ ended_heap0) by done.
      split_and!; try done.
      intros Hlt. apply date_ltb_not_leb in Hlt. congruence.
Qed.

(** Before the start date the pass leaves the request alone. *)
Lemma scheduler_never_acts_early_witness :
  let w := Scenario.later (Scenario.at_ 2024 1 11 0 10) Scenario.approved_world in
  let w' := exec check_vacations w in
  saved_roles (deref w' 0%nat) = [] ∧ status (deref w' 0%nat) = approved.
Proof.
  intros w w'. destruct scheduler_never_acts_early as [_ Hpass].
  destruct (Hpass w 0%nat) as [Hsaved Hstatus]. fold w' in Hsaved, Hstatus.
  split.
  - rewrite Hsaved; by vm_compute.
  - rewrite Hstatus; by vm_compute.
Defined.

(** C2, as the code has it.  When the end of a vacation is due and the call
    that removes the vacation role fails, the failure is swallowed: the
    request is completed all the same, it leaves [vacation_data], so that
    no later pass comes back to it, it is stored in [vacation_requests],
    no removal is logged and the member keeps the vacation role. *)
Theorem failed_revoke_still_completes gid config rid data w :
  is_Some (find_guild w gid) →
  let d := deref w data in
  let role := int_of_id (vacation_role_id config) in
  let w' := exec (check_vacations_request gid config (clock w) (rid, data)) w in
  heap w !! data = Some d →
  status d = approved →
  date_eqb (date_of (start_date d)) (date_of (clock w)) = false →
  date_leb (date_of (end_date d)) (date_of (clock w)) = true →
  holds_role w gid (user_id d) role →
  head (api_failures (discord w)) = Some true →
  status (deref w' data) = completed
  ∧ vacation_data w' = dict_del rid (vacation_data w)
  ∧ dict_get rid (vacation_requests w') = Some data
  ∧ holds_role w' gid (user_id d) role
  ∧ List.filter is_end_removal (audit_log (discord w'))
    = List.filter is_end_removal (audit_log (discord w)).
Proof.
  intros Hg d role w' Hd Hst Heq Hle Hrole Hfail. subst w'. wp_of_exec.
  apply wp_check_vacations_request; [done|..]; fold d.
  - intros [?|[_ ?]]; congruence.
  - congruence.
  - intros _ _ _ r w' [] Hkeep _. destruct (Hkeep Hfail) as [Hgrow Haudit].
    subst Post. cbn beta. split_and!.
    + unfold deref. by rewrite ended_heap0, list_lookup_alter_eq, Hd.
    + done.
    + rewrite ended_requests0. apply dict_get_set_eq.
    + by apply Hgrow.
    + done.
Qed.

Lemma failed_revoke_still_completes_witness :
  let w := Scenario.api_down
             (Scenario.later (Scenario.at_ 2024 1 19 0 10) Scenario.active_world) in
  let w' := exec (check_vacations_request 1 (config_of w 1) (clock w)
                    (Scenario.alice_request, 0%nat)) w in
  status (deref w' 0%nat) = completed
  ∧ vacation_data w' = []
  ∧ holds_role w' 1 100 900.
Proof.
  intros w w'.
  destruct (failed_revoke_still_completes 1 (config_of w 1)
              Scenario.alice_request 0%nat w)
    as (Hst & Hdata & _ & Hrole & _).
  - by_compute.
  - by_compute.
  - by_compute.
  - by_compute.
  - by_compute.
  - unfold holds_role. eexists _, _.
    split_and!; vm_compute; reflexivity.
  - by_compute.
  - split_and!; [exact Hst| |exact Hrole].
    fold w' in Hdata. rewrite Hdata. by vm_compute.
Defined.

(** C2 fails: Discord refuses the removal of the role on the day the
    vacation ends, and the pass still completes the request and takes it
    out of [vacation_data]; the next pass has nothing to retry. *)
Lemma failed_revoke_is_not_retried :
  let w := Scenario.api_down
             (Scenario.later (Scenario.at_ 2024 1 19 0 10) Scenario.active_world) in
  let w1 := exec check_vacations w in
  let w2 := exec check_vacations
              (Scenario.later (Scenario.at_ 2024 1 19 0 40) w1) in
  status (deref w 0%nat) = approved
  ∧ dict_get Scenario.alice_request (vacation_data w) = Some 0%nat
  ∧ api_failures (discord w1) = []
  ∧ status (deref w1 0%nat) = completed
  ∧ dict_get Scenario.alice_request (vacation_data w1) = None
  ∧ (roles <$> get_member Scenario.guild1 100
     = Some [Scenario.STAFF; Scenario.BOOSTER])
  ∧ (find_guild w2 1 ≫= λ g, roles <$> get_member g 100)
    = Some [Scenario.STAFF; Scenario.BOOSTER; Scenario.VACATION]
  ∧ audit_log (discord w2) = audit_log (discord w).
Proof. by vm_compute. Qed.

(** ** The invariant of the stores *)

Lemma review_checked w l :
  Forall review_consistent (heap w) →
  status (deref w l) ≠ pending → status (deref w l) ≠ cancelled →
  ∃ d, heap w !! l = Some d ∧ decided d.
Proof.
  intros Hh Hp Hc. unfold deref in *.
  destruct (heap w !! l) as [d|] eqn:Hd; simpl in *; [|done].
  exists d. split; [done|].
  rewrite Forall_lookup in Hh.
  destruct (Hh _ _ Hd) as [[_ [?|?]]|?]; done.
Qed.

Lemma approved_checked w l :
  Forall review_consistent (heap w) →
  status (deref w l) = approved →
  ∃ d, heap w !! l = Some d ∧ decided d ∧ status d = approved.
Proof.
  intros Hh Hst.
  destruct (review_checked w l Hh) as (d & Hd & Hdec); [by rewrite Hst..|].
  exists d. split_and!; [done..|]. by rewrite <- (deref_lookup _ _ _ Hd).
Qed.

Section stores_ok.
Context (h : list Request) (requests data : dict loc)
        (vs : list VacationSelectView).
Hypothesis Hok : stores_ok h requests data vs.

Lemma stores_ok_alter f l :
  (∀ d, h !! l = Some d → review_consistent d →
        review_consistent (f d) ∧ (decided d → decided (f d))) →
  stores_ok (alter f l h) requests data vs.
Proof.
  intros Hf. destruct Hok as [Hh Hr Hd Hv].
  assert (∀ l' d, h !! l' = Some d → decided d →
                  ∃ d', alter f l h !! l' = Some d' ∧ decided d') as Hkeep.
  { intros l' d Hl' Hdec. destruct (decide (l = l')) as [->|Hne].
    - rewrite list_lookup_alter_eq, Hl'. eexists. split; [done|].
      apply Hf; [done| |done]. by right.
    - rewrite list_lookup_alter_ne by done. by exists d. }
  split.
  - rewrite Forall_lookup in *. intros i d.
    destruct (decide (l = i)) as [->|Hne].
    + rewrite list_lookup_alter_eq.
      destruct (h !! i) as [d0|] eqn:Hi; simpl; [|done].
      intros [= <-]. apply Hf; [done|]. by eapply Hh.
    + rewrite list_lookup_alter_ne by done. apply Hh.
  - intros rid l' Hin. apply lookup_lt_is_Some. rewrite length_alter.
    apply lookup_lt_is_Some. by eapply Hr.
  - intros rid l' Hin. destruct (Hd _ _ Hin) as (d & ? & ?). by eapply Hkeep.
  - intros v rid l' Hin Hin'.
    destruct (Hv _ _ _ Hin Hin') as (d & ? & ?). by eapply Hkeep.
Qed.

Lemma stores_ok_alloc d :
  review_consistent d → stores_ok (h ++ [d]) requests data vs.
Proof.
  intros Hd. destruct Hok as [Hh Hr Hd' Hv]. split.
  - apply Forall_app. by split; [|apply Forall_singleton].
  - intros rid l Hin. destruct (Hr _ _ Hin) as [d0 E].
    exists d0. by apply lookup_app_l_Some.
  - intros rid l Hin. destruct (Hd' _ _ Hin) as (d0 & E & ?).
    exists d0. split; [by apply lookup_app_l_Some|done].
  - intros v rid l Hin Hin'. destruct (Hv _ _ _ Hin Hin') as (d0 & E & ?).
    exists d0. split; [by apply lookup_app_l_Some|done].
Qed.

Lemma stores_ok_store_request rid l :
  is_Some (h !! l) → stores_ok h (dict_set rid l requests) data vs.
Proof.
  intros Hl. destruct Hok as [Hh Hr Hd Hv]. split; [done| |done..].
  intros rid' l' [[= -> ->]|Hin]%elem_of_dict_set; [done|by eapply Hr].
Qed.

Lemma stores_ok_store_vacation rid l :
  (∃ d, h !! l = Some d ∧ decided d) →
  stores_ok h requests (dict_set rid l data) vs.
Proof.
  intros Hl. destruct Hok as [Hh Hr Hd Hv]. split; [done..| |done].
  intros rid' l' [[= -> ->]|Hin]%elem_of_dict_set; [done|by eapply Hd].
Qed.

Lemma stores_ok_drop_vacation rid :
  stores_ok h requests (dict_del rid data) vs.
Proof.
  destruct Hok as [Hh Hr Hd Hv]. split; [done..| |done].
  intros rid' l' Hin%elem_of_dict_del. by eapply Hd.
Qed.

Lemma stores_ok_view v :
  (∀ rid l, (rid, l) ∈ vacations v → ∃ d, h !! l = Some d ∧ decided d) →
  stores_ok h requests data (vs ++ [v]).
Proof.
  intros Hl. destruct Hok as [Hh Hr Hd Hv]. split; [done..|].
  intros v' rid l [Hin| ->%list_elem_of_singleton]%elem_of_app;
    [by eapply Hv|apply Hl].
Qed.
End stores_ok.

Lemma store_inv_eq w h requests data vs :
  heap w = h → vacation_requests w = requests → vacation_data w = data →
  views w = vs → stores_ok h requests data vs → store_inv w.
Proof. unfold store_inv. by intros -> -> -> ->. Qed.

Lemma store_inv_same_stores w w' : same_stores w w' → store_inv w → store_inv w'.
Proof. intros [] H. eapply store_inv_eq; [done..|exact H]. Qed.

Lemma store_inv_fresh now x : store_inv (fresh_world now x).
Proof.
  split; simpl; [by apply Forall_nil|intros ? ? H; by apply elem_of_nil in H..|].
  intros ? ? ? H. by apply elem_of_nil in H.
Qed.

Lemma decided_approved_by reviewer now comment d :
  decided (approved_by reviewer now comment d).
Proof. split_and!; [by eexists|by eexists|done|done|left; by eexists]. Qed.

Lemma decided_denied_by reviewer now reason d :
  decided (denied_by reviewer now reason d).
Proof. split_and!; [by eexists|by eexists|done|done|right; by eexists]. Qed.

Lemma decided_returned_early by_ now d :
  decided d → decided (returned_early by_ now d).
Proof. intros (? & ? & _ & _ & ?). by split_and!. Qed.

Lemma keeps_review_consistent f d :
  keeps_review f →
  review_consistent d → review_consistent (f d) ∧ (decided d → decided (f d)).
Proof.
  intros Hf. destruct (Hf d) as (Hs & Hb & Ha & Hc & Hr).
  unfold review_consistent, review_absent, decided.
  rewrite Hs, Hb, Ha, Hc, Hr. tauto.
Qed.

Lemma keeps_review_set_key k v : keeps_review (set_key k v).
Proof. by intros d. Qed.

Lemma keeps_review_set_saved_roles saved : keeps_review (set_saved_roles saved).
Proof. by intros d. Qed.

Lemma exec_discard {A} (m : M A) w : exec (discard m) w = exec m w.
Proof.
  unfold exec, discard, mbind, M_bind, bind. by destruct (m w) as [[?|?] ?].
Qed.

Lemma store_inv_callback self inter reason contact delivery w :
  store_inv w →
  store_inv (exec (VacationReasonModal_callback self inter reason contact
                     delivery) w).
Proof.
  intros Hinv.
  destruct (callback_stores self inter reason contact delivery w)
    as (Hh & Hr & _ & Hd & Hv & _).
  eapply store_inv_eq; [done..|].
  apply stores_ok_store_request; [apply stores_ok_alloc; [done|]|].
  - left. split; [done|by left].
  - rewrite lookup_app_r, Nat.sub_diag by done. by eexists.
Qed.

Lemma store_inv_approve inter rid comment w :
  store_inv w → store_inv (exec (approve_vacation inter rid comment) w).
Proof.
  intros Hinv. destruct (dict_get rid (vacation_requests w)) as [data|] eqn:Hrid.
  2: { unfold exec. by rewrite (proj1 (review_of_unknown inter rid comment w Hrid)). }
  destruct (inv_requests _ _ _ _ Hinv rid data) as [d Hd];
    [by apply dict_get_elem_of|].
  destruct (decide (status d = pending)) as [Hst|Hst].
  2: { unfold exec.
       by rewrite (proj1 (review_of_decided inter rid comment w data d Hrid Hd Hst)). }
  destruct (approve_vacation_pending inter rid comment w data d Hrid Hd Hst)
    as (Hh & _ & Hr & Hdt & Hv & _).
  eapply store_inv_eq; [done..|].
  apply stores_ok_store_vacation.
  - apply stores_ok_alter; [done|]. intros d0 _ _.
    split; [right|intros _]; apply decided_approved_by.
  - rewrite list_lookup_alter_eq, Hd. eexists. split; [done|].
    apply decided_approved_by.
Qed.

Lemma store_inv_deny inter rid reason w :
  store_inv w → store_inv (exec (deny_vacation inter rid reason) w).
Proof.
  intros Hinv. destruct (dict_get rid (vacation_requests w)) as [data|] eqn:Hrid.
  2: { unfold exec. by rewrite (proj2 (review_of_unknown inter rid reason w Hrid)). }
  destruct (inv_requests _ _ _ _ Hinv rid data) as [d Hd];
    [by apply dict_get_elem_of|].
  destruct (decide (status d = pending)) as [Hst|Hst].
  2: { unfold exec.
       by rewrite (proj2 (review_of_decided inter rid reason w data d Hrid Hd Hst)). }
  destruct (deny_vacation_pending inter rid reason w data d Hrid Hd Hst)
    as (Hh & _ & Hr & Hdt & Hv & _).
  eapply store_inv_eq; [done..|].
  apply stores_ok_alter; [done|]. intros d0 _ _.
  split; [right|intros _]; apply decided_denied_by.
Qed.

Lemma wp_early_return_vacation_inv inter rid data w d
    (Q : Outcome (list string) → World → Prop) :
  store_inv w → heap w !! data = Some d → decided d →
  (∀ r w', store_inv w' → Q r w') →
  wp (early_return_vacation inter rid data) Q w.
Proof.
  intros Hinv Hd Hdec HQ.
  destruct (find_guild w (inter_guild_id inter)) as [g|] eqn:Hg.
  2: { apply wp_intro. unfold result, exec.
       rewrite (early_return_vacation_unknown _ _ _ _ Hg). by apply HQ. }
  eapply wp_early_return_vacation; [done|by eexists|].
  intros r w' Hh _ Hr Hdt Hv _ _ _ _. apply HQ.
  eapply store_inv_eq; [done..|]. rewrite dict_del_guarded.
  apply stores_ok_drop_vacation, stores_ok_store_request.
  - apply stores_ok_alter; [done|]. intros d0 Hd0 _.
    assert (d0 = d) as -> by congruence.
    split; [right|intros _]; by apply decided_returned_early.
  - rewrite list_lookup_alter_eq, Hd. by eexists.
Qed.

Lemma store_inv_return inter w :
  store_inv w → store_inv (exec (return_from_vacation inter) w).
Proof.
  intros Hinv. wp_of_exec. unfold return_from_vacation. do 2 wp_next.
  assert (∀ rid l, (rid, l) ∈ user_vacations w (member_id (author inter)) →
                   ∃ d, heap w !! l = Some d ∧ decided d) as Hfound.
  { intros rid l Hin%user_vacations_elem_of. by eapply inv_data. }
  destruct (user_vacations w (member_id (author inter)))
    as [|[rid l] [|item found]] eqn:E.
  - by wp_steps.
  - destruct (Hfound rid l) as (d & Hd & Hdec); [by left|].
    by eapply wp_early_return_vacation_inv.
  - do 3 wp_next. subst Post; cbn beta.
    eapply store_inv_eq; [done..|]. apply stores_ok_view; [done|].
    intros rid' l'. apply Hfound.
Qed.

Lemma store_inv_select i inter value w :
  store_inv w → store_inv (exec (run_event (Select i inter value)) w).
Proof.
  intros Hinv. wp_of_exec. unfold run_event. do 2 wp_next.
  destruct (views w !! i) as [view|] eqn:Hview; [|by wp_steps].
  unfold discard, select_callback.
  destruct (find _ (vacations view)) as [[rid l]|] eqn:Hfind; [|by wp_steps].
  apply find_elem_of in Hfind as Hin.
  destruct (inv_views _ _ _ _ Hinv view rid l) as (d & Hd & Hdec);
    [by eapply list_elem_of_lookup_2|done|].
  destruct (decide (action view = "return")); cbn beta iota. 2: by wp_steps.
  apply wp_bind. eapply wp_early_return_vacation_inv; [done..|].
  intros [?|?] w' Hinv'; by wp_steps.
Qed.

Lemma alter_decided (h : list Request) f l d :
  h !! l = Some d → decided (f d) →
  ∃ d', alter f l h !! l = Some d' ∧ decided d'.
Proof.
  intros Hd Hdec. rewrite list_lookup_alter_eq, Hd. by eexists.
Qed.

Lemma store_inv_force inter действие пользователь w :
  store_inv w →
  store_inv (exec (vacation_force inter действие пользователь) w).
Proof.
  intros Hinv. wp_of_exec. unfold vacation_force. do 2 wp_next.
  destruct (active_vacation w _) as [[rid l]|] eqn:Hfind; [|by wp_steps].
  pose proof (find_elem_of _ _ _ Hfind) as Hin.
  destruct (inv_data _ _ _ _ Hinv rid l Hin) as (d & Hd & Hdec).
  destruct (decide (действие = "завершить")); cbn beta iota.
  { apply wp_bind. eapply wp_early_return_vacation_inv; [done..|].
    intros [?|?] w' Hinv'; by wp_steps. }
  destruct (decide (действие = "отозвать")); cbn beta iota; [|by wp_steps].
  do 4 wp_next. destruct (date_leb _ _); [by wp_steps|].
  do 8 wp_next. unfold store_request, drop_vacation. do 4 wp_next.
  wp_apply wp_update_vacation_stats. world_simpl.
  apply wp_quiet; [solve_quiet|]. intros r w' Hs. subst Post; cbn beta.
  eapply store_inv_same_stores; [exact Hs|].
  eapply store_inv_eq; [done..|]. world_simpl.
  rewrite dict_del_guarded, !list_alter_alter_eq.
  apply stores_ok_drop_vacation, stores_ok_store_request.
  - apply stores_ok_alter; [done|]. intros d0 Hd0 _.
    assert (d0 = d) as -> by congruence.
    destruct Hdec as (? & ? & ? & ? & ?).
    split; [right|intros _]; by split_and!.
  - rewrite list_lookup_alter_eq, Hd. by eexists.
Qed.

Lemma store_inv_update_config gid kwargs w :
  store_inv w → store_inv (exec (update_config gid kwargs) w).
Proof.
  intros Hinv. wp_of_exec. unfold update_config.
  wp_apply wp_get_config. intros w1 Hs1 _. do 3 wp_next.
  subst Post; cbn beta. eapply store_inv_eq; [done..|]. world_simpl.
  by apply (store_inv_same_stores w w1).
Qed.

Lemma store_inv_check_vacations w :
  store_inv w → store_inv (exec check_vacations w).
Proof.
  apply (check_vacations_keeps store_inv).
  - apply store_inv_same_stores.
  - intros rid data w0 w' Hinv Hst _ [Hh Hr Hd _ _ Hv _ _].
    destruct (approved_checked w0 data (inv_heap _ _ _ _ Hinv) Hst)
      as (d & Hl & Hdec & _).
    assert (stores_ok (heap w') (vacation_requests w0) (vacation_data w0)
              (views w0)) as Hok.
    { destruct Hh as [->| [saved ->]]; [done|].
      apply stores_ok_alter; [done|]. intros d0 _.
      apply keeps_review_consistent, keeps_review_set_saved_roles. }
    eapply store_inv_eq; [done..|].
    destruct Hd as [->| ->]; [done|].
    apply stores_ok_store_vacation; [done|].
    destruct Hh as [->| [saved ->]]; [by exists d|].
    eapply alter_decided; [done|].
    by apply (keeps_review_consistent _ d (keeps_review_set_saved_roles saved));
      [right|].
  - intros rid data w0 w' Hinv Hst _ _ [Hh Hr Hd _ _ Hv _ _].
    destruct (approved_checked w0 data (inv_heap _ _ _ _ Hinv) Hst)
      as (d & Hl & Hdec & _).
    eapply store_inv_eq; [done..|].
    apply stores_ok_drop_vacation, stores_ok_store_request.
    + apply stores_ok_alter; [done|]. intros d0 Hd0 _.
      assert (d0 = d) as -> by congruence.
      destruct Hdec as (? & ? & ? & ? & ?).
      split; [right|intros _]; by split_and!.
    + rewrite list_lookup_alter_eq, Hl. by eexists.
Qed.

Lemma wp_check_reminders_request_inv gid now item w :
  store_inv w →
  wp (check_reminders_request gid now item) (λ _ w', store_inv w') w.
Proof.
  intros Hinv. destruct item as [rid l]. unfold check_reminders_request.
  do 2 wp_next.
  destruct (decide (status (deref w l) = approved)) as [Hst|Hst];
    [rewrite bool_decide_eq_true_2 by done
    |rewrite bool_decide_eq_false_2 by done]; cbn [negb]; [|by wp_steps].
  destruct (approved_checked w l (inv_heap _ _ _ _ Hinv) Hst)
    as (d & Hl & Hdec & _).
  destruct (_ && _); [|by wp_steps].
  wp_apply wp_the_guild; [intros g Hg|done].
  destruct (get_member g _) as [user|]; [|by wp_steps].
  apply wp_try_except. wp_apply wp_api_call.
  intros r w1 _ Hh1 Hr1 Hd1 _ _ _ Hv1 _ _ _ _.
  assert (store_inv w1) as Hinv1 by (by eapply store_inv_eq).
  destruct r as [[]|e]; [|by wp_steps].
  unfold store_vacation. do 4 wp_next.
  apply wp_quiet; [solve_quiet|]. intros r w' Hs.
  assert (store_inv w'); [|destruct r; [done|by wp_steps]].
  eapply store_inv_same_stores; [exact Hs|].
  eapply store_inv_eq; [reflexivity..|]. world_simpl.
  rewrite <- Hh1 in Hl. apply stores_ok_store_vacation.
  - apply stores_ok_alter; [done|]. intros d0 _.
    apply keeps_review_consistent, keeps_review_set_key.
  - eapply alter_decided; [done|].
    by apply (keeps_review_consistent _ d (keeps_review_set_key _ _)); [right|].
Qed.

Lemma store_inv_check_reminders w :
  store_inv w → store_inv (exec check_reminders w).
Proof.
  intros Hinv. wp_of_exec. unfold check_reminders. do 4 wp_next.
  subst Post. apply (wp_for_each store_inv); [done|].
  intros gid w0 _ Hinv0. do 2 wp_next.
  apply (wp_for_each store_inv); [done|].
  intros item w1 _ Hinv1. by apply wp_check_reminders_request_inv.
Qed.

Lemma wp_check_auto_close_request_inv gid hours now rid l w
    (Q : Outcome unit → World → Prop) :
  store_inv w → is_Some (heap w !! l) →
  (∀ r w', store_inv w' → length (heap w') = length (heap w) → Q r w') →
  wp (check_auto_close_request gid hours now (rid, l)) Q w.
Proof.
  intros Hinv [d Hl] HQ. unfold check_auto_close_request. do 2 wp_next.
  rewrite (deref_lookup _ _ _ Hl).
  destruct (decide (status d = pending)) as [Hst|Hst];
    [rewrite bool_decide_eq_true_2 by done
    |rewrite bool_decide_eq_false_2 by done]; cbn [negb];
    [|wp_steps; by apply HQ].
  destruct (datetime_geb _ _); [|wp_steps; by apply HQ].
  do 6 wp_next. unfold store_request. do 2 wp_next.
  apply wp_quiet; [solve_quiet|]. intros r w' Hs. apply HQ.
  - eapply store_inv_same_stores; [exact Hs|].
    eapply store_inv_eq; [done..|]. world_simpl.
    rewrite !list_alter_alter_eq. apply stores_ok_store_request.
    + apply stores_ok_alter; [done|]. intros d0 Hd0 Hc.
      assert (d0 = d) as -> by congruence.
      destruct Hc as [[Habs _]|(_ & _ & Hp & _)]; [|done].
      split; [left; split; [exact Habs|by right]|].
      by intros (_ & _ & Hp & _).
    + rewrite list_lookup_alter_eq, Hl. by eexists.
  - rewrite (same_heap _ _ Hs). world_simpl. by rewrite !length_alter.
Qed.

Lemma store_inv_check_auto_close w :
  store_inv w → store_inv (exec check_auto_close w).
Proof.
  intros Hinv. wp_of_exec. unfold check_auto_close. do 4 wp_next.
  subst Post. apply (wp_for_each store_inv); [done|].
  intros gid w0 _ Hinv0. wp_apply wp_get_config. intros w1 Hs1 _.
  do 2 wp_next.
  assert (store_inv w1) as Hinv1 by (by eapply store_inv_same_stores).
  set (items := vacation_requests w1).
  eapply wp_mono;
    [|apply (wp_for_each
               (λ w2, store_inv w2
                      ∧ length (heap w2) = length (heap w1)) items)].
  - by intros r w2 [? _].
  - done.
  - intros [rid l] w2 Hin [Hinv2 Hlen].
    apply wp_check_auto_close_request_inv; [done| |].
    + apply lookup_lt_is_Some. rewrite Hlen. apply lookup_lt_is_Some.
      by eapply inv_requests.
    + intros r w3 Hinv3 Hlen3. split; [done|congruence].
Qed.

Lemma store_inv_run_event e w :
  store_inv w → store_inv (exec (run_event e) w).
Proof.
  intros Hinv. destruct e; simpl run_event; rewrite ?exec_discard.
  - by apply store_inv_callback.
  - by apply store_inv_approve.
  - by apply store_inv_deny.
  - by apply store_inv_return.
  - by apply store_inv_select.
  - by apply store_inv_force.
  - by apply store_inv_update_config.
  - by apply store_inv_check_vacations.
  - by apply store_inv_check_reminders.
  - by apply store_inv_check_auto_close.
  - done.
Qed.

Lemma store_inv_run events w : store_inv w → store_inv (run events w).
Proof.
  revert w. induction events as [|e events IH]; intros w Hinv; [done|].
  simpl. by apply IH, store_inv_run_event.
Qed.

(** C7, as the code has it. In every state the process reaches from empty
    files, a stored request id refers to a request dictionary whose review
    record (reviewer, decision time, comment, reason) is absent exactly when
    its status is pending or cancelled, the status an automatic close
    leaves; a request in any other status carries its reviewer, the time of
    the decision, and the comment of the approval or the reason of the
    refusal. *)
Theorem review_absent_iff_pending_or_auto_closed now x events rid data :
  let w := run events (fresh_world now x) in
  dict_get rid (vacation_requests w) = Some data →
  ∃ d, heap w !! data = Some d
       ∧ (review_absent d ↔ status d = pending ∨ status d = cancelled)
       ∧ (status d ≠ pending → status d ≠ cancelled →
          is_Some (reviewed_by d) ∧ is_Some (reviewed_at d)
          ∧ (is_Some (review_comment d) ∨ is_Some (deny_reason d))).
Proof.
  intros w Hrid.
  assert (store_inv w) as Hinv by apply store_inv_run, store_inv_fresh.
  destruct (inv_requests _ _ _ _ Hinv rid data) as [d Hd];
    [by apply dict_get_elem_of|].
  exists d. split; [done|].
  pose proof (inv_heap _ _ _ _ Hinv) as Hh. rewrite Forall_lookup in Hh.
  destruct (Hh _ _ Hd) as [[Habs Hst]|(Hby & Hat & Hp & Hc & Hwhy)].
  - split; [done|]. intros ? ?. by destruct Hst.
  - split; [|done]. split.
    + intros (E & _). rewrite E in Hby. by destruct Hby.
    + by intros [?|?].
Qed.

Lemma review_absent_iff_pending_or_auto_closed_witness :
  let w := run [Configure 1 Scenario.settings;
                Submit Scenario.as_alice (Scenario.at_ 2024 1 12 0 0) 7
                       "family" "@alice" Sent;
                Approve Scenario.as_bob Scenario.alice_request "ok"]
               (fresh_world (Scenario.at_ 2024 1 10 12 0) Scenario.discord_up) in
  dict_get Scenario.alice_request (vacation_requests w) = Some 0%nat
  ∧ ∃ d, heap w !! 0%nat = Some d
         ∧ (review_absent d ↔ status d = pending ∨ status d = cancelled)
         ∧ (status d ≠ pending → status d ≠ cancelled →
            is_Some (reviewed_by d) ∧ is_Some (reviewed_at d)
            ∧ (is_Some (review_comment d) ∨ is_Some (deny_reason d))).
Proof.
  intros w. split; [by vm_compute|].
  apply (review_absent_iff_pending_or_auto_closed
           (Scenario.at_ 2024 1 10 12 0) Scenario.discord_up
           [Configure 1 Scenario.settings;
            Submit Scenario.as_alice (Scenario.at_ 2024 1 12 0 0) 7
                   "family" "@alice" Sent;
            Approve Scenario.as_bob Scenario.alice_request "ok"]
           Scenario.alice_request 0%nat).
  by vm_compute.
Defined.

(** A request nobody reviewed within [auto_close_hours] is closed by
    [check_auto_close]: its status is cancelled, not pending, and it has no
    review record. *)
Lemma auto_closed_request_has_no_review :
  let w := run [Configure 1 Scenario.settings;
                Submit Scenario.as_alice (Scenario.at_ 2024 1 12 0 0) 7
                       "family" "@alice" Sent;
                Surroundings (Scenario.at_ 2024 1 11 13 0) Scenario.discord_up;
                CheckAutoClose]
               (fresh_world (Scenario.at_ 2024 1 10 12 0) Scenario.discord_up) in
  ∃ d, dict_get Scenario.alice_request (vacation_requests w) = Some 0%nat
       ∧ heap w !! 0%nat = Some d
       ∧ status d = cancelled
       ∧ review_absent d
       ∧ ¬ (review_absent d ↔ status d = pending).
Proof.
  eexists. split_and!; [by vm_compute..|].
  intros [Hp _]. by specialize (Hp ltac:(by vm_compute)).
Qed.

(** * Further properties of the module *)

(** ** Configuration *)

(** [update_config] then [get_config]: the guild reads what was written,
    every other guild reads what it read before, and nothing but the
    configuration table changes. *)
Theorem update_config_then_get_config gid kwargs w :
  let w' := exec (update_config gid kwargs) w in
  result (get_config gid) w' = Ok (kwargs (config_of w gid))
  ∧ exec (get_config gid) w' = w'
  ∧ (∀ gid', gid' ≠ gid → config_of w' gid' = config_of w gid')
  ∧ vacation_config_default w' = vacation_config_default w
  ∧ heap w' = heap w ∧ vacation_requests w' = vacation_requests w
  ∧ vacation_data w' = vacation_data w ∧ vacation_stats w' = vacation_stats w
  ∧ discord w' = discord w.
Proof.
  intros w'.
  assert (vacation_config w' !! pretty gid = Some (kwargs (config_of w gid))
          ∧ (∀ gid', gid' ≠ gid → config_of w' gid' = config_of w gid')
          ∧ vacation_config_default w' = vacation_config_default w
          ∧ heap w' = heap w ∧ vacation_requests w' = vacation_requests w
          ∧ vacation_data w' = vacation_data w
          ∧ vacation_stats w' = vacation_stats w
          ∧ discord w' = discord w) as (Hcfg & Hrest).
  { subst w'. wp_of_exec. unfold update_config.
    wp_apply wp_get_config. intros w1 Hs1 Hd1. do 3 wp_next.
    subst Post; cbn beta.
    destruct Hs1 as [Hclock Hheap Hreq Hdata Hstats Hviews Hdef Hcfg Hids].
    world_simpl. split_and!; try done.
    - apply lookup_insert_eq.
    - intros gid' Hne. unfold config_of; simpl.
      rewrite lookup_insert_ne by (by intros ?%(inj pretty)).
      pose proof (Hcfg gid') as E. unfold config_of in E.
      rewrite Hdef in E. by rewrite Hdef. }
  split_and!; try apply Hrest.
  - unfold result, get_config, mbind, M_bind, bind, gets. cbn beta iota.
    by rewrite Hcfg.
  - unfold exec, get_config, mbind, M_bind, bind, gets. cbn beta iota.
    by rewrite Hcfg.
Qed.

(** ** The usage ledger, further *)

Lemma ledger_update_cancelled_last uid days w :
  last_vacation <$> ledger (exec (update_vacation_stats uid days "cancelled") w)
                           (pretty uid) (strftime_Ym (clock w))
  = Some (ledger w (pretty uid) (strftime_Ym (clock w)) ≫= last_vacation).
Proof.
  unfold ledger, exec, update_vacation_stats; simpl.
  rewrite !lookup_insert_eq; simpl.
  destruct (vacation_stats w !! pretty uid) as [us|]; simpl;
    [destruct (us !! strftime_Ym (clock w)) eqn:?|]; simpl;
    by rewrite ?lookup_insert_eq, ?lookup_empty.
Qed.

(** A credit followed by a debit of the same days in the same month gives
    back the count and the total of the bucket; the date of the last
    vacation stays that of the credit. *)
Theorem credit_then_debit_restores_counters uid days w :
  let key := strftime_Ym (clock w) in
  let w1 := exec (update_vacation_stats uid days "taken") w in
  let w2 := exec (update_vacation_stats uid days "cancelled") w1 in
  0 ≤ ledger_count w uid key → 0 ≤ ledger_days w uid key →
  ledger_count w2 uid key = ledger_count w uid key
  ∧ ledger_days w2 uid key = ledger_days w uid key
  ∧ (last_vacation <$> ledger w2 (pretty uid) key) = Some (Some (clock w))
  ∧ ∀ u k, u ≠ pretty uid ∨ k ≠ key → ledger w2 u k = ledger w u k.
Proof.
  intros key w1 w2 Hc Hd.
  assert (clock w1 = clock w) as Hclock by done.
  pose proof (ledger_update_taken uid days w) as Ht. fold w1 key in Ht.
  destruct (ledger_update_cancelled uid days w1) as [Ec Ed].
  rewrite Hclock in Ec, Ed. fold w2 key in Ec, Ed.
  assert (ledger_count w1 uid key = ledger_count w uid key + 1) as Hc1
    by (unfold ledger_count at 1; by rewrite Ht).
  assert (ledger_days w1 uid key = ledger_days w uid key + days) as Hd1
    by (unfold ledger_days at 1; by rewrite Ht).
  split_and!.
  - rewrite Ec, Hc1. destruct (Z.ltb_spec 0 (ledger_count w uid key + 1)); lia.
  - rewrite Ed, Hd1.
    destruct (Z.leb_spec days (ledger_days w uid key + days)); lia.
  - pose proof (ledger_update_cancelled_last uid days w1) as El.
    rewrite Hclock in El. fold w2 key in El. by rewrite El, Ht.
  - intros u k Hne. subst w2.
    rewrite ledger_update_other by (by rewrite Hclock).
    by apply ledger_update_other.
Qed.

Lemma credit_then_debit_restores_counters_witness :
  let w := Scenario.approved_world in
  let w2 := exec (update_vacation_stats 100 5 "cancelled")
                 (exec (update_vacation_stats 100 5 "taken") w) in
  ledger_count w2 100 "2024-01" = 1 ∧ ledger_days w2 100 "2024-01" = 7.
Proof.
  intros w w2.
  destruct (credit_then_debit_restores_counters 100 5 w) as (Hc & Hd & _);
    [by vm_compute..|].
  split.
  - transitivity (ledger_count w 100 (strftime_Ym (clock w)));
      [exact Hc|by vm_compute].
  - transitivity (ledger_days w 100 (strftime_Ym (clock w)));
      [exact Hd|by vm_compute].
Defined.

(** ** Statistics of a user *)

Lemma sum_months_insert_fresh f k v (m : gmap string MonthStats) :
  m !! k = None → sum_months f (<[k := v]> m) = sum_months f m + f v.
Proof.
  intros Hk. unfold sum_months.
  rewrite map_fold_insert_L; [done| |done]. intros; lia.
Qed.

Lemma sum_months_insert f k v (m : gmap string MonthStats) :
  sum_months f (<[k := v]> m)
  = sum_months f m - from_option f 0 (m !! k) + f v.
Proof.
  destruct (m !! k) as [old|] eqn:Hk; simpl.
  - rewrite <- (insert_delete_id m k old) at 2 by done.
    rewrite <- (insert_delete_eq m k v).
    rewrite !sum_months_insert_fresh by apply lookup_delete_eq. lia.
  - rewrite sum_months_insert_fresh by done. lia.
Qed.

Lemma sum_months_empty f : sum_months f ∅ = 0.
Proof. unfold sum_months. by rewrite map_fold_empty. Qed.

(** What [get_user_stats] answers, as a function of the ledger. *)
Lemma get_user_stats_result uid w :
  let user_data := default ∅ (vacation_stats w !! pretty uid) in
  get_user_stats uid w
  = (Ok {| stats_total_vacations := sum_months count user_data;
           stats_total_days := sum_months total_days user_data;
           stats_month_count := ledger_count w uid (strftime_Ym (clock w));
           stats_month_days := ledger_days w uid (strftime_Ym (clock w)) |},
     w).
Proof.
  unfold get_user_stats, ledger_count, ledger_days, ledger, mbind, M_bind, bind,
    gets, get_month_key. cbn beta iota.
  destruct (vacation_stats w !! pretty uid) as [us|]; simpl; [done|].
  by rewrite !sum_months_empty.
Qed.

(** [get_user_stats] never fails; after a credit of [days] it counts one
    vacation and [days] days more, in the totals and in the current
    month. *)
Theorem get_user_stats_counts_a_credit uid days w :
  let w' := exec (update_vacation_stats uid days "taken") w in
  ∃ s, result (get_user_stats uid) w = Ok s
       ∧ result (get_user_stats uid) w'
         = Ok {| stats_total_vacations := stats_total_vacations s + 1;
                 stats_total_days := stats_total_days s + days;
                 stats_month_count := stats_month_count s + 1;
                 stats_month_days := stats_month_days s + days |}.
Proof.
  intros w'. unfold result. rewrite !get_user_stats_result.
  eexists. split; [done|]. cbn [fst]. f_equal.
  assert (clock w' = clock w) as -> by done.
  pose proof (ledger_update_taken uid days w) as Ht. fold w' in Ht.
  unfold ledger_count at 1, ledger_days at 1. rewrite Ht. cbn.
  assert (vacation_stats w' !! pretty uid
          = Some (<[strftime_Ym (clock w) :=
                      {| count := ledger_count w uid (strftime_Ym (clock w)) + 1;
                         total_days := ledger_days w uid (strftime_Ym (clock w))
                                       + days;
                         last_vacation := Some (clock w) |}]>
                    (default ∅ (vacation_stats w !! pretty uid)))) as ->.
  { unfold w', exec, update_vacation_stats, ledger_count, ledger_days, ledger.
    simpl. rewrite lookup_insert_eq. do 2 f_equal.
    destruct (vacation_stats w !! pretty uid) as [us|]; simpl;
      [by destruct (us !! _)|by rewrite lookup_empty]. }
  cbn [default from_option id]. rewrite !sum_months_insert. cbn [count total_days].
  unfold ledger_count, ledger_days, ledger.
  destruct (vacation_stats w !! pretty uid) as [us|]; simpl;
    [|rewrite lookup_empty; simpl]; f_equal; lia.
Qed.

(** The figure "remaining" of [show_user_stats] and the monthly limit of
    [can_take_vacation] agree: a member whom the role checks let through may
    apply exactly when the report shows a positive remainder. *)
Theorem remaining_agrees_with_monthly_limit inter w g :
  find_guild w (inter_guild_id inter) = Some g →
  let config := config_of w (inter_guild_id inter) in
  ¬ holds_banned_role (author inter) config →
  ¬ below_minimum_rank (author inter) config →
  ∃ stats remaining,
    result (show_user_stats inter) w
    = Ok (stats, remaining, max_vacations_per_month config)
    ∧ remaining
      = max_vacations_per_month config
        - ledger_count w (member_id (author inter)) (strftime_Ym (clock w))
    ∧ (result (can_take_vacation (author inter) (inter_guild_id inter)) w
       = Ok (true, "")
       ↔ 0 < remaining).
Proof.
  intros Hg config Hban Hrank.
  assert (any_role_in (banned_roles config) (author inter) = false) as Eban.
  { apply not_true_is_false. by rewrite any_role_in_spec. }
  assert (negb (bool_decide (min_rank_roles config = []))
          && negb (any_role_in (min_rank_roles config) (author inter)) = false)
    as Erank.
  { apply not_true_is_false. intros [E1 E2]%andb_true_iff. apply Hrank.
    split.
    - apply negb_true_iff, bool_decide_eq_false in E1. done.
    - apply negb_true_iff in E2. rewrite <- any_role_in_spec. by rewrite E2. }
  eexists _, _. split_and!.
  - pattern (result (show_user_stats inter) w).
    apply (wp_run (show_user_stats inter) (λ r _, _ r)).
    unfold show_user_stats. apply wp_bind, wp_intro.
    unfold result, exec. rewrite get_user_stats_result. cbn [fst snd].
    wp_apply wp_the_guild; [intros g' Hg'|by rewrite Hg].
    rewrite (find_guild_id _ _ _ Hg').
    wp_apply wp_get_config. intros w' Hs _. wp_steps. reflexivity.
  - done.
  - rewrite can_take_vacation_result. fold config. rewrite Eban, Erank.
    cbn [stats_month_count].
    destruct (Z.leb_spec (max_vacations_per_month config)
                (ledger_count w (member_id (author inter))
                   (strftime_Ym (clock w)))); split; try lia; try done.
Qed.

Lemma remaining_agrees_with_monthly_limit_witness :
  let w := Scenario.approved_world in
  ∃ stats remaining,
    result (show_user_stats Scenario.as_alice) w = Ok (stats, remaining, 1)
    ∧ remaining = 0.
Proof.
  intros w.
  destruct (remaining_agrees_with_monthly_limit Scenario.as_alice w
              Scenario.guild1) as (stats & remaining & Hres & Hrem & _).
  - by vm_compute.
  - unfold holds_banned_role. rewrite <- any_role_in_spec. by vm_compute.
  - intros [Hne _]. by vm_compute in Hne.
  - exists stats, remaining. split; [exact Hres|].
    rewrite Hrem. by vm_compute.
Defined.

(** ** Formatting *)

Lemma mod_10_of_mod_100 days : days mod 10 = (days mod 100) mod 10.
Proof. symmetry. apply Z.mod_mod_divide. by exists 10. Qed.

(** The word [format_duration] puts after the number depends on the last
    two digits only: "дней" from 11 to 19, otherwise "день" after a final 1,
    "дня" after a final 2, 3 or 4, and "дней" in every other case. *)
Theorem format_duration_by_last_two_digits days :
  let r := days mod 100 in
  format_duration days
  = pretty days
    +:+ (if decide (11 ≤ r ≤ 19) then " дней"
         else if decide (r mod 10 = 1) then " день"
         else if decide (2 ≤ r mod 10 ≤ 4) then " дня"
         else " дней").
Proof.
  intros r. unfold format_duration. rewrite mod_10_of_mod_100. fold r.
  assert (0 ≤ r < 100) as Hr by (apply Z.mod_pos_bound; lia).
  assert (0 ≤ r mod 10 < 10) as Hr10 by (apply Z.mod_pos_bound; lia).
  assert (r = 10 * (r / 10) + r mod 10) as Hdiv by (apply Z.div_mod; lia).
  destruct (Z.eqb_spec (r mod 10) 1), (Z.eqb_spec r 11),
    (Z.leb_spec 2 (r mod 10)), (Z.leb_spec (r mod 10) 4),
    (Z.ltb_spec r 10), (Z.leb_spec 20 r); cbn [andb orb negb];
    repeat case_decide; try done; lia.
Qed.

(** ** The review buttons *)

(** Both buttons of a request open their modal exactly for a member who
    holds one of [allowed_roles], and answer "Недостаточно прав" to everybody
    else, so to everybody while no role is configured; they change nothing
    in the stores. *)
Theorem review_buttons_need_an_allowed_role rid inter w g :
  find_guild w (inter_guild_id inter) = Some g →
  let config := config_of w (inter_guild_id inter) in
  let allowed :=
    ∃ role, role ∈ roles (author inter) ∧ role_id role ∈ allowed_roles config in
  (allowed → result (approve_button rid inter) w = Ok (ShowModal rid))
  ∧ (¬ allowed → result (approve_button rid inter) w = Ok (Refused MSG_NO_RIGHTS))
  ∧ (allowed_roles config = [] → ¬ allowed)
  ∧ result (deny_button rid inter) w = result (approve_button rid inter) w
  ∧ same_stores w (exec (approve_button rid inter) w)
  ∧ same_stores w (exec (deny_button rid inter) w).
Proof.
  intros Hg config allowed.
  assert (∀ (Q : Outcome ButtonReply → World → Prop),
            (∀ w', same_stores w w' →
                   Q (Ok (if any_role_in (allowed_roles config) (author inter)
                          then ShowModal rid else Refused MSG_NO_RIGHTS)) w') →
            wp (approve_button rid inter) Q w) as Hwp.
  { intros Q HQ. unfold approve_button, can_vote.
    wp_apply wp_the_guild; [intros g' Hg'|by rewrite Hg].
    rewrite (find_guild_id _ _ _ Hg').
    wp_apply wp_bind. wp_apply wp_get_config. intros w' Hs _. fold config.
    wp_next. specialize (HQ w' Hs).
    destruct (any_role_in (allowed_roles config) (author inter));
      cbn [negb]; by wp_steps. }
  assert (result (approve_button rid inter) w
          = Ok (if any_role_in (allowed_roles config) (author inter)
                then ShowModal rid else Refused MSG_NO_RIGHTS)) as Hres.
  { pattern (result (approve_button rid inter) w).
    apply (wp_run (approve_button rid inter) (λ r _, _ r)).
    apply Hwp. by intros. }
  split_and!.
  - intros Ha. apply any_role_in_spec in Ha. by rewrite Hres, Ha.
  - intros Ha. rewrite Hres.
    destruct (any_role_in _ _) eqn:E; [|done].
    by apply any_role_in_spec in E.
  - intros E (role & _ & Hin). rewrite E in Hin. by apply elem_of_nil in Hin.
  - done.
  - apply wp_exec. apply Hwp. by intros.
  - apply (wp_exec (deny_button rid inter) (same_stores w)).
    apply Hwp. by intros.
Qed.

Lemma review_buttons_need_an_allowed_role_witness :
  result (approve_button Scenario.alice_request Scenario.as_bob)
         Scenario.submitted
  = Ok (ShowModal Scenario.alice_request)
  ∧ result (approve_button Scenario.alice_request Scenario.as_carol)
           Scenario.submitted
    = Ok (Refused MSG_NO_RIGHTS).
Proof.
  split.
  - destruct (review_buttons_need_an_allowed_role Scenario.alice_request
                Scenario.as_bob Scenario.submitted Scenario.guild1)
      as (Hyes & _); [by vm_compute|].
    apply Hyes. rewrite <- any_role_in_spec. by vm_compute.
  - destruct (review_buttons_need_an_allowed_role Scenario.alice_request
                Scenario.as_carol Scenario.submitted Scenario.guild1)
      as (_ & Hno & _); [by vm_compute|].
    apply Hno. rewrite <- any_role_in_spec. by vm_compute.
Defined.
(** ** Dates *)

Lemma _days_before_year_succ y :
  _days_before_year (y + 1) = _days_before_year y + 365 + (if _is_leap y then 1 else 0).
Proof.
  unfold _days_before_year, _is_leap.
  replace (y + 1 - 1) with y by lia.
  destruct (Z.eqb_spec (y mod 4) 0), (Z.eqb_spec (y mod 100) 0),
    (Z.eqb_spec (y mod 400) 0); cbn [andb orb negb];
    Z.div_mod_to_equations; lia.
Qed.

Lemma _days_before_year_mono y y' :
  y ≤ y' → _days_before_year y ≤ _days_before_year y'.
Proof.
  intros Hle. unfold _days_before_year. Z.div_mod_to_equations. lia.
Qed.

(** The year count of [_ord2ymd], for the quotients it computes. *)
Lemma year_of_quotients q400 q100 q4 q1 :
  0 ≤ q100 ≤ 3 → 0 ≤ q4 ≤ 24 → 0 ≤ q1 ≤ 3 →
  let y := q400 * 400 + 1 + q100 * 100 + q4 * 4 + q1 in
  _days_before_year y = 146097 * q400 + 36524 * q100 + 1461 * q4 + 365 * q1
  ∧ _is_leap y = (q1 =? 3) && (negb (q4 =? 24) || (q100 =? 3)).
Proof.
  intros H100 H4 H1 y. split.
  - unfold _days_before_year. subst y. Z.div_mod_to_equations. lia.
  - unfold _is_leap. subst y.
    destruct (Z.eqb_spec q1 3), (Z.eqb_spec q4 24), (Z.eqb_spec q100 3);
      cbn [andb orb negb];
      repeat match goal with
        | |- context [?a mod ?b =? 0] => destruct (Z.eqb_spec (a mod b) 0)
        end; cbn [andb orb negb]; try done;
      Z.div_mod_to_equations; lia.
Qed.

Lemma month_day_spec (leapyear : bool) (r : Z) :
  0 ≤ r < 365 + (if leapyear then 1 else 0) →
  let '(m, d) := month_day leapyear r in
  1 ≤ m ≤ 12
  ∧ 1 ≤ d ≤ (if (m =? 2) && leapyear then 29 else index _DAYS_IN_MONTH m)
  ∧ index _DAYS_BEFORE_MONTH m + (if (2 <? m) && leapyear then 1 else 0) + d
    = r + 1.
Proof.
  intros Hr.
  assert (month_day_ok leapyear r = true) as Hok.
  { assert (forallb (λ k, month_day_ok true (Z.of_nat k)) (seq 0 366) = true)
      as Hleap by (by vm_compute).
    assert (forallb (λ k, month_day_ok false (Z.of_nat k)) (seq 0 365) = true)
      as Hcommon by (by vm_compute).
    rewrite forallb_forall in Hleap, Hcommon.
    replace r with (Z.of_nat (Z.to_nat r)) by lia.
    destruct leapyear; [apply Hleap|apply Hcommon]; apply in_seq; lia. }
  unfold month_day_ok in Hok. destruct (month_day leapyear r) as [m d].
  rewrite !andb_true_iff in Hok. destruct Hok as ((((? & ?) & ?) & ?) & ?).
  lia.
Qed.

Lemma _ord2ymd_unfold n :
  _ord2ymd n
  = let n0 := n - 1 in
    let q400 := n0 / 146097 in
    let r400 := n0 mod 146097 in
    let q100 := r400 / 36524 in
    let r100 := r400 mod 36524 in
    let q4 := r100 / 1461 in
    let r4 := r100 mod 1461 in
    let q1 := r4 / 365 in
    let r1 := r4 mod 365 in
    let y := q400 * 400 + 1 + q100 * 100 + q4 * 4 + q1 in
    if (q1 =? 4) || (q100 =? 4) then mk_date (y - 1) 12 31
    else
      let md :=
        month_day ((q1 =? 3) && (negb (q4 =? 24) || (q100 =? 3))) r1 in
      mk_date y md.1 md.2.
Proof.
  unfold _ord2ymd, month_day.
  change _DI400Y with 146097. change _DI100Y with 36524.
  change _DI4Y with 1461. cbv zeta.
  destruct (_ || _); [done|]. by destruct (_ <? _).
Qed.

(** The date of an ordinal exists, and its ordinal is the one it came from. *)
Lemma _ord2ymd_spec n :
  1 ≤ n →
  let d := _ord2ymd n in
  1 ≤ year d ∧ 1 ≤ month d ≤ 12
  ∧ 1 ≤ day d ≤ _days_in_month (year d) (month d)
  ∧ toordinal d = n.
Proof.
  intros Hn. rewrite _ord2ymd_unfold. cbv zeta.
  remember (n - 1) as n0 eqn:En0.
  remember (n0 / 146097) as q400 eqn:Eq400.
  remember (n0 mod 146097) as r400 eqn:Er400.
  remember (r400 / 36524) as q100 eqn:Eq100.
  remember (r400 mod 36524) as r100 eqn:Er100.
  remember (r100 / 1461) as q4 eqn:Eq4.
  remember (r100 mod 1461) as r4 eqn:Er4.
  remember (r4 / 365) as q1 eqn:Eq1.
  remember (r4 mod 365) as r1 eqn:Er1.
  assert (n0 = 146097 * q400 + r400 ∧ 0 ≤ r400 < 146097) as [H400 B400]
    by (subst q400 r400; split; [apply Z.div_mod|apply Z.mod_pos_bound]; lia).
  assert (r400 = 36524 * q100 + r100 ∧ 0 ≤ r100 < 36524) as [H100 B100]
    by (subst q100 r100; split; [apply Z.div_mod|apply Z.mod_pos_bound]; lia).
  assert (r100 = 1461 * q4 + r4 ∧ 0 ≤ r4 < 1461) as [H4 B4]
    by (subst q4 r4; split; [apply Z.div_mod|apply Z.mod_pos_bound]; lia).
  assert (r4 = 365 * q1 + r1 ∧ 0 ≤ r1 < 365) as [H1 B1]
    by (subst q1 r1; split; [apply Z.div_mod|apply Z.mod_pos_bound]; lia).
  clear Eq400 Er400 Eq100 Er100 Eq4 Er4 Eq1 Er1.
  assert (0 ≤ q400) by lia.
  destruct (Z.eqb_spec q1 4) as [E1|N1]; [|destruct (Z.eqb_spec q100 4) as [E100|N100]];
    cbn [orb].
  - (* the last day of a leap year that ends a four-year cycle *)
    destruct (year_of_quotients q400 q100 q4 3) as [Hdby Hleap]; [lia..|].
    cbv zeta in Hdby, Hleap.
    replace (q400 * 400 + 1 + q100 * 100 + q4 * 4 + q1 - 1)
      with (q400 * 400 + 1 + q100 * 100 + q4 * 4 + 3) by lia.
    cbn [year month day]. unfold toordinal, _ymd2ord, _days_in_month,
      _days_before_month. cbn [year month day].
    rewrite Hdby, Hleap.
    replace (q4 =? 24) with false by (symmetry; apply Z.eqb_neq; lia).
    change (index _DAYS_IN_MONTH 12) with 31.
    change (index _DAYS_BEFORE_MONTH 12) with 334. cbn. lia.
  - (* the last day of a year that ends a four-century cycle *)
    destruct (year_of_quotients q400 3 24 3) as [Hdby Hleap]; [lia..|].
    cbv zeta in Hdby, Hleap.
    replace (q400 * 400 + 1 + q100 * 100 + q4 * 4 + q1 - 1)
      with (q400 * 400 + 1 + 3 * 100 + 24 * 4 + 3) by lia.
    cbn [year month day]. unfold toordinal, _ymd2ord, _days_in_month,
      _days_before_month. cbn [year month day].
    rewrite Hdby, Hleap.
    change (index _DAYS_IN_MONTH 12) with 31.
    change (index _DAYS_BEFORE_MONTH 12) with 334. cbn. lia.
  - destruct (year_of_quotients q400 q100 q4 q1) as [Hdby Hleap]; [lia..|].
    cbv zeta in Hdby, Hleap.
    set (leapyear := (q1 =? 3) && (negb (q4 =? 24) || (q100 =? 3))) in *.
    pose proof (month_day_spec leapyear r1) as Hmd.
    destruct (month_day leapyear r1) as [m d]. cbn [fst snd year month day].
    destruct Hmd as (Hm & Hd & Hsum); [destruct leapyear; lia|].
    unfold toordinal, _ymd2ord, _days_in_month, _days_before_month.
    cbn [year month day]. rewrite Hdby, Hleap. split_and!; try lia.
Qed.

Ltac month_cases m :=
  let H := fresh in
  assert (m = 1 ∨ m = 2 ∨ m = 3 ∨ m = 4 ∨ m = 5 ∨ m = 6 ∨ m = 7 ∨ m = 8
          ∨ m = 9 ∨ m = 10 ∨ m = 11 ∨ m = 12) as H by lia;
  destruct H as [->|[->|[->|[->|[->|[->|[->|[->|[->|[->|[->| ->]]]]]]]]]]].

Ltac tables :=
  repeat match goal with
    | |- context [Z.pos ?a + Z.pos ?b] =>
        let v := eval vm_compute in (Z.pos a + Z.pos b) in
        change (Z.pos a + Z.pos b) with v
    | |- context [index ?l ?i] =>
        let v := eval vm_compute in (index l i) in change (index l i) with v
    | H : context [index ?l ?i] |- _ =>
        let v := eval vm_compute in (index l i) in
        change (index l i) with v in H
    end;
  cbn [Z.eqb Z.ltb Z.leb Z.compare Pos.compare Pos.compare_cont Pos.eqb andb orb
       negb] in *.

Lemma day_of_year_bounds y m d :
  in_year y m d →
  1 ≤ _days_before_month y m + d ≤ 365 + (if _is_leap y then 1 else 0).
Proof.
  intros [Hm Hd]. unfold _days_in_month, _days_before_month in *.
  month_cases m; destruct (_is_leap y); tables; lia.
Qed.

Lemma _days_before_month_mono y m d m' d' :
  in_year y m d → in_year y m' d' → m < m' →
  _days_before_month y m + d < _days_before_month y m' + d'.
Proof.
  intros [Hm Hd] [Hm' Hd'] Hlt.
  assert (_days_before_month y m + d ≤ _days_before_month y (m + 1)) as H1.
  { unfold _days_in_month, _days_before_month in *.
    month_cases m; destruct (_is_leap y); tables; lia. }
  assert (_days_before_month y (m + 1) ≤ _days_before_month y m') as H2.
  { clear H1 Hd Hd' d d'. unfold _days_before_month.
    month_cases m; month_cases m'; try lia;
      destruct (_is_leap y); tables; lia. }
  lia.
Qed.

(** The order of the field tuples is the order of the ordinals. *)
Lemma toordinal_compare a b :
  in_year (year a) (month a) (day a) → in_year (year b) (month b) (day b) →
  (toordinal a ?= toordinal b) = _cmp (date_fields a) (date_fields b).
Proof.
  intros Ha Hb. destruct a as [y m d], b as [y' m' d']. unfold toordinal.
  cbn [year month day date_fields _cmp] in *.
  pose proof (day_of_year_bounds _ _ _ Ha) as Ba.
  pose proof (day_of_year_bounds _ _ _ Hb) as Bb.
  unfold _ymd2ord.
  destruct (Z.compare_spec y y') as [->|Hy|Hy].
  - destruct (Z.compare_spec m m') as [->|Hm|Hm].
    + destruct (Z.compare_spec d d'); [apply Z.compare_eq_iff
                                      |apply Z.compare_lt_iff
                                      |apply Z.compare_gt_iff]; lia.
    + apply Z.compare_lt_iff.
      pose proof (_days_before_month_mono _ _ _ _ _ Ha Hb Hm). lia.
    + apply Z.compare_gt_iff.
      pose proof (_days_before_month_mono _ _ _ _ _ Hb Ha Hm). lia.
  - apply Z.compare_lt_iff.
    pose proof (_days_before_year_succ y).
    pose proof (_days_before_year_mono (y + 1) y'). lia.
  - apply Z.compare_gt_iff.
    pose proof (_days_before_year_succ y').
    pose proof (_days_before_year_mono (y' + 1) y). lia.
Qed.

Lemma toordinal_inj a b :
  in_year (year a) (month a) (day a) → in_year (year b) (month b) (day b) →
  toordinal a = toordinal b → a = b.
Proof.
  intros Ha Hb E. pose proof (toordinal_compare a b Ha Hb) as Hc.
  rewrite E, Z.compare_refl in Hc.
  destruct a as [y m d], b as [y' m' d']. cbn in Hc.
  destruct (Z.compare_spec y y'); [|done..].
  destruct (Z.compare_spec m m'); [|done..].
  destruct (Z.compare_spec d d'); [|done..]. by subst.
Qed.

Lemma toordinal_positive d :
  1 ≤ year d → in_year (year d) (month d) (day d) → 1 ≤ toordinal d.
Proof.
  intros Hy Hd. pose proof (day_of_year_bounds _ _ _ Hd).
  pose proof (_days_before_year_mono 1 (year d) Hy).
  change (_days_before_year 1) with 0 in *. unfold toordinal, _ymd2ord. lia.
Qed.

Lemma fromordinal_toordinal d :
  1 ≤ year d → in_year (year d) (month d) (day d) →
  fromordinal (toordinal d) = d.
Proof.
  intros Hy Hd. pose proof (toordinal_positive d Hy Hd) as Hn.
  destruct (_ord2ymd_spec _ Hn) as (Hy' & Hm' & Hd' & E).
  by apply toordinal_inj.
Qed.

Lemma valid_date_in_year d :
  valid_date d → 1 ≤ year d ∧ in_year (year d) (month d) (day d).
Proof. unfold valid_date, in_year, MINYEAR. tauto. Qed.

Lemma _days_before_year_10000 : _days_before_year 10000 = 3652059.
Proof. vm_compute. reflexivity. Qed.

Lemma toordinal_bounds d : valid_date d → 1 ≤ toordinal d ≤ _MAXORDINAL.
Proof.
  intros Hd. destruct (valid_date_in_year d Hd) as [Hy Hin].
  split; [by apply toordinal_positive|].
  pose proof (day_of_year_bounds _ _ _ Hin).
  pose proof (_days_before_year_succ (year d)).
  destruct Hd as ([_ Hmax] & _). unfold MAXYEAR in Hmax.
  pose proof (_days_before_year_mono (year d + 1) 10000) as Hmono.
  rewrite _days_before_year_10000 in Hmono.
  unfold toordinal, _ymd2ord, _MAXORDINAL. lia.
Qed.

Lemma fromordinal_valid n :
  1 ≤ n ≤ _MAXORDINAL → valid_date (fromordinal n) ∧ toordinal (fromordinal n) = n.
Proof.
  intros [Hlo Hhi]. pose proof (_ord2ymd_spec n Hlo) as Hspec.
  cbv zeta in Hspec. unfold fromordinal.
  generalize dependent (_ord2ymd n). intros d (Hy & Hm & Hd & E).
  split; [|done]. unfold valid_date, MINYEAR, MAXYEAR.
  split_and!; try lia.
  destruct (Z.le_gt_cases (year d) 9999) as [|Hbig]; [done|].
  pose proof (_days_before_year_mono 10000 (year d)) as Hmono.
  rewrite _days_before_year_10000 in Hmono.
  pose proof (day_of_year_bounds _ _ _ (conj Hm Hd)).
  unfold toordinal, _ymd2ord, _MAXORDINAL in *. lia.
Qed.

(** The ordinal of a date and the date of an ordinal are inverse to each
    other, between 1 January of the year 1 and 31 December 9999. *)
Theorem ordinal_round_trip :
  (∀ d, valid_date d →
        fromordinal (toordinal d) = d ∧ 1 ≤ toordinal d ≤ _MAXORDINAL)
  ∧ (∀ n, 1 ≤ n ≤ _MAXORDINAL →
          valid_date (fromordinal n) ∧ toordinal (fromordinal n) = n).
Proof.
  split.
  - intros d Hd. split; [|by apply toordinal_bounds].
    destruct (valid_date_in_year d Hd). by apply fromordinal_toordinal.
  - apply fromordinal_valid.
Qed.

Lemma ordinal_round_trip_witness :
  fromordinal (toordinal (mk_date 2024 2 29)) = mk_date 2024 2 29
  ∧ toordinal (fromordinal 738946) = 738946.
Proof.
  destruct ordinal_round_trip as [Hd Hn]. split.
  - apply Hd. unfold valid_date. by vm_compute.
  - apply Hn. by vm_compute.
Defined.

Lemma date_order_cases a b :
  valid_date a → valid_date b →
  (date_ltb a b = true ∧ toordinal a < toordinal b)
  ∨ (date_ltb a b = false ∧ toordinal b ≤ toordinal a).
Proof.
  intros [_ Ha]%valid_date_in_year [_ Hb]%valid_date_in_year.
  pose proof (toordinal_compare a b Ha Hb) as Hc.
  unfold date_ltb. rewrite <- Hc.
  destruct (Z.compare_spec (toordinal a) (toordinal b)); [right|left|right];
    split; done || lia.
Qed.

(** The comparisons of dates, which decide the start and the end of a
    vacation, agree with the subtraction of dates, which counts the days
    used and the days left. *)
Theorem date_order_agrees_with_subtraction a b :
  valid_date a → valid_date b →
  (date_ltb a b = true ↔ date_sub_days a b < 0)
  ∧ (date_eqb a b = true ↔ date_sub_days a b = 0)
  ∧ (date_leb a b = true ↔ date_sub_days a b ≤ 0)
  ∧ (date_eqb a b = true ↔ a = b).
Proof.
  intros [_ Ha]%valid_date_in_year [_ Hb]%valid_date_in_year.
  pose proof (toordinal_compare a b Ha Hb) as Hc.
  unfold date_ltb, date_eqb, date_leb, date_sub_days. rewrite <- Hc.
  split_and!.
  - destruct (Z.compare_spec (toordinal a) (toordinal b)); split; lia || done.
  - destruct (Z.compare_spec (toordinal a) (toordinal b)); split; lia || done.
  - destruct (Z.compare_spec (toordinal a) (toordinal b)); split; lia || done.
  - destruct (Z.compare_spec (toordinal a) (toordinal b)) as [E|?|?].
    + split; [intros _; by apply toordinal_inj|done].
    + split; [done|intros ->; lia].
    + split; [done|intros ->; lia].
Qed.

Lemma date_order_agrees_with_subtraction_witness :
  date_ltb (mk_date 2024 2 28) (mk_date 2024 3 1) = true
  ∧ date_sub_days (mk_date 2024 2 28) (mk_date 2024 3 1) = -2.
Proof.
  destruct (date_order_agrees_with_subtraction (mk_date 2024 2 28)
              (mk_date 2024 3 1)) as (Hlt & _);
    [unfold valid_date; by vm_compute..|].
  split; [apply Hlt|]; by vm_compute.
Defined.

(** Adding whole days moves the date and keeps the time of day. *)
Lemma datetime_add_days t n :
  valid_time t →
  datetime_add t (timedelta_days n)
  = mk_datetime (date_add_days (date_of t) n)
                (hour t) (minute t) (second t) (microsecond t).
Proof.
  intros (Hh & Hm & Hs & Hus).
  unfold datetime_add, local_microseconds, timedelta_days, date_add_days.
  set (ord := toordinal (date_of t)).
  set (secs := hour t * 3600 + minute t * 60 + second t).
  assert (0 ≤ secs < 86400) as Hsecs by (subst secs; lia).
  set (total := (ord * 86400 + hour t * 3600 + minute t * 60 + second t)
                * 1000000 + microsecond t + n * 86400 * 1000000).
  assert (total = 86400 * 1000000 * (ord + n) + (secs * 1000000 + microsecond t))
    as Htotal by (subst total secs; lia).
  assert (total / (86400 * 1000000) = ord + n) as ->.
  { symmetry. apply (Z.div_unique _ _ _ (secs * 1000000 + microsecond t));
      [lia|exact Htotal]. }
  assert (total mod (86400 * 1000000) = secs * 1000000 + microsecond t) as ->.
  { symmetry. apply (Z.mod_unique _ _ (ord + n)); [lia|exact Htotal]. }
  assert ((secs * 1000000 + microsecond t) / 1000000 = secs) as ->.
  { symmetry. apply (Z.div_unique _ _ _ (microsecond t)); lia. }
  assert ((secs * 1000000 + microsecond t) mod 1000000 = microsecond t) as ->.
  { symmetry. apply (Z.mod_unique _ _ secs); lia. }
  assert (secs / 3600 = hour t) as ->.
  { symmetry. apply (Z.div_unique _ _ _ (minute t * 60 + second t));
      subst secs; lia. }
  assert (secs mod 3600 = minute t * 60 + second t) as ->.
  { symmetry. apply (Z.mod_unique _ _ (hour t)); subst secs; lia. }
  assert ((minute t * 60 + second t) / 60 = minute t) as ->.
  { symmetry. apply (Z.div_unique _ _ _ (second t)); lia. }
  assert ((minute t * 60 + second t) mod 60 = second t) as ->.
  { symmetry. apply (Z.mod_unique _ _ (minute t)); lia. }
  done.
Qed.

Lemma date_add_days_sub d n :
  valid_date d → 1 ≤ toordinal d + n ≤ _MAXORDINAL →
  valid_date (date_add_days d n) ∧ date_sub_days (date_add_days d n) d = n.
Proof.
  intros Hd Hn. unfold date_add_days, date_sub_days.
  destruct (fromordinal_valid _ Hn) as [Hv E]. split; [done|]. rewrite E. lia.
Qed.

(** The modal that [select_duration] opens carries the start date as it was
    entered and an end date exactly [duration] days later, at the same time
    of day. *)
Theorem select_duration_end_date start duration :
  valid_date (date_of start) → valid_time start →
  1 ≤ toordinal (date_of start) + duration ≤ _MAXORDINAL →
  let modal := select_duration start duration in
  modal_start_date modal = start
  ∧ modal_duration modal = duration
  ∧ valid_date (date_of (modal_end_date modal))
  ∧ date_sub_days (date_of (modal_end_date modal)) (date_of start) = duration
  ∧ hour (modal_end_date modal) = hour start
  ∧ minute (modal_end_date modal) = minute start
  ∧ second (modal_end_date modal) = second start
  ∧ microsecond (modal_end_date modal) = microsecond start.
Proof.
  intros Hd Ht Hn modal. subst modal. unfold select_duration.
  cbn [modal_start_date modal_duration modal_end_date].
  rewrite datetime_add_days by done. cbn [date_of hour minute second microsecond].
  destruct (date_add_days_sub _ _ Hd Hn). by split_and!.
Qed.

Lemma select_duration_end_date_witness :
  let modal := select_duration (Scenario.at_ 2024 2 27 0 0) 3 in
  date_of (modal_end_date modal) = mk_date 2024 3 1
  ∧ date_sub_days (date_of (modal_end_date modal)) (mk_date 2024 2 27) = 3.
Proof.
  intros modal.
  destruct (select_duration_end_date (Scenario.at_ 2024 2 27 0 0) 3)
    as (_ & _ & _ & Hsub & _);
    [unfold valid_date; by vm_compute|unfold valid_time; by vm_compute
    |by vm_compute|].
  split; [by vm_compute|exact Hsub].
Defined.

Lemma before_tomorrow (start today tomorrow : date) :
  date_sub_days tomorrow today = 1 → toordinal start < toordinal tomorrow →
  ¬ 1 ≤ date_sub_days start today.
Proof. unfold date_sub_days. lia. Qed.

Lemma from_tomorrow (start today tomorrow : date) :
  date_sub_days tomorrow today = 1 → toordinal tomorrow ≤ toordinal start →
  1 ≤ date_sub_days start today.
Proof. unfold date_sub_days. lia. Qed.

Lemma succ_in_range (t : Z) : 1 ≤ t → t < _MAXORDINAL → 1 ≤ t + 1 ≤ _MAXORDINAL.
Proof. lia. Qed.

Lemma VacationStartDateModal_callback_some start w :
  VacationStartDateModal_callback (Some start) w
  = (Ok (if date_ltb (date_of start) (date_add_days (date_of (clock w)) 1)
         then TooEarly (date_add_days (date_of (clock w)) 1)
         else AskDuration start (map (select_duration start) durations)), w).
Proof.
  unfold VacationStartDateModal_callback, mbind, M_bind, bind, gets.
  cbn beta iota. by destruct (date_ltb _ _).
Qed.

(** The form of the start date lets through exactly the dates that lie at
    least one day after today; an unreadable date and an earlier date get
    their message, and the stores stay as they are. *)
Theorem start_date_is_tomorrow_or_later w :
  let today := date_of (clock w) in
  valid_date today → toordinal today < _MAXORDINAL →
  VacationStartDateModal_callback None w = (Ok BadFormat, w)
  ∧ date_sub_days (date_add_days today 1) today = 1
  ∧ ∀ start, valid_date (date_of start) →
      VacationStartDateModal_callback (Some start) w
      = (Ok (if decide (1 ≤ date_sub_days (date_of start) today)
             then AskDuration start (map (select_duration start) durations)
             else TooEarly (date_add_days today 1)), w).
Proof.
  intros today Htoday Hmax. subst today.
  pose proof (toordinal_bounds _ Htoday) as [Hb _].
  destruct (date_add_days_sub (date_of (clock w)) 1 Htoday
              (succ_in_range _ Hb Hmax)) as [Hv Hsub].
  split_and!; [reflexivity|exact Hsub|].
  intros start Hstart. rewrite VacationStartDateModal_callback_some.
  destruct (date_order_cases (date_of start)
              (date_add_days (date_of (clock w)) 1) Hstart Hv)
    as [[E Hlt]|[E Hge]]; rewrite E.
  - rewrite decide_False; [reflexivity|].
    exact (before_tomorrow _ _ _ Hsub Hlt).
  - rewrite decide_True; [reflexivity|].
    exact (from_tomorrow _ _ _ Hsub Hge).
Qed.

Lemma start_date_is_tomorrow_or_later_witness :
  let w := Scenario.submitted in
  result (VacationStartDateModal_callback (Some (Scenario.at_ 2024 1 10 0 0))) w
  = Ok (TooEarly (mk_date 2024 1 11))
  ∧ result (VacationStartDateModal_callback (Some (Scenario.at_ 2024 1 11 0 0))) w
    = Ok (AskDuration (Scenario.at_ 2024 1 11 0 0)
            (map (select_duration (Scenario.at_ 2024 1 11 0 0)) [3; 7; 14])).
Proof.
  intros w.
  destruct (start_date_is_tomorrow_or_later w) as (_ & _ & H);
    [unfold valid_date; by vm_compute|by vm_compute|].
  unfold result. split.
  - rewrite (H (Scenario.at_ 2024 1 10 0 0));
      [|unfold valid_date; by vm_compute].
    vm_compute. reflexivity.
  - rewrite (H (Scenario.at_ 2024 1 11 0 0));
      [|unfold valid_date; by vm_compute].
    vm_compute. reflexivity.
Defined.

(** ** The start of a vacation *)

Lemma wp_pair {A} (m : M A) r0 w0 w :
  wp m (λ r w', r = r0 ∧ w' = w0) w → m w = (r0, w0).
Proof.
  intros H. apply wp_run in H as [Hr Hw]. unfold result, exec in *.
  destruct (m w); simpl in *. congruence.
Qed.

Lemma wp_conj {A} (m : M A) (Q1 Q2 : Outcome A → World → Prop) w :
  wp m Q1 w → wp m Q2 w → wp m (λ r w', Q1 r w' ∧ Q2 r w') w.
Proof. intros H1%wp_run H2%wp_run. apply wp_intro. by split. Qed.

Lemma get_member_id g uid m : get_member g uid = Some m → member_id m = uid.
Proof. unfold get_member. intros H. apply find_some in H as [_ H]. lia. Qed.

Lemma get_role_id g rid r : get_role g rid = Some r → role_id r = rid.
Proof. unfold get_role. intros H. apply find_some in H as [_ H]. lia. Qed.

Lemma get_member_edit_guild_eq gid uid f g uid' :
  guild_id g = gid →
  get_member (edit_guild gid uid f g) uid'
  = (λ m, if member_id m =? uid
          then {| member_id := member_id m; roles := f (roles m) |} else m)
      <$> get_member g uid'.
Proof.
  intros Hid. unfold edit_guild. rewrite Hid, Z.eqb_refl.
  unfold get_member; simpl.
  apply find_map_preserving. intros x. by destruct (member_id x =? uid).
Qed.

Lemma get_role_edit_guild gid uid f g rid :
  get_role (edit_guild gid uid f g) rid = get_role g rid.
Proof. unfold edit_guild, get_role. by destruct (guild_id g =? gid). Qed.

(** The member of a guild after an edit of their roles. *)
Lemma member_after_edit w w' gid uid f g m :
  guilds (discord w') = guilds (edit_roles gid uid f (discord w)) →
  find_guild w gid = Some g →
  get_member g uid = Some m →
  find_guild w' gid = Some (edit_guild gid uid f g)
  ∧ get_member (edit_guild gid uid f g) uid
    = Some {| member_id := member_id m; roles := f (roles m) |}.
Proof.
  intros E Hg Hm. split.
  - by rewrite (find_guild_edit_roles w w' gid uid f gid E), Hg.
  - rewrite get_member_edit_guild_eq by (by eapply find_guild_id).
    rewrite Hm; simpl. by rewrite (get_member_id _ _ _ Hm), Z.eqb_refl.
Qed.

Lemma with_roles_absent role rs :
  existsb (λ r, role_id r =? role_id role) rs = false →
  with_roles [role] rs = rs ++ [role].
Proof.
  intros H. unfold with_roles; simpl. by rewrite H.
Qed.

Lemma edit_roles_audit_log gid uid f x :
  audit_log (edit_roles gid uid f x) = audit_log x.
Proof. done. Qed.

Lemma wp_check_vacations_start_due gid vrid rid data w g user vacation_role
    (Q : Outcome unit → World → Prop) :
  find_guild w gid = Some g →
  get_member g (user_id (deref w data)) = Some user →
  truthy_id vrid = true →
  get_role g (int_of_id vrid) = Some vacation_role →
  has_role vacation_role user = false →
  (∀ w', heap w' = alter (set_saved_roles (snapshot vrid user)) data (heap w) →
         api_failures (discord w') = tail (api_failures (discord w)) →
         (if default false (head (api_failures (discord w)))
          then guilds (discord w') = guilds (discord w)
               ∧ audit_log (discord w') = audit_log (discord w)
               ∧ vacation_data w' = vacation_data w
          else guilds (discord w')
               = guilds (edit_roles gid (member_id user)
                           (with_roles [vacation_role]) (discord w))
               ∧ audit_log (discord w')
                 = audit_log (discord w)
                   ++ [mk_audit REASON_START gid (member_id user)
                                [role_id vacation_role] []]) →
         Q (Ok tt) w') →
  wp (check_vacations_start gid vrid rid data) Q w.
Proof.
  intros Hg Hm Htr Hrole Hhas HQ. unfold check_vacations_start.
  do 2 wp_next.
  wp_apply wp_the_guild; [intros g0 Hg0|by rewrite Hg].
  rewrite Hg in Hg0. injection Hg0 as <-.
  rewrite Hm, Htr. apply wp_try_except. rewrite Hrole, Hhas. cbn [negb].
  do 2 wp_next. fold (snapshot vrid user).
  unfold add_roles. do 2 apply wp_bind. apply wp_api_call.
  intros r w1 Hc1 Hh1 Hr1 Hd1 Hs1 Hcfg1 Hdef1 Hv1 Hg1 Ha1 Hf1 ->.
  world_simpl_all.
  destruct (default false (head (api_failures (discord w)))) eqn:Hfail.
  { cbn beta iota. wp_steps. by apply HQ. }
  cbn beta iota. do 3 wp_next.
  wp_apply wp_send_vacation_log. intros r2 w2 Hs2 Hd2 _ _ _.
  assert (Q (Ok tt) w2) as HQ2.
  { apply HQ.
    - destruct Hs2. world_simpl_all. congruence.
    - rewrite Hd2. world_simpl. done.
    - rewrite Hd2. world_simpl.
      rewrite !edit_roles_guilds, edit_roles_audit_log, Hg1, Ha1. done. }
  destruct r2 as [[]|e]; [|done].
  unfold store_vacation. wp_steps.
  apply HQ; world_simpl.
  - destruct Hs2. world_simpl_all. congruence.
  - by rewrite Hd2.
  - rewrite Hd2. world_simpl.
    rewrite !edit_roles_guilds, edit_roles_audit_log, Hg1, Ha1. done.
Qed.

Lemma wp_check_vacations_request_start gid config now rid data w
    (Q : Outcome unit → World → Prop) :
  status (deref w data) = approved →
  date_eqb (date_of (start_date (deref w data))) (date_of now) = true →
  wp (check_vacations_start gid (vacation_role_id config) rid data) Q w →
  wp (check_vacations_request gid config now (rid, data)) Q w.
Proof.
  intros Hst Heq H. unfold check_vacations_request. do 2 wp_next.
  rewrite bool_decide_eq_true_2 by done. cbn [negb]. by rewrite Heq.
Qed.


Lemma holds_after_grant w w' gid g user vacation_role :
  guilds (discord w')
  = guilds (edit_roles gid (member_id user) (with_roles [vacation_role])
              (discord w)) →
  find_guild w gid = Some g →
  get_member g (member_id user) = Some user →
  ∃ g', find_guild w' gid = Some g'
        ∧ get_member g' (member_id user)
          = Some {| member_id := member_id user;
                    roles := with_roles [vacation_role] (roles user) |}
        ∧ (∀ rid, get_role g' rid = get_role g rid)
        ∧ has_role vacation_role
            {| member_id := member_id user;
               roles := with_roles [vacation_role] (roles user) |} = true.
Proof.
  intros E Hg Hm.
  destruct (member_after_edit w w' gid (member_id user)
              (with_roles [vacation_role]) g user E Hg Hm) as [Hg' Hm'].
  eexists. split_and!; [exact Hg'|exact Hm'|..].
  - intros rid. apply get_role_edit_guild.
  - unfold has_role, with_roles; simpl. rewrite existsb_app.
    destruct (existsb _ (roles user)) eqn:Hheld; [done|].
    simpl. by rewrite Z.eqb_refl.
Qed.

Lemma with_roles_grow new_roles rs r : r ∈ rs → r ∈ with_roles new_roles rs.
Proof. intros Hr. apply elem_of_app. by left. Qed.

Lemma alter_as_insert {X} (f : X → X) (l : list X) i x :
  l !! i = Some x → alter f i l = <[i := f x]> l.
Proof.
  intros Hx. apply list_eq. intros j.
  destruct (decide (j = i)) as [->|Hne].
  - rewrite list_lookup_alter_eq, Hx. simpl.
    symmetry. apply list_lookup_insert_eq. by eapply lookup_lt_Some.
  - by rewrite list_lookup_alter_ne, list_lookup_insert_ne.
Qed.

(** A round of the start with Discord answering. *)
Lemma check_vacations_request_grants
    gid config rid data w d g user vacation_role :
  heap w !! data = Some d →
  status d = approved →
  date_eqb (date_of (start_date d)) (date_of (clock w)) = true →
  find_guild w gid = Some g →
  get_member g (user_id d) = Some user →
  truthy_id (vacation_role_id config) = true →
  get_role g (int_of_id (vacation_role_id config)) = Some vacation_role →
  has_role vacation_role user = false →
  head (api_failures (discord w)) ≠ Some true →
  let round := check_vacations_request gid config (clock w) (rid, data) in
  let w' := exec round w in
  result round w = Ok tt
  ∧ heap w'
    = <[data := set_saved_roles (snapshot (vacation_role_id config) user) d]>
        (heap w)
  ∧ guilds (discord w')
    = guilds (edit_roles gid (user_id d) (with_roles [vacation_role])
                (discord w))
  ∧ audit_log (discord w')
    = audit_log (discord w)
      ++ [mk_audit REASON_START gid (user_id d) [role_id vacation_role] []].
Proof.
  intros Hd Hst Heq Hg Hm Htr Hrole Hhas Hup round w'.
  pose proof (deref_lookup _ _ _ Hd) as Hderef.
  pose proof (get_member_id _ _ _ Hm) as Hid.
  assert (default false (head (api_failures (discord w))) = false) as Hok.
  { destruct (head _) as [[]|]; [done..]. }
  split.
  { apply (wp_run round (λ r _, r = Ok tt)).
    apply wp_check_vacations_request_start; [by rewrite Hderef..|].
    apply wp_check_vacations_start; [by rewrite Hg|done]. }
  rewrite <- (alter_as_insert _ _ _ _ Hd), <- Hid.
  apply (wp_run round
           (λ _ w1,
              heap w1
              = alter (set_saved_roles (snapshot (vacation_role_id config) user))
                      data (heap w)
              ∧ guilds (discord w1)
                = guilds (edit_roles gid (member_id user)
                            (with_roles [vacation_role]) (discord w))
              ∧ audit_log (discord w1)
                = audit_log (discord w)
                  ++ [mk_audit REASON_START gid (member_id user)
                               [role_id vacation_role] []])).
  apply wp_check_vacations_request_start; [by rewrite Hderef..|].
  eapply wp_check_vacations_start_due;
    [exact Hg|by rewrite Hderef|exact Htr|exact Hrole|exact Hhas|].
  intros w1 Hh _ Hcase. rewrite Hok in Hcase. by destruct Hcase.
Qed.



(** When Discord refuses the grant of the vacation role, the snapshot has
    been written and nothing else changes: the request stays as it was in
    [vacation_data], no role is edited and nothing is logged; a later round
    of the same day, with the request and the guilds as this one left them,
    grants the role. *)
Theorem failed_grant_is_tried_again
    gid config rid data w d g user vacation_role :
  heap w !! data = Some d →
  status d = approved →
  date_eqb (date_of (start_date d)) (date_of (clock w)) = true →
  find_guild w gid = Some g →
  get_member g (user_id d) = Some user →
  truthy_id (vacation_role_id config) = true →
  get_role g (int_of_id (vacation_role_id config)) = Some vacation_role →
  has_role vacation_role user = false →
  head (api_failures (discord w)) = Some true →
  let round now := check_vacations_request gid config now (rid, data) in
  let w' := exec (round (clock w)) w in
  result (round (clock w)) w = Ok tt
  ∧ heap w'
    = <[data := set_saved_roles (snapshot (vacation_role_id config) user) d]>
        (heap w)
  ∧ guilds (discord w') = guilds (discord w)
  ∧ audit_log (discord w') = audit_log (discord w)
  ∧ vacation_data w' = vacation_data w
  ∧ vacation_requests w' = vacation_requests w
  ∧ (∀ w1, heap w1 = heap w' →
           guilds (discord w1) = guilds (discord w') →
           date_of (clock w1) = date_of (clock w) →
           head (api_failures (discord w1)) ≠ Some true →
           holds_role (exec (round (clock w1)) w1) gid (user_id d)
                      (role_id vacation_role)).
Proof.
  intros Hd Hst Heq Hg Hm Htr Hrole Hhas Hdown round w'.
  pose proof (deref_lookup _ _ _ Hd) as Hderef.
  assert (default false (head (api_failures (discord w))) = true) as Hfail
    by (by rewrite Hdown).
  assert (result (round (clock w)) w = Ok tt
          ∧ vacation_requests w' = vacation_requests w) as [Hr Hreq].
  { apply (wp_run (round (clock w))
             (λ r w1, r = Ok tt ∧ vacation_requests w1 = vacation_requests w)).
    apply wp_check_vacations_request_start; [by rewrite Hderef..|].
    apply wp_check_vacations_start; [by rewrite Hg|]. by intros w1 []. }
  assert (heap w'
          = alter (set_saved_roles (snapshot (vacation_role_id config) user))
                  data (heap w)
          ∧ guilds (discord w') = guilds (discord w)
          ∧ audit_log (discord w') = audit_log (discord w)
          ∧ vacation_data w' = vacation_data w)
    as (Hheap & Hguilds & Haudit & Hdata).
  { apply (wp_run (round (clock w))
             (λ _ w1,
                heap w1
                = alter (set_saved_roles (snapshot (vacation_role_id config) user))
                        data (heap w)
                ∧ guilds (discord w1) = guilds (discord w)
                ∧ audit_log (discord w1) = audit_log (discord w)
                ∧ vacation_data w1 = vacation_data w)).
    apply wp_check_vacations_request_start; [by rewrite Hderef..|].
    eapply wp_check_vacations_start_due;
      [exact Hg|by rewrite Hderef|exact Htr|exact Hrole|exact Hhas|].
    intros w1 Hh _ Hcase. rewrite Hfail in Hcase. by destruct Hcase as (? & ? & ?). }
  rewrite (alter_as_insert _ _ _ _ Hd) in Hheap.
  split_and!; try done.
  intros w1 Hh1 Hg1 Hc1 Hup1.
  assert (heap w1 !! data
          = Some (set_saved_roles (snapshot (vacation_role_id config) user) d))
    as Hd1.
  { rewrite Hh1, Hheap. apply list_lookup_insert_eq. by eapply lookup_lt_Some. }
  assert (find_guild w1 gid = Some g) as Hgw1.
  { unfold find_guild in *. by rewrite Hg1, Hguilds. }
  assert (date_eqb (date_of (start_date d)) (date_of (clock w1)) = true)
    as Heq1 by (by rewrite Hc1).
  destruct (check_vacations_request_grants gid config rid data w1 _ g user
              vacation_role Hd1 Hst Heq1 Hgw1 Hm Htr Hrole Hhas Hup1)
    as (_ & _ & Hguilds1 & _).
  cbn [user_id set_saved_roles] in Hguilds1.
  pose proof (get_member_id _ _ _ Hm) as Hid.
  rewrite <- Hid in Hm, Hguilds1.
  destruct (holds_after_grant w1 _ gid g user vacation_role Hguilds1 Hgw1 Hm)
    as (g' & Hg' & Hm' & _ & Hhas').
  rewrite <- Hid. eexists g', _. split_and!; [exact Hg'|exact Hm'|exact Hhas'].
Qed.

Lemma failed_grant_is_tried_again_witness :
  let w := Scenario.api_down
             (Scenario.later (Scenario.at_ 2024 1 12 0 10) Scenario.approved_world) in
  let round now := check_vacations_request 1 (config_of w 1) now
                     (Scenario.alice_request, 0%nat) in
  let w' := exec (round (clock w)) w in
  heap w' = <[0%nat := set_saved_roles [901] (deref w 0%nat)]> (heap w)
  ∧ guilds (discord w') = guilds (discord w)
  ∧ holds_role (exec (round (clock w')) w') 1 100 900.
Proof.
  intros w round w'.
  destruct (failed_grant_is_tried_again 1 (config_of w 1)
              Scenario.alice_request 0%nat w (deref w 0%nat)
              Scenario.guild1 Scenario.alice Scenario.VACATION)
    as (_ & Hheap & Hguilds & _ & _ & _ & Hagain); [by_compute..|].
  split_and!; [exact Hheap|exact Hguilds|].
  apply (Hagain w'); [reflexivity|reflexivity|by_compute|by_compute].
Defined.

(** ** Between the start and the end *)




(** ** The end of a vacation *)

Lemma without_absent role rs :
  existsb (λ r, role_id r =? role_id role) rs = false → without role rs = rs.
Proof.
  unfold without. induction rs as [|r rs IH]; simpl; [done|].
  intros [Hr Hrs]%orb_false_iff. rewrite Hr; simpl. by rewrite IH.
Qed.

Lemma with_roles_nil rs : with_roles [] rs = rs.
Proof. unfold with_roles; simpl. apply app_nil_r. Qed.

Lemma same_stores_api_call w w' :
  clock w' = clock w → heap w' = heap w →
  vacation_requests w' = vacation_requests w →
  vacation_data w' = vacation_data w →
  vacation_stats w' = vacation_stats w →
  vacation_config w' = vacation_config w →
  vacation_config_default w' = vacation_config_default w →
  views w' = views w →
  map guild_id (guilds (discord w')) = map guild_id (guilds (discord w)) →
  same_stores w w'.
Proof.
  intros. split; try done. intros g. unfold config_of. congruence.
Qed.

Lemma wp_remove_vacation_role_up gid vrid uid reason w g user vacation_role
    (Q : Outcome unit → World → Prop) :
  find_guild w gid = Some g →
  get_member g uid = Some user →
  truthy_id vrid = true →
  get_role g (int_of_id vrid) = Some vacation_role →
  head (api_failures (discord w)) ≠ Some true →
  (∀ w' g' user',
     same_stores w w' →
     (api_failures (discord w') = api_failures (discord w)
      ∨ api_failures (discord w') = tail (api_failures (discord w))) →
     find_guild w' gid = Some g' →
     get_member g' uid = Some user' →
     (∀ rid, get_role g' rid = get_role g rid) →
     roles user' = without vacation_role (roles user) →
     Q (Ok tt) w') →
  wp (remove_vacation_role gid vrid uid reason) Q w.
Proof.
  intros Hg Hm Htr Hrole Hup HQ. unfold remove_vacation_role.
  wp_apply wp_the_guild; [intros g0 Hg0|by rewrite Hg].
  rewrite Hg in Hg0. injection Hg0 as <-.
  rewrite Hm, Htr. apply wp_try_except. rewrite Hrole.
  destruct (has_role vacation_role user) eqn:Hheld.
  - unfold remove_roles. apply wp_bind. apply wp_api_call.
    intros r w1 Hc1 Hh1 Hr1 Hd1 Hs1 Hcfg1 Hdef1 Hv1 Hg1 Ha1 Hf1 ->.
    assert (default false (head (api_failures (discord w))) = false) as ->.
    { destruct (head _) as [[]|]; [done..]. }
    cbn beta iota. wp_next.
    set (w2 := mk_world _ _ _ _ _ _ _ _ _).
    assert (guilds (discord w2)
            = guilds (edit_roles gid uid (without vacation_role) (discord w)))
      as Hg2.
    { subst w2. world_simpl. by rewrite !edit_roles_guilds, Hg1. }
    destruct (member_after_edit w w2 gid uid (without vacation_role) g user
                Hg2 Hg Hm) as [Hg' Hm'].
    eapply HQ; [|by right|exact Hg'|exact Hm'|..|done].
    + apply same_stores_api_call; try done.
      subst w2. world_simpl.
      by rewrite edit_roles_guild_ids, Hg1.
    + intros rid. apply get_role_edit_guild.
  - wp_steps. eapply HQ; [apply same_stores_refl|by left|exact Hg|exact Hm|done|].
    symmetry. by apply without_absent.
Qed.

Lemma wp_restore_saved_roles_up gid data uid w g user
    (Q : Outcome unit → World → Prop) :
  find_guild w gid = Some g →
  get_member g uid = Some user →
  head (api_failures (discord w)) ≠ Some true →
  (∀ w' g' user',
     same_stores w w' →
     find_guild w' gid = Some g' →
     get_member g' uid = Some user' →
     roles user' = restored g (saved_roles (deref w data)) (roles user) →
     Q (Ok tt) w') →
  wp (restore_saved_roles gid data uid) Q w.
Proof.
  intros Hg Hm Hup HQ. unfold restore_saved_roles.
  do 2 wp_next.
  wp_apply wp_the_guild; [intros g0 Hg0|by rewrite Hg].
  rewrite Hg in Hg0. injection Hg0 as <-. rewrite Hm.
  destruct (decide (saved_roles (deref w data) = [])) as [Hnil|Hsaved].
  { rewrite bool_decide_eq_true_2 by done. cbn [negb]. wp_steps.
    eapply HQ; [apply same_stores_refl|exact Hg|exact Hm|].
    unfold restored. rewrite Hnil. simpl. by rewrite with_roles_nil. }
  rewrite bool_decide_eq_false_2 by done. cbn [negb].
  set (roles_to_add := List.filter _ _).
  assert (restored g (saved_roles (deref w data)) (roles user)
          = with_roles roles_to_add (roles user)) as Hrestored by done.
  destruct (decide (roles_to_add = [])) as [Hnone|Hsome].
  { rewrite bool_decide_eq_true_2 by done. cbn [negb]. wp_steps.
    eapply HQ; [apply same_stores_refl|exact Hg|exact Hm|].
    by rewrite Hrestored, Hnone, with_roles_nil. }
  rewrite bool_decide_eq_false_2 by done. cbn [negb].
  apply wp_try_except. unfold add_roles. apply wp_bind. apply wp_api_call.
  intros r w1 Hc1 Hh1 Hr1 Hd1 Hs1 Hcfg1 Hdef1 Hv1 Hg1 Ha1 Hf1 ->.
  assert (default false (head (api_failures (discord w))) = false) as ->.
  { destruct (head _) as [[]|]; [done..]. }
  cbn beta iota. wp_next.
  set (w2 := mk_world _ _ _ _ _ _ _ _ _).
  assert (guilds (discord w2)
          = guilds (edit_roles gid uid (with_roles roles_to_add) (discord w)))
    as Hg2.
  { subst w2. world_simpl. by rewrite !edit_roles_guilds, Hg1. }
  destruct (member_after_edit w w2 gid uid (with_roles roles_to_add) g user
              Hg2 Hg Hm) as [Hg' Hm'].
  eapply HQ; [|exact Hg'|exact Hm'|done].
  apply same_stores_api_call; try done.
  subst w2. world_simpl. by rewrite edit_roles_guild_ids, Hg1.
Qed.

Lemma restored_ext g g' saved rs :
  (∀ rid, get_role g' rid = get_role g rid) →
  restored g' saved rs = restored g saved rs.
Proof.
  intros Hext.
  assert (omap (get_role g') saved = omap (get_role g) saved) as E.
  { apply list_omap_ext, Forall2_same_length_lookup. split; [done|].
    intros i x y Hx Hy. rewrite Hx in Hy. injection Hy as <-. apply Hext. }
  unfold restored. by rewrite E.
Qed.

Lemma existsb_role_elem id (rs : list Role) :
  existsb (λ r, role_id r =? id) rs = true ↔ ∃ r, r ∈ rs ∧ role_id r = id.
Proof.
  rewrite existsb_exists. split; intros (r & Hr & E); exists r.
  - split; [by apply list_elem_of_In|lia].
  - split; [by apply list_elem_of_In|lia].
Qed.

Lemma restored_keeps g saved rs id :
  existsb (λ r, role_id r =? id) rs = true →
  existsb (λ r, role_id r =? id) (restored g saved rs) = true.
Proof.
  rewrite !existsb_role_elem. intros (r & Hr & E). exists r. split; [|done].
  by apply with_roles_grow.
Qed.

Lemma restored_holds g saved rs id role :
  id ∈ saved → get_role g id = Some role →
  existsb (λ r, role_id r =? id) (restored g saved rs) = true.
Proof.
  intros Hin Hrole.
  destruct (existsb (λ r, role_id r =? id) rs) eqn:Hheld;
    [by apply restored_keeps|].
  pose proof (get_role_id _ _ _ Hrole) as Hid.
  apply existsb_role_elem. exists role. split; [|done].
  unfold restored, with_roles. apply elem_of_app. right.
  assert (existsb (λ r, role_id r =? role_id role) rs = false) as Habs
    by (by rewrite Hid).
  apply list_elem_of_In, filter_In. split; [|by rewrite Habs].
  apply filter_In. split; [|by rewrite Habs].
  apply list_elem_of_In, list_elem_of_omap. by exists id.
Qed.

Lemma restored_lacks g saved rs id :
  id ∉ saved →
  existsb (λ r, role_id r =? id) rs = false →
  existsb (λ r, role_id r =? id) (restored g saved rs) = false.
Proof.
  intros Hnot Habs.
  destruct (existsb _ (restored g saved rs)) eqn:Hheld; [|done].
  apply existsb_role_elem in Hheld as (r & Hr & E).
  unfold restored, with_roles in Hr. apply elem_of_app in Hr as [Hr|Hr].
  - assert (existsb (λ r, role_id r =? id) rs = true) as Hyes
      by (apply existsb_role_elem; by exists r).
    congruence.
  - apply list_elem_of_In, filter_In in Hr as [Hr _].
    apply filter_In in Hr as [Hr _].
    apply list_elem_of_In, list_elem_of_omap in Hr as (x & Hx & Hrole).
    apply get_role_id in Hrole. destruct Hnot. congruence.
Qed.

Lemma without_lacks role rs :
  existsb (λ r, role_id r =? role_id role) (without role rs) = false.
Proof.
  destruct (existsb _ (without role rs)) eqn:Hheld; [|done].
  apply existsb_role_elem in Hheld as (r & Hr & E).
  apply list_elem_of_In, filter_In in Hr as [_ Hr].
  rewrite E, Z.eqb_refl in Hr. discriminate.
Qed.

Lemma without_keeps role rs id :
  id ≠ role_id role →
  existsb (λ r, role_id r =? id) rs = true →
  existsb (λ r, role_id r =? id) (without role rs) = true.
Proof.
  intros Hne. rewrite !existsb_role_elem. intros (r & Hr & E).
  exists r. split; [|done].
  apply list_elem_of_In, filter_In. split; [by apply list_elem_of_In|].
  apply negb_true_iff, Z.eqb_neq. congruence.
Qed.

Lemma Forall_head_up (fails : list bool) :
  Forall (λ b, b = false) fails → head fails ≠ Some true.
Proof. by intros [|? ? ->]. Qed.

Lemma Forall_tail_up (fails : list bool) :
  Forall (λ b, b = false) fails → Forall (λ b, b = false) (tail fails).
Proof. by intros [|? ? _ ?]. Qed.

(** A round of the end with Discord answering: the roles of the member
    afterwards. *)
Lemma wp_check_vacations_end_up gid vrid rid data w g user vacation_role
    (Q : Outcome unit → World → Prop) :
  find_guild w gid = Some g →
  get_member g (user_id (deref w data)) = Some user →
  truthy_id vrid = true →
  get_role g (int_of_id vrid) = Some vacation_role →
  Forall (λ fails, fails = false) (api_failures (discord w)) →
  (∀ r w' g' user',
     find_guild w' gid = Some g' →
     get_member g' (user_id (deref w data)) = Some user' →
     roles user'
     = restored g (saved_roles (deref w data))
                (without vacation_role (roles user)) →
     Q r w') →
  wp (check_vacations_end gid vrid rid data) Q w.
Proof.
  intros Hg Hm Htr Hrole Hup HQ. unfold check_vacations_end.
  do 2 wp_next.
  wp_apply (wp_remove_vacation_role_up gid vrid _ REASON_END w g user
              vacation_role);
    [exact Hg|exact Hm|exact Htr|exact Hrole|by apply Forall_head_up|].
  intros w2 g2 user2 Hs2 Hapi2 Hg2 Hm2 Hroles2 Hr2.
  assert (head (api_failures (discord w2)) ≠ Some true) as Hup2.
  { destruct Hapi2 as [->| ->]; [by apply Forall_head_up|].
    by apply Forall_head_up, Forall_tail_up. }
  wp_apply (wp_restore_saved_roles_up gid data _ w2 g2 user2);
    [exact Hg2|exact Hm2|exact Hup2|].
  intros w3 g3 user3 Hs3 Hg3 Hm3 Hr3.
  rewrite (same_stores_deref _ _ _ Hs2), Hr2, (restored_ext g g2) in Hr3
    by done.
  unfold drop_vacation, store_request. do 8 wp_next.
  wp_apply wp_send_vacation_log. intros r4 w4 Hs4 Hd4 _ _ _.
  apply (HQ r4 w4 g3 user3); [|exact Hm3|exact Hr3].
  unfold find_guild in *. by rewrite Hd4.
Qed.

Lemma wp_check_vacations_request_end gid config now rid data w
    (Q : Outcome unit → World → Prop) :
  status (deref w data) = approved →
  date_eqb (date_of (start_date (deref w data))) (date_of now) = false →
  date_leb (date_of (end_date (deref w data))) (date_of now) = true →
  wp (check_vacations_end gid (vacation_role_id config) rid data) Q w →
  wp (check_vacations_request gid config now (rid, data)) Q w.
Proof.
  intros Hst Heq Hle H. unfold check_vacations_request. do 2 wp_next.
  rewrite bool_decide_eq_true_2 by done. cbn [negb]. by rewrite Heq, Hle.
Qed.

(** On or after the day a vacation ends, with Discord answering, a round of
    the lifecycle pass takes the vacation role from the member and gives
    back every role of the snapshot that the guild still has; the other
    roles of the member stay. *)
Theorem end_restores_the_saved_roles
    gid config rid data w d g user vacation_role :
  heap w !! data = Some d →
  status d = approved →
  date_eqb (date_of (start_date d)) (date_of (clock w)) = false →
  date_leb (date_of (end_date d)) (date_of (clock w)) = true →
  find_guild w gid = Some g →
  get_member g (user_id d) = Some user →
  truthy_id (vacation_role_id config) = true →
  get_role g (int_of_id (vacation_role_id config)) = Some vacation_role →
  role_id vacation_role ∉ saved_roles d →
  Forall (λ fails, fails = false) (api_failures (discord w)) →
  let w' := exec (check_vacations_request gid config (clock w) (rid, data)) w in
  ¬ holds_role w' gid (user_id d) (role_id vacation_role)
  ∧ (∀ r, r ∈ saved_roles d → is_Some (get_role g r) →
          holds_role w' gid (user_id d) r)
  ∧ (∀ r, r ≠ role_id vacation_role → holds_role w gid (user_id d) r →
          holds_role w' gid (user_id d) r).
Proof.
  intros Hd Hst Heq Hle Hg Hm Htr Hrole Hnot Hup w'.
  pose proof (deref_lookup _ _ _ Hd) as Hderef.
  subst w'. wp_of_exec.
  apply wp_check_vacations_request_end; [by rewrite Hderef..|].
  apply (wp_check_vacations_end_up gid _ rid data w g user vacation_role);
    [exact Hg|by rewrite Hderef|exact Htr|exact Hrole|exact Hup|].
  rewrite Hderef. intros res w' g' user' Hg' Hm' Hroles.
  subst Post. cbn beta. split_and!.
  - intros (g0 & m0 & Hg0 & Hm0 & Hheld).
    rewrite Hg' in Hg0. injection Hg0 as <-.
    rewrite Hm' in Hm0. injection Hm0 as <-.
    rewrite Hroles, restored_lacks in Hheld;
      [discriminate|exact Hnot|apply without_lacks].
  - intros r Hin [role Hr]. exists g', user'.
    split_and!; [exact Hg'|exact Hm'|].
    rewrite Hroles. by eapply restored_holds.
  - intros r Hne (g0 & m0 & Hg0 & Hm0 & Hheld).
    rewrite Hg in Hg0. injection Hg0 as <-.
    rewrite Hm in Hm0. injection Hm0 as <-.
    exists g', user'. split_and!; [exact Hg'|exact Hm'|].
    rewrite Hroles. by apply restored_keeps, without_keeps.
Qed.

(** The vacation of 12 to 19 January ends: the vacation role goes, the
    staff role of the snapshot is held. *)
Lemma end_restores_the_saved_roles_witness :
  let w := Scenario.later (Scenario.at_ 2024 1 19 0 10) Scenario.active_world in
  let w' := exec (check_vacations_request 1 (config_of w 1) (clock w)
                    (Scenario.alice_request, 0%nat)) w in
  saved_roles (deref w 0%nat) = [901]
  ∧ holds_role w 1 100 900
  ∧ ¬ holds_role w' 1 100 900
  ∧ holds_role w' 1 100 901.
Proof.
  intros w w'.
  destruct (end_restores_the_saved_roles 1 (config_of w 1)
              Scenario.alice_request 0%nat w (deref w 0%nat)
              (mk_guild 1 [Scenario.VACATION; Scenario.STAFF; Scenario.BOOSTER;
                           Scenario.TRAINEE]
                 [mk_member 100 [Scenario.STAFF; Scenario.BOOSTER;
                                 Scenario.VACATION];
                  Scenario.bob; Scenario.carol] [50])
              (mk_member 100 [Scenario.STAFF; Scenario.BOOSTER;
                              Scenario.VACATION])
              Scenario.VACATION)
    as (Hgone & Hback & _).
  - by_compute.
  - by_compute.
  - by_compute.
  - by_compute.
  - by_compute.
  - by_compute.
  - by_compute.
  - by_compute.
  - vm_compute. by intros [E|[]%elem_of_nil]%elem_of_cons.
  - vm_compute. constructor.
  - split_and!.
    + by vm_compute.
    + unfold holds_role. eexists _, _. split_and!; vm_compute; reflexivity.
    + exact Hgone.
    + apply (Hback 901); [vm_compute; apply list_elem_of_here|by_compute].
Defined.

(** The requests are not filed by guild, and the pass of every guild goes
    through all of [vacation_data].  When the end of a vacation is due in a
    round for a guild of which the member is not a member, the request is
    completed and leaves [vacation_data] all the same, and Discord is left
    as it is: no role is taken or given back in any guild, and no later
    round, of this guild or of the member's own, finds the request. *)
Theorem end_in_a_guild_without_the_member gid config rid data w d g :
  heap w !! data = Some d →
  status d = approved →
  date_eqb (date_of (start_date d)) (date_of (clock w)) = false →
  date_leb (date_of (end_date d)) (date_of (clock w)) = true →
  find_guild w gid = Some g →
  get_member g (user_id d) = None →
  let w' := exec (check_vacations_request gid config (clock w) (rid, data)) w in
  heap w' = <[data := set_status completed d]> (heap w)
  ∧ vacation_data w' = dict_del rid (vacation_data w)
  ∧ dict_get rid (vacation_requests w') = Some data
  ∧ discord w' = discord w.
Proof.
  intros Hd Hst Heq Hle Hg Hm w'.
  pose proof (deref_lookup _ _ _ Hd) as Hderef.
  assert (ended_effects rid data w w') as [Hheap Hreq Hdata _ _ _ _ _].
  { subst w'. wp_of_exec.
    apply wp_check_vacations_request_end; [by rewrite Hderef..|].
    apply wp_check_vacations_end; [by rewrite Hg|].
    intros r w1 He _ _. by subst Post. }
  split_and!.
  - rewrite Hheap. by apply alter_as_insert.
  - exact Hdata.
  - rewrite Hreq. apply dict_get_set_eq.
  - subst w'. wp_of_exec.
    apply wp_check_vacations_request_end; [by rewrite Hderef..|].
    unfold check_vacations_end. do 2 wp_next. rewrite Hderef.
    unfold remove_vacation_role.
    apply wp_bind. wp_apply wp_the_guild; [intros g0 Hg0|by rewrite Hg].
    rewrite Hg in Hg0. injection Hg0 as <-. rewrite Hm. wp_next.
    unfold restore_saved_roles. apply wp_bind. do 2 wp_next.
    wp_apply wp_the_guild; [intros g0 Hg0|by rewrite Hg].
    rewrite Hg in Hg0. injection Hg0 as <-. rewrite Hm. wp_next.
    unfold drop_vacation, store_request. do 8 wp_next.
    wp_apply wp_send_vacation_log. intros r4 w4 _ Hd4 _ _ _.
    subst Post. cbn beta. by rewrite Hd4.
Qed.

(** The bot is in a second guild, listed first, in which Alice is not: its
    round completes her request of guild 1, where she keeps the vacation
    role, also after the whole pass. *)
Lemma end_in_a_guild_without_the_member_witness :
  let x := discord Scenario.active_world in
  let w := exec (run_event
                   (Surroundings (Scenario.at_ 2024 1 19 0 10)
                      (set_guilds (mk_guild 2 [] [Scenario.bob] [] :: guilds x) x)))
                Scenario.active_world in
  let w' := exec (check_vacations_request 2 (config_of w 2) (clock w)
                    (Scenario.alice_request, 0%nat)) w in
  status (deref w' 0%nat) = completed
  ∧ vacation_data w' = []
  ∧ holds_role w' 1 100 900
  ∧ holds_role (exec check_vacations w) 1 100 900.
Proof.
  intros x w w'.
  destruct (end_in_a_guild_without_the_member 2 (config_of w 2)
              Scenario.alice_request 0%nat w (deref w 0%nat)
              (mk_guild 2 [] [Scenario.bob] []))
    as (Hheap & Hdata & _ & Hdiscord); [by_compute..|].
  fold w' in Hheap, Hdata, Hdiscord. split_and!.
  - unfold deref. rewrite Hheap. by vm_compute.
  - rewrite Hdata. by vm_compute.
  - unfold holds_role, find_guild. rewrite Hdiscord.
    eexists _, _. split_and!; vm_compute; reflexivity.
  - unfold holds_role. eexists _, _. split_and!; vm_compute; reflexivity.
Defined.

(** ** The automatic close *)



(** ** The reminders *)

(** The day before a vacation ends, a round of the reminders for a member
    of the guild calls Discord once.  When the call goes through, the
    request is marked, and from then on no round does anything for it,
    whatever the time: the reminder is sent once.  When the call fails,
    the request is left unmarked and as it was, so that the next pass of
    the day calls again. *)
Theorem reminder_is_sent_once gid rid data w d g user :
  heap w !! data = Some d →
  status d = approved →
  date_sub_days (date_of (end_date d)) (date_of (clock w)) = 1 →
  truthy (dict_get "reminder_sent" (extra d)) = false →
  find_guild w gid = Some g →
  get_member g (user_id d) = Some user →
  let round now := check_reminders_request gid now (rid, data) in
  let w' := exec (round (clock w)) w in
  result (round (clock w)) w = Ok tt
  ∧ (head (api_failures (discord w)) ≠ Some true →
     heap w' = <[data := set_key "reminder_sent" (VBool true) d]> (heap w)
     ∧ ∀ now w1, heap w1 = heap w' → round now w1 = (Ok tt, w1))
  ∧ (head (api_failures (discord w)) = Some true →
     heap w' = heap w ∧ vacation_data w' = vacation_data w).
Proof.
  intros Hd Hst Hleft Hunsent Hg Hm round w'.
  pose proof (deref_lookup _ _ _ Hd) as Hderef.
  cut (wp (round (clock w))
         (λ r w1,
            r = Ok tt
            ∧ api_failures (discord w1) = tail (api_failures (discord w))
            ∧ (if default false (head (api_failures (discord w)))
               then heap w1 = heap w ∧ vacation_data w1 = vacation_data w
               else heap w1
                    = alter (set_key "reminder_sent" (VBool true)) data (heap w)))
         w).
  { intros H. apply wp_run in H as (Hr & Hapi & Hcase). fold w' in Hapi, Hcase.
    split_and!; [exact Hr|..].
    - intros Hup.
      assert (default false (head (api_failures (discord w))) = false) as Hok.
      { destruct (head _) as [[]|]; [done..]. }
      rewrite Hok, (alter_as_insert _ _ _ _ Hd) in Hcase.
      split; [exact Hcase|]. intros now w1 Hh1.
      unfold round. apply wp_pair. unfold check_reminders_request.
      do 2 wp_next.
      assert (deref w1 data = set_key "reminder_sent" (VBool true) d) as ->.
      { apply deref_lookup. rewrite Hh1, Hcase.
        apply list_lookup_insert_eq. by eapply lookup_lt_Some. }
      cbn [status set_key set_extra extra].
      rewrite bool_decide_eq_true_2 by done. cbn [negb].
      rewrite dict_get_set_eq. cbn [truthy negb]. rewrite andb_false_r.
      by wp_steps.
    - intros Hdown. by rewrite Hdown in Hcase. }
  unfold round, check_reminders_request. do 2 wp_next. rewrite Hderef.
  rewrite bool_decide_eq_true_2 by done. cbn [negb].
  rewrite Hleft, Hunsent. cbn [Z.eqb Pos.eqb negb andb].
  wp_apply wp_the_guild; [intros g0 Hg0|by rewrite Hg].
  rewrite Hg in Hg0. injection Hg0 as <-. rewrite Hm.
  apply wp_try_except. wp_apply wp_api_call.
  intros r w1 Hc1 Hh1 Hr1 Hd1 Hs1 Hcfg1 Hdef1 Hv1 Hg1 Ha1 Hf1 ->.
  destruct (default false (head (api_failures (discord w)))) eqn:Hfail;
    cbn beta iota.
  { wp_steps. by split_and!. }
  unfold store_vacation. do 6 wp_next.
  wp_apply wp_send_vacation_log. intros r2 w2 Hs2 Hd2 _ _ _.
  assert (api_failures (discord w2) = tail (api_failures (discord w))
          ∧ heap w2
            = alter (set_key "reminder_sent" (VBool true)) data (heap w))
    as [Hapi2 Hheap2].
  { destruct Hs2 as [_ Hh2 _ _ _ _ _ _ _]. world_simpl_all.
    rewrite Hd2. world_simpl. split; congruence. }
  destruct r2 as [[]|e]; wp_steps; by split_and!.
Qed.

(** Alice's vacation ends on 19 January; the pass of the 18th. *)
Lemma reminder_is_sent_once_witness :
  let w := Scenario.later (Scenario.at_ 2024 1 18 9 0) Scenario.active_world in
  let round now := check_reminders_request 1 now (Scenario.alice_request, 0%nat) in
  let w' := exec (round (clock w)) w in
  truthy (dict_get "reminder_sent" (extra (deref w' 0%nat))) = true
  ∧ round (clock w') w' = (Ok tt, w').
Proof.
  intros w round w'.
  destruct (reminder_is_sent_once 1 Scenario.alice_request 0%nat w
              (deref w 0%nat)
              (mk_guild 1 [Scenario.VACATION; Scenario.STAFF; Scenario.BOOSTER;
                           Scenario.TRAINEE]
                 [mk_member 100 [Scenario.STAFF; Scenario.BOOSTER;
                                 Scenario.VACATION];
                  Scenario.bob; Scenario.carol] [50])
              (mk_member 100 [Scenario.STAFF; Scenario.BOOSTER;
                              Scenario.VACATION]))
    as (_ & Hsent & _); [by_compute..|].
  destruct Hsent as [Hheap Honce]; [by_compute|].
  split.
  - unfold deref, w', round. rewrite Hheap. by vm_compute.
  - exact (Honce (clock w') w' eq_refl).
Defined.

(** ** The review and the active set *)

(** In every state the process reaches from empty files, what
    [vacation_data] holds, and what an open select view offers, is a request
    that went through a review: it is neither pending nor closed
    automatically, and it carries its reviewer and the time of the
    decision. *)
Theorem active_set_holds_reviewed_requests now x events rid data :
  let w := run events (fresh_world now x) in
  (rid, data) ∈ vacation_data w
  ∨ (∃ view, view ∈ views w ∧ (rid, data) ∈ vacations view) →
  ∃ d, heap w !! data = Some d
       ∧ status d ≠ pending ∧ status d ≠ cancelled
       ∧ is_Some (reviewed_by d) ∧ is_Some (reviewed_at d).
Proof.
  intros w Hin.
  assert (store_inv w) as Hinv by apply store_inv_run, store_inv_fresh.
  assert (∃ d, heap w !! data = Some d ∧ decided d) as (d & Hd & Hdec).
  { destruct Hin as [Hin|(view & Hview & Hin)].
    - by eapply inv_data.
    - by eapply inv_views. }
  exists d. destruct Hdec as (? & ? & ? & ? & _). by split_and!.
Qed.

Lemma active_set_holds_reviewed_requests_witness :
  let w := run [Configure 1 Scenario.settings;
                Submit Scenario.as_alice (Scenario.at_ 2024 1 12 0 0) 7
                       "family" "@alice" Sent;
                Approve Scenario.as_bob Scenario.alice_request "ok"]
               (fresh_world (Scenario.at_ 2024 1 10 12 0) Scenario.discord_up) in
  ∃ d, heap w !! 0%nat = Some d
       ∧ status d ≠ pending ∧ status d ≠ cancelled
       ∧ is_Some (reviewed_by d) ∧ is_Some (reviewed_at d).
Proof.
  intros w.
  apply (active_set_holds_reviewed_requests
           (Scenario.at_ 2024 1 10 12 0) Scenario.discord_up
           [Configure 1 Scenario.settings;
            Submit Scenario.as_alice (Scenario.at_ 2024 1 12 0 0) 7
                   "family" "@alice" Sent;
            Approve Scenario.as_bob Scenario.alice_request "ok"]
           Scenario.alice_request 0%nat).
  left. vm_compute. apply list_elem_of_here.
Defined.

(** An approval of a pending request is written down before anything is
    sent: whatever becomes of the messages and of the log, the request is
    approved, carries the reviewer, the time and the comment, and is in
    [vacation_data] under its id; no other request and no other entry
    changes. *)
Theorem approve_vacation_commits inter rid comment w data d :
  dict_get rid (vacation_requests w) = Some data →
  heap w !! data = Some d →
  status d = pending →
  let w' := exec (approve_vacation inter rid comment) w in
  let d' := deref w' data in
  status d' = approved
  ∧ reviewed_by d' = Some (member_id (author inter))
  ∧ reviewed_at d' = Some (clock w)
  ∧ review_comment d' = Some comment
  ∧ deny_reason d' = deny_reason d
  ∧ dict_get rid (vacation_data w') = Some data
  ∧ (∀ rid', rid' ≠ rid →
       dict_get rid' (vacation_data w') = dict_get rid' (vacation_data w))
  ∧ (∀ l, l ≠ data → heap w' !! l = heap w !! l)
  ∧ vacation_requests w' = vacation_requests w.
Proof.
  intros Hrid Hd Hst w' d'.
  destruct (approve_vacation_pending inter rid comment w data d Hrid Hd Hst)
    as (Hheap & _ & Hreq & Hdata & _).
  fold w' in Hheap, Hreq, Hdata.
  assert (d' = approved_by (member_id (author inter)) (clock w) comment d) as ->.
  { unfold d', deref. by rewrite Hheap, list_lookup_alter_eq, Hd. }
  split_and!; try done.
  - rewrite Hdata. apply dict_get_set_eq.
  - intros rid' Hne. rewrite Hdata. by apply dict_get_set_ne.
  - intros l Hne. rewrite Hheap. by apply list_lookup_alter_ne.
Qed.

Lemma approve_vacation_commits_witness :
  let w' := exec (approve_vacation Scenario.as_bob Scenario.alice_request "ok")
                 Scenario.submitted in
  status (deref w' 0%nat) = approved
  ∧ reviewed_by (deref w' 0%nat) = Some 200
  ∧ dict_get Scenario.alice_request (vacation_data w') = Some 0%nat.
Proof.
  intros w'.
  destruct (approve_vacation_commits Scenario.as_bob Scenario.alice_request
              "ok" Scenario.submitted 0%nat (deref Scenario.submitted 0%nat))
    as (Hst & Hby & _ & _ & _ & Hdata & _); [by_compute..|].
  split_and!; [exact Hst|exact Hby|exact Hdata].
Defined.

(** A refusal of a pending request is written down before anything is sent:
    the request is denied and carries the reviewer, the time and the
    reason; it does not enter [vacation_data], the ledger is not touched,
    and no other request changes. *)
Theorem deny_vacation_commits inter rid reason w data d :
  dict_get rid (vacation_requests w) = Some data →
  heap w !! data = Some d →
  status d = pending →
  let w' := exec (deny_vacation inter rid reason) w in
  let d' := deref w' data in
  status d' = denied
  ∧ reviewed_by d' = Some (member_id (author inter))
  ∧ reviewed_at d' = Some (clock w)
  ∧ deny_reason d' = Some reason
  ∧ review_comment d' = review_comment d
  ∧ vacation_data w' = vacation_data w
  ∧ vacation_stats w' = vacation_stats w
  ∧ (∀ l, l ≠ data → heap w' !! l = heap w !! l)
  ∧ vacation_requests w' = vacation_requests w.
Proof.
  intros Hrid Hd Hst w' d'.
  destruct (deny_vacation_pending inter rid reason w data d Hrid Hd Hst)
    as (Hheap & _ & Hreq & Hdata & _ & Hstats).
  fold w' in Hheap, Hreq, Hdata, Hstats.
  assert (d' = denied_by (member_id (author inter)) (clock w) reason d) as ->.
  { unfold d', deref. by rewrite Hheap, list_lookup_alter_eq, Hd. }
  split_and!; try done.
  intros l Hne. rewrite Hheap. by apply list_lookup_alter_ne.
Qed.

Lemma deny_vacation_commits_witness :
  let w' := exec (deny_vacation Scenario.as_bob Scenario.alice_request "busy")
                 Scenario.submitted in
  status (deref w' 0%nat) = denied
  ∧ deny_reason (deref w' 0%nat) = Some "busy"
  ∧ vacation_data w' = [].
Proof.
  intros w'.
  destruct (deny_vacation_commits Scenario.as_bob Scenario.alice_request
              "busy" Scenario.submitted 0%nat (deref Scenario.submitted 0%nat))
    as (Hst & _ & _ & Hwhy & _ & Hdata & _); [by_compute..|].
  split_and!; [exact Hst|exact Hwhy|].
  fold w' in Hdata. rewrite Hdata. by vm_compute.
Defined.
